(** * AmazeDB group engine: a shallow embedding of [amazedb/group.py]

    The development follows the Python module top to bottom: the values a
    document can hold and the comparisons Python performs on them, the two
    module-level sorting helpers ([merge], [merge_sort]), [binary_search],
    the filter matcher [matchDocs], and finally the methods of the class
    [group] as computations over the group's file and its optional
    in-memory copy.  The theorems come after the definitions. *)

From Stdlib Require Import ZArith Ascii String Sorted.
From stdpp Require Import gmap strings list pretty.
From Equations Require Import Equations.

Local Open Scope string_scope.
Local Open Scope list_scope.
Local Open Scope Z_scope.

(** ** Values and documents

    A document is what [json.loads] yields for a JSON object: a [dict] from
    strings to JSON values.  Numbers are integers here; floating point
    numbers are outside this model.  A [dict] is a finite map: Python
    compares dicts without regard to the order of their keys. *)

#[warnings="-register-all"]
Inductive val : Type :=
| VNull
| VBool (b : bool)
| VInt (z : Z)
| VStr (s : string)
| VList (l : list val)
| VDict (d : gmap string val).

Abbreviation document := (gmap string val).

(** Python exceptions the engine can raise or let through. *)
Inductive value_error := MissingSortKey | NotInList.

Inductive exn :=
| KeyError
| IndexError
| TypeError
| AttributeError
| ValueError (why : value_error)
| InvalidFilterError
| InvalidRegExpError
| InvalidToken.

Inductive exc (A : Type) : Type :=
| OK (a : A)
| Raise (e : exn).
Arguments OK {A} a.
Arguments Raise {A} e.

Notation "'let*' x ':=' e 'in' k" :=
  (match e with OK x => k | Raise err => Raise err end)
  (at level 10, x name, e at level 100, k at level 200, only parsing).

(** *** Equality: Python's [==]

    On JSON data [==] is structural, except that [bool] is a subclass of
    [int] ([True == 1], [False == 0]).  [norm] reads every boolean as the
    integer it equals; two values are [==] when their readings coincide. *)

Fixpoint norm (v : val) : val :=
  match v with
  | VBool b => VInt (Z.b2z b)
  | VList l => VList (norm <$> l)
  | VDict d => VDict (norm <$> d)
  | _ => v
  end.

Global Instance val_eq_dec : EqDecision val.
Proof.
  refine (fix go (x y : val) {struct x} : Decision (x = y) :=
    let _ : EqDecision val := @go in
    match x, y with
    | VNull, VNull => left _
    | VBool a, VBool b => cast_if (decide (a = b))
    | VInt a, VInt b => cast_if (decide (a = b))
    | VStr a, VStr b => cast_if (decide (a = b))
    | VList a, VList b => cast_if (decide (a = b))
    | VDict a, VDict b => cast_if (decide (a = b))
    | _, _ => right _
    end); abstract congruence.
Defined.

Definition py_eq (x y : val) : bool := bool_decide (norm x = norm y).

(** *** Ordering: Python's [<], [<=], [>], [>=]

    Numbers (booleans included) compare numerically, strings
    lexicographically, lists lexicographically on the first pair of items
    that are not [==]; every other combination raises [TypeError]. *)

Inductive cmpop := OpLt | OpLe | OpGt | OpGe.

Definition holds (op : cmpop) (c : comparison) : bool :=
  match op, c with
  | OpLt, Lt | OpLe, (Lt | Eq) | OpGt, Gt | OpGe, (Gt | Eq) => true
  | _, _ => false
  end.

Fixpoint py_cmp (op : cmpop) (x y : val) {struct x} : exc bool :=
  match x, y with
  | VBool a, VBool b => OK (holds op (Z.b2z a ?= Z.b2z b))
  | VBool a, VInt b => OK (holds op (Z.b2z a ?= b))
  | VInt a, VBool b => OK (holds op (a ?= Z.b2z b))
  | VInt a, VInt b => OK (holds op (a ?= b))
  | VStr a, VStr b => OK (holds op (String.compare a b))
  | VList a, VList b =>
      (fix items (a b : list val) {struct a} : exc bool :=
         match a, b with
         | u :: a', w :: b' => if py_eq u w then items a' b' else py_cmp op u w
         | _, _ => OK (holds op (Nat.compare (length a) (length b)))
         end) a b
  | _, _ => Raise TypeError
  end.

(** ** Subscripting *)

(** [d[k]] on a dict. *)
Definition getitem (d : document) (k : string) : exc val :=
  match d !! k with
  | Some v => OK v
  | None => Raise KeyError
  end.

(** [arr[i]] on a list: a negative index counts from the end. *)
Definition py_index {A} (arr : list A) (i : Z) : exc A :=
  let j := if i <? 0 then i + Z.of_nat (length arr) else i in
  if j <? 0 then Raise IndexError
  else match arr !! Z.to_nat j with
       | Some a => OK a
       | None => Raise IndexError
       end.

(** ** [merge]

    The [while] loop runs while [len(result) < len(left) + len(right)]; each
    turn appends exactly one document before its two exit checks, so [fuel]
    is that difference, [len(left) + len(right) - len(result)]. *)

Fixpoint merge_while (fuel : nat) (left right : list document)
    (param : string) (result : list document) (index_left index_right : nat)
    : exc (list document) :=
  match fuel with
  | O => OK result
  | S fuel =>
      let after := λ (result : list document) (index_left index_right : nat),
        if (index_right =? length right)%nat then
          OK (result ++ drop index_left left)
        else if (index_left =? length left)%nat then
          OK (result ++ drop index_right right)
        else
          merge_while fuel left right param result index_left index_right in
      let* l := py_index left (Z.of_nat index_left) in
      let* x := getitem l param in
      let* r := py_index right (Z.of_nat index_right) in
      let* y := getitem r param in
      let* le := py_cmp OpLe x y in
      if le : bool then after (result ++ [l]) (S index_left) index_right
      else after (result ++ [r]) index_left (S index_right)
  end.

Definition merge (left right : list document) (param : string)
    : exc (list document) :=
  if (length left =? 0)%nat then OK right
  else if (length right =? 0)%nat then OK left
  else
    match merge_while (length left + length right) left right param [] 0 0 with
    | Raise KeyError => Raise (ValueError MissingSortKey)
    | other => other
    end.

(** The same loop read as a recursion on what is left of each list
    ([left[index_left:]] and [right[index_right:]]); [merge_while_rec] below
    shows that the two agree. *)
Fixpoint merge_rec (param : string) (left : list document)
    : list document → exc (list document) :=
  fix merge_right (right : list document) : exc (list document) :=
    match left, right with
    | [], _ => OK right
    | _, [] => OK left
    | l :: left', r :: right' =>
        let* x := getitem l param in
        let* y := getitem r param in
        let* le := py_cmp OpLe x y in
        if le : bool then
          let* rest := merge_rec param left' right in OK (l :: rest)
        else
          let* rest := merge_right right' in OK (r :: rest)
    end.

(** ** [merge_sort] *)

Equations? merge_sort (array : list document) (param : string)
    : exc (list document) by wf (length array) lt :=
  merge_sort array param with decide (length array < 2)%nat => {
    | left _ => OK array
    | right _ =>
        let midpoint := (length array / 2)%nat in
        let* left := merge_sort (take midpoint array) param in
        let* right := merge_sort (drop midpoint array) param in
        merge left right param }.
Proof.
  all: subst midpoint;
    change (Nat.divmod (length array) 1 0 1).1 with (length array / 2)%nat.
  - rewrite length_take. pose proof (Nat.div_lt (length array) 2). lia.
  - rewrite length_drop. pose proof (Nat.div_str_pos (length array) 2). lia.
Qed.

(** ** [binary_search]

    What [get_one] hands back: a document, [False] (from [binary_search]) or
    [None] (the linear scan falling off its loop). *)

Inductive found :=
| Doc (d : document)
| PyFalse
| PyNone.

Equations? binary_search_while (arr : list document) (key : string)
    (value : val) (l u : Z) : exc found by wf (Z.to_nat (u - l)) lt :=
  binary_search_while arr key value l u with decide (l < u) => {
    | right _ => OK PyFalse
    | left _ =>
        let mid := (l + u) / 2 in
        let* d := py_index arr mid in
        let* x := getitem d key in
        if py_eq x value then OK (Doc d)
        else
          let* lt := py_cmp OpLt x value in
          if lt : bool then binary_search_while arr key value (mid + 1) u
          else binary_search_while arr key value l mid }.
Proof.
  all: assert (l ≤ (l + u) / 2 < u)
    by (split; [apply Z.div_le_lower_bound | apply Z.div_lt_upper_bound]; lia);
    lia.
Qed.

Definition binary_search (arr : list document) (key : string) (value : val)
    : exc found :=
  binary_search_while arr key value 0 (Z.of_nat (length arr) - 1).

(** ** [matchDocs]

    [re.match] and [str] come from the Python runtime.  [re_match p s] is
    [Some true] when [re.match(p, s)] finds a match, [Some false] when it
    returns [None], and [None] when [p] does not compile ([re.error]). *)

Class Runtime := {
  py_str : val → string;
  re_match : string → string → option bool;
  py_str_VStr : ∀ s, py_str (VStr s) = s
}.

(** A filter specification is either literal data (anything but a dict,
    compared with [==]) or a dict from operator tags to operands.  The
    operand of ["__cf"] is a Python callable; [None] stands for a call that
    raised. *)

Inductive plain :=
| PNull
| PBool (b : bool)
| PInt (z : Z)
| PStr (s : string)
| PList (l : list val).

Definition plain_val (p : plain) : val :=
  match p with
  | PNull => VNull
  | PBool b => VBool b
  | PInt z => VInt z
  | PStr s => VStr s
  | PList l => VList l
  end.

Inductive operand :=
| OVal (v : val)
| OFun (f : val → option bool).

Inductive fspec :=
| Lit (p : plain)
| Ops (ops : list (string * operand)).

(** [doc == filters[i]] and [doc <= filters[i]] (and the like) when the
    operand may be a function object. *)
Definition eq_operand (doc : val) (o : operand) : bool :=
  match o with
  | OVal v => py_eq doc v
  | OFun _ => false
  end.

Definition cmp_operand (op : cmpop) (doc : val) (o : operand) : exc bool :=
  match o with
  | OVal v => py_cmp op doc v
  | OFun _ => Raise TypeError
  end.

Section matcher.
Context `{!Runtime}.

(** One turn of the loop [for i in filters.keys()]: [OK false] is
    [return False], [OK true] lets the loop go on. *)
Definition match_operator (doc : val) (i : string) (o : operand) : exc bool :=
  if (i =? "__ne")%string then OK (negb (eq_operand doc o))
  else if (i =? "__gt")%string then
    let* c := cmp_operand OpLe doc o in OK (negb c)
  else if (i =? "__lt")%string then
    let* c := cmp_operand OpGe doc o in OK (negb c)
  else if (i =? "__lte")%string then
    let* c := cmp_operand OpGt doc o in OK (negb c)
  else if (i =? "__gte")%string then
    let* c := cmp_operand OpLt doc o in OK (negb c)
  else if (i =? "__re")%string then
    match o with
    | OVal (VStr p) =>
        match re_match p (py_str doc) with
        | Some m => OK m
        | None => Raise InvalidRegExpError
        end
    | _ => Raise InvalidRegExpError
    end
  else if (i =? "__cf")%string then
    match o with
    | OFun f =>
        match f doc with
        | Some r => OK r
        | None => Raise InvalidFilterError
        end
    | OVal _ => Raise InvalidFilterError
    end
  else Raise InvalidFilterError.

Fixpoint match_operators (doc : val) (filters : list (string * operand))
    : exc bool :=
  match filters with
  | [] => OK true
  | (i, o) :: rest =>
      let* passed := match_operator doc i o in
      if passed : bool then match_operators doc rest else OK false
  end.

Definition matchDocs (doc : val) (filters : fspec) : exc bool :=
  match filters with
  | Ops ops => match_operators doc ops
  | Lit p => OK (py_eq (plain_val p) doc)
  end.

(** The loop [for j in filters] that [get_one] and [get] run on a
    document [i]: [matches] stays [True] only if every field passes; a
    [KeyError] marks the document unmatched. *)
Fixpoint match_filters (i : document) (filters : list (string * fspec))
    : exc bool :=
  match filters with
  | [] => OK true
  | (j, spec) :: rest =>
      match (let* v := getitem i j in matchDocs v spec) with
      | OK true => match_filters i rest
      | OK false => OK false
      | Raise KeyError => OK false
      | Raise e => Raise e
      end
  end.

(** [for i in docs: ... if matches: return i] *)
Fixpoint linear_search (docs : list document) (filters : list (string * fspec))
    : exc found :=
  match docs with
  | [] => OK PyNone
  | i :: docs =>
      let* matches := match_filters i filters in
      if matches : bool then OK (Doc i) else linear_search docs filters
  end.

(** [for i in docs: ... if matches: output.append(i)] *)
Fixpoint linear_collect (docs : list document) (filters : list (string * fspec))
    : exc (list document) :=
  match docs with
  | [] => OK []
  | i :: docs =>
      let* matches := match_filters i filters in
      let* output := linear_collect docs filters in
      OK (if matches : bool then i :: output else output)
  end.
End matcher.

(** ** The class [group]

    The group file holds [Fernet(key).encrypt(json.dumps(docs).encode())];
    reading it back is [json.loads(Fernet(key).decrypt(...))], which fails on
    a wrong key or a tampered file.  Opening the file and writing it back
    are taken to succeed: failures of the file system are not modelled. *)

Class Codec := {
  blob : Type;
  encrypt_dumps : list document → blob;
  decrypt_loads : blob → option (list document);
  decrypt_encrypt : ∀ docs, decrypt_loads (encrypt_dumps docs) = Some docs
}.

(** [self.data] is the in-memory copy, present and used only when
    [self.preLoad] is set. *)
Record group `{!Codec} := Group {
  preLoad : bool;
  data : list document;
  file : blob
}.
Arguments Group {_} preLoad data file.

(** [not sortby] is true for [None] and for the empty string. *)
Definition truthy (sortby : option string) : bool :=
  match sortby with
  | Some s => negb (s =? EmptyString)%string
  | None => false
  end.

(** What [doc.copy()] gives; [None] and [False] have no [copy]. *)
Definition copy (doc : found) : exc document :=
  match doc with
  | Doc d => OK d
  | PyFalse | PyNone => Raise AttributeError
  end.

Definition found_val (doc : found) : val :=
  match doc with
  | Doc d => VDict d
  | PyFalse => VBool false
  | PyNone => VNull
  end.

(** [docs.remove(x)]: drops the first item that [== x]. *)
Fixpoint list_remove (x : val) (docs : list document) : exc (list document) :=
  match docs with
  | [] => Raise (ValueError NotInList)
  | item :: docs =>
      if py_eq (VDict item) x then OK docs
      else let* docs := list_remove x docs in OK (item :: docs)
  end.

(** [[docs.remove(j) for j in doc]] *)
Fixpoint list_remove_each (doc docs : list document) : exc (list document) :=
  match doc with
  | [] => OK docs
  | j :: doc =>
      let* docs := list_remove (VDict j) docs in list_remove_each doc docs
  end.

Module group.
Section methods.
Context `{!Runtime, !Codec}.

(** A method runs on [self] and either returns or raises; in both cases
    [self] may have been changed on the way. *)
Definition M (A : Type) : Type := group → exc A * group.

Definition ret {A} (a : A) : M A := λ self, (OK a, self).

Definition bind {A B} (m : M A) (k : A → M B) : M B := λ self,
  match m self with
  | (OK a, self) => k a self
  | (Raise e, self) => (Raise e, self)
  end.

Definition lift {A} (r : exc A) : M A := λ self, (r, self).

Definition ask {A} (f : group → exc A) : M A := λ self, (f self, self).

Notation "x <- m ;; k" := (bind m (λ x, k))
  (at level 100, m at next level, k at level 200, right associativity,
   only parsing).

(** [if self.preLoad: ...] *)
Definition if_preLoad (m : M unit) : M unit := λ self,
  if preLoad self then m self else (OK (), self).

(** [self.data.remove(x)], [self.data.append(d)], [self.data.extend(ds)] *)
Definition data_remove (x : val) : M unit := λ self,
  match list_remove x (data self) with
  | OK data' => (OK (), Group (preLoad self) data' (file self))
  | Raise e => (Raise e, self)
  end.

Definition data_extend (ds : list document) : M unit := λ self,
  (OK (), Group (preLoad self) (data self ++ ds) (file self)).

Definition data_append (d : document) : M unit := data_extend [d].

Fixpoint data_remove_each (doc : list document) : M unit :=
  match doc with
  | [] => ret ()
  | i :: doc => _ <- data_remove (VDict i) ;; data_remove_each doc
  end.

(** [json.loads(Fernet(self.key).decrypt(f.read()))] *)
Definition read_file (self : group) : exc (list document) :=
  match decrypt_loads (file self) with
  | Some docs => OK docs
  | None => Raise InvalidToken
  end.

(** [f.truncate(0); f.seek(0)] and
    [f.write(Fernet(...).encrypt(json.dumps(docs).encode()))], read as one
    step that succeeds: the documents are JSON data, which [json.dumps]
    serialises, the key has just decrypted the file, and a failing file
    system is outside this model.  In the source the file is already empty
    when [json.dumps], [encrypt] and [write] run; an exception there would
    leave it empty, and nothing below speaks about that case. *)
Definition write_file (docs : list document) : M unit := λ self,
  (OK (), Group (preLoad self) (data self) (encrypt_dumps docs)).

Definition fetch_data : M unit := λ self,
  match read_file self with
  | OK docs => (OK (), Group (preLoad self) docs (file self))
  | Raise e => (Raise e, self)
  end.

(** The documents a query looks at: [self.data] under [preLoad], the file
    otherwise. *)
Definition load_docs (self : group) : exc (list document) :=
  if preLoad self then OK (data self) else read_file self.

Definition insert (data moreData : document) : M bool :=
  let data := moreData ∪ data in
  _ <- if_preLoad (data_append data) ;;
  d <- ask read_file ;;
  _ <- write_file (d ++ [data]) ;;
  ret true.

Definition insert_many (data : list document) : M bool :=
  _ <- if_preLoad (data_extend data) ;;
  d <- ask read_file ;;
  _ <- write_file (d ++ data) ;;
  ret true.

Definition get_one (filters : list (string * fspec)) (sortby : option string)
    (self : group) : exc found :=
  let* docs := load_docs self in
  match filters, truthy sortby with
  | [(key, Lit value)], false =>
      let* docs := merge_sort docs key in
      binary_search docs key (plain_val value)
  | _, _ =>
      let* docs :=
        (if truthy sortby then merge_sort docs (default EmptyString sortby)
         else OK docs) in
      linear_search docs filters
  end.

Definition get (filters : list (string * fspec)) (sortby : option string)
    (self : group) : exc (list document) :=
  let* docs := load_docs self in
  let* output := linear_collect docs filters in
  if truthy sortby then merge_sort output (default EmptyString sortby)
  else OK output.

Definition update_one (filters : list (string * fspec)) (nValues : document)
    : M unit :=
  doc <- ask (get_one filters None) ;;
  nDoc <- lift (copy doc) ;;
  let nDoc := nValues ∪ nDoc in
  _ <- if_preLoad (_ <- data_remove (found_val doc) ;; data_append nDoc) ;;
  docs <- ask read_file ;;
  docs <- lift (list_remove (found_val doc) docs) ;;
  write_file (docs ++ [nDoc]).

Definition update (filters : list (string * fspec)) (nValues : document)
    : M nat :=
  doc <- ask (get filters None) ;;
  let nDoc := (λ i, nValues ∪ i) <$> doc in
  _ <- if_preLoad (_ <- data_remove_each doc ;; data_extend nDoc) ;;
  docs <- ask read_file ;;
  docs <- lift (list_remove_each doc docs) ;;
  _ <- write_file (docs ++ nDoc) ;;
  ret (length nDoc).

Definition remove_one (filters : list (string * fspec)) : M unit :=
  doc <- ask (get_one filters None) ;;
  _ <- if_preLoad (data_remove (found_val doc)) ;;
  docs <- ask read_file ;;
  docs <- lift (list_remove (found_val doc) docs) ;;
  write_file docs.

Definition remove (filters : list (string * fspec)) : M nat :=
  doc <- ask (get filters None) ;;
  _ <- if_preLoad (data_remove_each doc) ;;
  docs <- ask read_file ;;
  docs <- lift (list_remove_each doc docs) ;;
  _ <- write_file docs ;;
  ret (length doc).
End methods.
End group.

(** ** Definitions used to state and prove the properties

    [py_compare] is the three-way comparison behind [py_cmp]: the four
    operators read their answer off its outcome ([py_cmp_compare]). *)

Fixpoint py_compare (x y : val) {struct x} : exc comparison :=
  match x, y with
  | VBool a, VBool b => OK (Z.b2z a ?= Z.b2z b)
  | VBool a, VInt b => OK (Z.b2z a ?= b)
  | VInt a, VBool b => OK (a ?= Z.b2z b)
  | VInt a, VInt b => OK (a ?= b)
  | VStr a, VStr b => OK (String.compare a b)
  | VList a, VList b =>
      (fix items (a b : list val) {struct a} : exc comparison :=
         match a, b with
         | u :: a', w :: b' => if py_eq u w then items a' b' else py_compare u w
         | _, _ => OK (Nat.compare (length a) (length b))
         end) a b
  | _, _ => Raise TypeError
  end.

(** What two successive "not greater" outcomes compose to. *)
Definition comp_then (c1 c2 : comparison) : comparison :=
  match c1, c2 with
  | Eq, Eq => Eq
  | _, _ => Lt
  end.

(** How [merge] reports an exception of its loop: a [KeyError] becomes the
    [ValueError] about the sort parameter, anything else passes through. *)
Definition sort_error {A} (r : exc A) : exc A :=
  match r with
  | Raise KeyError => Raise (ValueError MissingSortKey)
  | other => other
  end.


(** [a[param] <= b[param]] holds. *)
Definition key_le (param : string) (a b : document) : Prop :=
  ∃ x y, a !! param = Some x ∧ b !! param = Some y ∧
         py_cmp OpLe x y = OK true.

(** [d[param] == v], false when [d] has no such field. *)
Definition same_key (param : string) (v : val) (d : document) : bool :=
  match d !! param with
  | Some x => py_eq x v
  | None => false
  end.

(** The document passes the filters of a query: the inner loop of [get_one]
    and [get] ends with [matches] still [True]. *)
Definition passes `{!Runtime} (filters : list (string * fspec))
    (d : document) : bool :=
  match match_filters d filters with
  | OK true => true
  | _ => false
  end.

(** Every filter is a plain value, to be compared with [==]. *)
Definition plain_filters (filters : list (string * fspec)) : Prop :=
  Forall (λ jf, ∃ p, jf.2 = Lit p) filters.

(** The group file decodes to [docs] and the in-memory copy, if there is
    one, holds the same documents. *)
Definition in_sync `{!Codec} (self : group) (docs : list document) : Prop :=
  decrypt_loads (file self) = Some docs ∧
  (preLoad self = true → data self = docs).

(** The known operator tags of a filter dict. *)
Definition operator_tags : list string :=
  ["__ne"; "__gt"; "__lt"; "__lte"; "__gte"; "__re"; "__cf"].

(** A method keeps the in-memory copy equal to the decoded file. *)
Definition keeps_mirror `{!Codec} {A} (m : group → exc A * group) : Prop :=
  ∀ self r self',
    preLoad self = true →
    decrypt_loads (file self) = Some (data self) →
    m self = (OK r, self') →
    preLoad self' = true ∧ decrypt_loads (file self') = Some (data self').

(** Decision procedures for the two conditions under which [merge_sort]
    succeeds: every document has the key, and no two key values raise when
    compared. *)
Definition has_keyb (param : string) (sequence : list document) : bool :=
  forallb (λ d, bool_decide (is_Some (d !! param))) sequence.

Definition comparableb (param : string) (sequence : list document) : bool :=
  forallb (λ a, forallb (λ b,
    match a !! param, b !! param with
    | Some x, Some y =>
        match py_cmp OpLe x y with
        | OK _ => true
        | Raise _ => false
        end
    | _, _ => true
    end) sequence) sequence.

(** The test [get_one] makes before it takes the fast path: one filter,
    no [sortby], and the filter is not a dict. *)
Definition fast_path (filters : list (string * fspec))
    (sortby : option string) : bool :=
  match filters, truthy sortby with
  | [(_, Lit _)], false => true
  | _, _ => false
  end.

(** The exceptions a query lets through. *)
Definition query_errors : list exn :=
  [InvalidToken; ValueError MissingSortKey; TypeError;
   InvalidFilterError; InvalidRegExpError].

(** Those of them that come from evaluating the filters on a document. *)
Definition matcher_errors : list exn :=
  [TypeError; InvalidFilterError; InvalidRegExpError].

(** A check came out [True]: it returned, and what it returned is [True]. *)
Definition accepted (r : exc bool) : bool :=
  match r with
  | OK true => true
  | _ => false
  end.

(** ** Every mutation, as one type

    Used to state properties that hold of all six mutating methods. *)

Inductive mutation :=
| Insert (data moreData : document)
| InsertMany (data : list document)
| UpdateOne (filters : list (string * fspec)) (nValues : document)
| Update (filters : list (string * fspec)) (nValues : document)
| RemoveOne (filters : list (string * fspec))
| Remove (filters : list (string * fspec)).

Definition discard {A} `{!Codec} (r : exc A * group) : exc unit * group :=
  (match r.1 with OK _ => OK () | Raise e => Raise e end, r.2).

Definition run `{!Runtime, !Codec} (op : mutation) (self : group)
    : exc unit * group :=
  match op with
  | Insert data moreData => discard (group.insert data moreData self)
  | InsertMany data => discard (group.insert_many data self)
  | UpdateOne filters nValues => group.update_one filters nValues self
  | Update filters nValues => discard (group.update filters nValues self)
  | RemoveOne filters => group.remove_one filters self
  | Remove filters => discard (group.remove filters self)
  end.

(** The stored sequence after a mutation that starts from [docs]: what
    the method computes from the result of its query, as one expression. *)
Definition stored_after `{!Runtime, !Codec} (op : mutation) (self : group)
    (docs : list document) : exc (list document) :=
  match op with
  | Insert data moreData => OK (docs ++ [moreData ∪ data])
  | InsertMany data => OK (docs ++ data)
  | UpdateOne filters nValues =>
      let* doc := group.get_one filters None self in
      let* nDoc := copy doc in
      let* docs := list_remove (found_val doc) docs in
      OK (docs ++ [nValues ∪ nDoc])
  | Update filters nValues =>
      let* doc := group.get filters None self in
      let* docs := list_remove_each doc docs in
      OK (docs ++ ((λ i, nValues ∪ i) <$> doc))
  | RemoveOne filters =>
      let* doc := group.get_one filters None self in
      list_remove (found_val doc) docs
  | Remove filters =>
      let* doc := group.get filters None self in
      list_remove_each doc docs
  end.

(** [for d in ds: self.insert(d)], the loop a caller writes to insert
    the documents one at a time. *)
Fixpoint insert_each `{!Runtime, !Codec} (ds : list document)
    : group → exc bool * group :=
  match ds with
  | [] => group.ret true
  | d :: ds => group.bind (group.insert d ∅) (λ _, insert_each ds)
  end.

(** ** Instances for running the code on examples

    [clear_codec] keeps the documents as they are.  [prefix_runtime] prints
    scalars as Python does (containers are not needed by the examples and
    print as the empty string) and knows literal patterns only, optionally
    anchored with [^]; [re.match] anchors at the start of the string
    anyway. *)

Definition clear_codec : Codec :=
  {| blob := list document;
     encrypt_dumps := id;
     decrypt_loads := Some;
     decrypt_encrypt := λ _, eq_refl |}.

Definition strip_caret (p : string) : string :=
  match p with
  | String "^"%char rest => rest
  | _ => p
  end.

Definition scalar_str (v : val) : string :=
  match v with
  | VNull => "None"
  | VBool true => "True"
  | VBool false => "False"
  | VInt z => pretty z
  | VStr s => s
  | VList _ | VDict _ => EmptyString
  end.

Definition prefix_runtime : Runtime :=
  {| py_str := scalar_str;
     re_match := λ p s, Some (String.prefix (strip_caret p) s);
     py_str_VStr := λ _, eq_refl |}.

(** * Theorems *)

(** ** Equality of values *)

Lemma py_eq_iff x y : py_eq x y = true ↔ norm x = norm y.
Proof. unfold py_eq. apply bool_decide_eq_true. Qed.

Lemma py_eq_refl x : py_eq x x = true.
Proof. by apply py_eq_iff. Qed.

Lemma py_eq_sym x y : py_eq x y = py_eq y x.
Proof.
  unfold py_eq. destruct (decide (norm x = norm y)) as [E | E].
  - by rewrite !bool_decide_eq_true_2.
  - by rewrite !bool_decide_eq_false_2.
Qed.

Lemma py_eq_trans x y z :
  py_eq x y = true → py_eq y z = true → py_eq x z = true.
Proof. rewrite !py_eq_iff. congruence. Qed.

(** Two dicts that are [==] have the same keys, with [==] values. *)
Lemma py_eq_dict_lookup (d d' : document) k :
  py_eq (VDict d) (VDict d') = true →
  norm <$> d !! k = norm <$> d' !! k.
Proof.
  rewrite py_eq_iff. simpl. intros [= E].
  by rewrite <- !lookup_fmap, E.
Qed.

Lemma py_eq_dict_scalar (d : document) r :
  r = PyFalse ∨ r = PyNone → py_eq (VDict d) (found_val r) = false.
Proof. by intros [-> | ->]. Qed.

(** A few values, to fix ideas: [True == 1], also inside containers; the
    order of the keys of a dict does not matter; a number is not the string
    that prints it. *)
Example py_eq_samples :
  py_eq (VBool true) (VInt 1) = true ∧
  py_eq (VList [VBool false; VNull]) (VList [VInt 0; VNull]) = true ∧
  py_eq (VDict {[ "a" := VInt 1; "b" := VStr "x" ]})
        (VDict {[ "b" := VStr "x"; "a" := VBool true ]}) = true ∧
  py_eq (VInt 1) (VStr "1") = false ∧
  py_eq (VDict {[ "a" := VInt 1 ]}) (VDict {[ "a" := VInt 1; "b" := VNull ]})
  = false.
Proof. by vm_compute. Qed.

(** [1 <= True]; ["a" <= "ab"]; [[1, 2] <= [1, 2, 0]]; [[1, "a"] <= [1, 2]],
    [None <= None] and [1 <= "a"] raise. *)
Example py_cmp_samples :
  py_cmp OpLe (VInt 1) (VBool true) = OK true ∧
  py_cmp OpLe (VStr "a") (VStr "ab") = OK true ∧
  py_cmp OpLe (VList [VInt 1; VInt 2]) (VList [VInt 1; VInt 2; VInt 0])
  = OK true ∧
  py_cmp OpLe (VList [VInt 1; VStr "a"]) (VList [VInt 1; VInt 2])
  = Raise TypeError ∧
  py_cmp OpLe VNull VNull = Raise TypeError ∧
  py_cmp OpLe (VInt 1) (VStr "a") = Raise TypeError.
Proof. by vm_compute. Qed.

(** ** Ordering of values *)

Lemma Z_compare_then (a b c : Z) :
  (a ?= b) ≠ Gt → (b ?= c) ≠ Gt → (a ?= c) = comp_then (a ?= b) (b ?= c).
Proof.
  destruct (Z.compare_spec a b), (Z.compare_spec b c); intros; try done;
    simpl; first [ apply Z.compare_eq_iff | apply Z.compare_lt_iff ]; lia.
Qed.

Lemma nat_compare_then (a b c : nat) :
  (a ?= b)%nat ≠ Gt → (b ?= c)%nat ≠ Gt →
  (a ?= c)%nat = comp_then (a ?= b)%nat (b ?= c)%nat.
Proof.
  destruct (Nat.compare_spec a b), (Nat.compare_spec b c); intros; try done;
    simpl; first [ apply Nat.compare_eq_iff | apply Nat.compare_lt_iff ]; lia.
Qed.

Lemma ascii_compare_then (a b c : ascii) :
  Ascii.compare a b ≠ Gt → Ascii.compare b c ≠ Gt →
  Ascii.compare a c = comp_then (Ascii.compare a b) (Ascii.compare b c).
Proof.
  unfold Ascii.compare.
  destruct (N.compare_spec (N_of_ascii a) (N_of_ascii b)),
    (N.compare_spec (N_of_ascii b) (N_of_ascii c)); intros; try done;
    simpl; first [ apply N.compare_eq_iff | apply N.compare_lt_iff ]; lia.
Qed.

Lemma string_compare_then (a b c : string) :
  String.compare a b ≠ Gt → String.compare b c ≠ Gt →
  String.compare a c = comp_then (String.compare a b) (String.compare b c).
Proof.
  revert b c. induction a as [ | x a IH ]; intros [ | y b ] [ | z c ]; try done.
  simpl. intros Hab Hbc.
  pose proof (ascii_compare_then x y z) as Hx.
  destruct (Ascii.compare x y) eqn:Exy; try done;
    destruct (Ascii.compare y z) eqn:Eyz; try done;
    rewrite Hx by done; simpl; try done.
  - by apply IH.
  - by destruct (String.compare a b).
Qed.

Lemma py_compare_cons u a w b :
  py_compare (VList (u :: a)) (VList (w :: b)) =
  if py_eq u w then py_compare (VList a) (VList b) else py_compare u w.
Proof. reflexivity. Qed.

Lemma py_cmp_cons op u a w b :
  py_cmp op (VList (u :: a)) (VList (w :: b)) =
  if py_eq u w then py_cmp op (VList a) (VList b) else py_cmp op u w.
Proof. reflexivity. Qed.

(** Induction over values that also descends into lists (the only nesting
    the ordering comparisons recurse through). *)
Lemma val_list_ind (P : val → Prop) :
  P VNull → (∀ b, P (VBool b)) → (∀ z, P (VInt z)) → (∀ s, P (VStr s)) →
  (∀ l, Forall P l → P (VList l)) → (∀ d, P (VDict d)) →
  ∀ v, P v.
Proof.
  intros HN HB HI HS HL HD.
  fix IH 1. intros [ | b | z | s | l | d ];
    [ exact HN | apply HB | apply HI | apply HS | apply HL | apply HD ].
  induction l as [ | x l IHl ]; constructor; [ apply IH | exact IHl ].
Qed.

(** Induction on the first of two lists being compared. *)
Lemma val_list_ind2 (P : val → Prop) :
  P VNull → (∀ b, P (VBool b)) → (∀ z, P (VInt z)) → (∀ s, P (VStr s)) →
  P (VList []) → (∀ u a, P u → P (VList a) → P (VList (u :: a))) →
  (∀ d, P (VDict d)) →
  ∀ v, P v.
Proof.
  intros HN HB HI HS Hnil Hcons HD. apply val_list_ind; try done.
  induction 1; auto.
Qed.

Lemma py_cmp_compare op x y :
  py_cmp op x y = let* c := py_compare x y in OK (holds op c).
Proof.
  revert y.
  induction x as [ | xb | xz | xs | | u a IHu IHa | xd ] using val_list_ind2;
    intros [ | yb | yz | ys | [ | w b ] | yd ]; try done.
  rewrite py_cmp_cons, py_compare_cons. by destruct (py_eq u w).
Qed.

Lemma py_compare_raise x y e : py_compare x y = Raise e → e = TypeError.
Proof.
  revert y.
  induction x as [ | xb | xz | xs | | u a IHu IHa | xd ] using val_list_ind2;
    intros [ | yb | yz | ys | [ | w b ] | yd ]; try (by intros [= <-]).
  rewrite py_compare_cons. destruct (py_eq u w); eauto.
Qed.

Lemma py_compare_antisym x y :
  py_compare y x = let* c := py_compare x y in OK (CompOpp c).
Proof.
  revert y.
  induction x as [ | xb | xz | xs | | u a IHu IHa | xd ] using val_list_ind2;
    intros [ | yb | yz | ys | [ | w b ] | yd ]; try done;
    try (simpl; f_equal;
         first [ apply Z.compare_antisym | apply String.compare_antisym ]).
  rewrite !py_compare_cons, (py_eq_sym w u).
  destruct (py_eq u w); [ apply (IHa (VList b)) | apply IHu ].
Qed.

Lemma py_compare_Eq x y : py_compare x y = OK Eq → py_eq x y = true.
Proof.
  rewrite py_eq_iff.
  revert y.
  induction x as [ | xb | xz | xs | | u a IHu IHa | xd ] using val_list_ind2;
    intros [ | yb | yz | ys | [ | w b ] | yd ]; try done;
    try (cbn [py_compare norm]; intros [= E%Z.compare_eq_iff]; congruence).
  - cbn [py_compare norm]. by intros [= ->%String.compare_eq_iff].
  - rewrite py_compare_cons. destruct (py_eq u w) eqn:E.
    + apply py_eq_iff in E. intros Ht%IHa. cbn [norm] in *.
      injection Ht as Ht. by rewrite !fmap_cons, E, Ht.
    + intros Ht%IHu. apply py_eq_iff in Ht. congruence.
Qed.

Lemma string_compare_refl s : String.compare s s = Eq.
Proof.
  induction s as [ | a s IH ]; [ done | ].
  simpl. unfold Ascii.compare. by rewrite N.compare_refl.
Qed.

Lemma py_eq_compare x y c :
  py_eq x y = true → py_compare x y = OK c → c = Eq.
Proof.
  rewrite py_eq_iff.
  revert y c.
  induction x as [ | xb | xz | xs | | u a IHu IHa | xd ] using val_list_ind2;
    intros [ | yb | yz | ys | [ | w b ] | yd ] c; try done;
    try (cbn [py_compare norm]; intros [= E] [= <-];
         rewrite ?E, <- ?E; by rewrite ?Z.compare_refl, ?string_compare_refl).
  - by intros _ [= <-].
  - cbn [norm]. rewrite !fmap_cons. intros [= Eu Ea]. rewrite py_compare_cons.
    rewrite (proj2 (py_eq_iff u w) Eu).
    apply IHa. cbn [norm]. by rewrite Ea.
Qed.

Lemma py_compare_norm_l x x' y :
  norm x = norm x' → py_compare x y = py_compare x' y.
Proof.
  revert x' y.
  induction x as [ | [] | xz | xs | | u a IHu IHa | xd ] using val_list_ind2;
    intros [ | [] | xz' | xs' | [ | u' a' ] | xd' ]
      [ | yb | yz | ys | [ | w b ] | yd ]; try done;
    try (simpl; intros [= <-]; done); try (simpl; intros [= ->]; done).
  cbn [norm]. rewrite !fmap_cons. intros [= Eu Ea]. rewrite !py_compare_cons.
  unfold py_eq. rewrite Eu. case_bool_decide; [ | by apply IHu ].
  apply (IHa (VList a')). cbn [norm]. by rewrite Ea.
Qed.

Lemma py_compare_norm_r x y y' :
  norm y = norm y' → py_compare x y = py_compare x y'.
Proof.
  intros E. rewrite (py_compare_antisym y x), (py_compare_antisym y' x).
  by rewrite (py_compare_norm_l y y' x).
Qed.

Lemma comp_then_Lt_r c : comp_then c Lt = Lt.
Proof. by destruct c. Qed.

Lemma py_compare_ne x y c :
  py_eq x y = false → py_compare x y = OK c → c ≠ Gt → c = Lt.
Proof.
  intros E H Hc. destruct c; try done.
  apply py_compare_Eq in H. congruence.
Qed.

Lemma py_compare_then x y z c1 c2 :
  py_compare x y = OK c1 → py_compare y z = OK c2 → c1 ≠ Gt → c2 ≠ Gt →
  py_compare x z = OK (comp_then c1 c2).
Proof.
  revert y z c1 c2.
  induction x as [ | xb | xz | xs | | u a IHu IHa | xd ] using val_list_ind2;
    intros [ | yb | yz | ys | [ | w b ] | yd ]
      [ | zb | zz | zs | [ | t c ] | zd ] c1 c2; try done;
    try (cbn [py_compare]; intros [= <-] [= <-] H1 H2; f_equal;
         first [ by apply Z_compare_then | by apply string_compare_then ]).
  - by intros _ [= <-].
  - by intros [= <-] _.
  - by intros [= <-].
  - by intros [= <-].
  - by intros _ [= <-].
  - rewrite !py_compare_cons.
    destruct (py_eq u w) eqn:Euw, (py_eq w t) eqn:Ewt; intros H1 H2 Hc1 Hc2.
    + rewrite (py_eq_trans u w t) by done. by apply (IHa (VList b)).
    + assert (py_eq u t = false) as ->.
      { destruct (py_eq u t) eqn:E; [ | done ].
        rewrite <- Ewt. symmetry. apply (py_eq_trans w u t); [ | done ].
        by rewrite py_eq_sym. }
      rewrite (py_compare_norm_l u w) by by apply py_eq_iff.
      pose proof (py_compare_ne _ _ _ Ewt H2 Hc2) as ->.
      by rewrite comp_then_Lt_r.
    + assert (py_eq u t = false) as ->.
      { destruct (py_eq u t) eqn:E; [ | done ].
        rewrite <- Euw. symmetry. apply (py_eq_trans u t w); [ done | ].
        by rewrite py_eq_sym. }
      rewrite (py_compare_norm_r u t w)
        by (symmetry; by apply py_eq_iff).
      by pose proof (py_compare_ne _ _ _ Euw H1 Hc1) as ->.
    + pose proof (py_compare_ne _ _ _ Euw H1 Hc1) as ->.
      pose proof (py_compare_ne _ _ _ Ewt H2 Hc2) as ->.
      pose proof (IHu _ _ _ _ H1 H2 Hc1 Hc2) as H3. simpl in H3.
      destruct (py_eq u t) eqn:E; [ | done ].
      by pose proof (py_eq_compare _ _ _ E H3).
Qed.

(** ** The merge loop *)

Lemma py_index_nat {A} (arr : list A) (i : nat) :
  py_index arr (Z.of_nat i) =
  match arr !! i with Some a => OK a | None => Raise IndexError end.
Proof.
  unfold py_index.
  destruct (Z.ltb_spec (Z.of_nat i) 0); [lia | ].
  destruct (Z.ltb_spec (Z.of_nat i) 0); [lia | ].
  by rewrite Nat2Z.id.
Qed.

Lemma merge_rec_nil_r param left : merge_rec param left [] = OK left.
Proof. by destruct left. Qed.

Lemma merge_rec_cons param l left r right :
  merge_rec param (l :: left) (r :: right) =
  let* x := getitem l param in
  let* y := getitem r param in
  let* le := py_cmp OpLe x y in
  if le : bool then
    let* rest := merge_rec param left (r :: right) in OK (l :: rest)
  else
    let* rest := merge_rec param (l :: left) right in OK (r :: rest).
Proof. reflexivity. Qed.

Lemma merge_while_rec param left right fuel result il ir :
  (il < length left)%nat → (ir < length right)%nat →
  fuel = (length left - il + (length right - ir))%nat →
  merge_while fuel left right param result il ir =
  let* rest := merge_rec param (drop il left) (drop ir right) in
  OK (result ++ rest).
Proof.
  revert result il ir.
  induction fuel as [ | fuel IH ]; intros result il ir Hl Hr Hf; [ lia | ].
  destruct (lookup_lt_is_Some_2 left il Hl) as [l El].
  destruct (lookup_lt_is_Some_2 right ir Hr) as [r Er].
  rewrite (drop_S _ _ _ El), (drop_S _ _ _ Er), merge_rec_cons.
  cbn [merge_while]. rewrite !py_index_nat, El, Er.
  destruct (getitem l param) as [x | e]; [ | done ].
  destruct (getitem r param) as [y | e]; [ | done ].
  destruct (py_cmp OpLe x y) as [[ | ] | e]; [ | | done ].
  - destruct (Nat.eqb_spec ir (length right)); [ exfalso; lia | ].
    destruct (Nat.eqb_spec (S il) (length left)) as [E | E].
    + rewrite (drop_ge left (S il)) by lia. simpl.
      by rewrite (drop_S _ _ _ Er), <- app_assoc.
    + rewrite IH by lia. rewrite (drop_S _ _ ir Er).
      destruct (merge_rec param _ _); [ | done ].
      by rewrite <- app_assoc.
  - destruct (Nat.eqb_spec (S ir) (length right)) as [E | E].
    + rewrite (drop_ge right (S ir)) by lia.
      by rewrite merge_rec_nil_r, (drop_S _ _ _ El), <- app_assoc.
    + destruct (Nat.eqb_spec il (length left)); [ exfalso; lia | ].
      rewrite IH by lia. rewrite (drop_S _ _ il El).
      destruct (merge_rec param _ _); [ | done ].
      by rewrite <- app_assoc.
Qed.

Lemma merge_unfold left right param :
  merge left right param = sort_error (merge_rec param left right).
Proof.
  unfold merge. destruct left as [ | l left], right as [ | r right]; try done.
  cbn [length Nat.eqb].
  rewrite (merge_while_rec param _ _ _ [] 0 0) by (simpl; lia).
  cbn [drop]. by destruct (merge_rec param _ _) as [ rest | [] ].
Qed.

Lemma py_cmp_raise op x y e : py_cmp op x y = Raise e → e = TypeError.
Proof.
  rewrite py_cmp_compare. destruct (py_compare x y) eqn:E; [ done | ].
  intros [= <-]. by apply py_compare_raise in E.
Qed.

Lemma py_le_total x y :
  py_cmp OpLe x y = OK false → py_cmp OpLe y x = OK true.
Proof.
  rewrite !py_cmp_compare, (py_compare_antisym x y).
  by destruct (py_compare x y) as [ [] | ].
Qed.

Lemma py_le_trans x y z :
  py_cmp OpLe x y = OK true → py_cmp OpLe y z = OK true →
  py_cmp OpLe x z = OK true.
Proof.
  rewrite !py_cmp_compare.
  destruct (py_compare x y) as [ c1 | ] eqn:E1; [ | done ].
  destruct (py_compare y z) as [ c2 | ] eqn:E2; [ | done ].
  intros H1 H2.
  rewrite (py_compare_then x y z c1 c2) by (done || by destruct c1, c2).
  by destruct c1, c2.
Qed.

Lemma py_le_eq_r x y y' :
  py_eq y y' = true → py_cmp OpLe x y = py_cmp OpLe x y'.
Proof.
  intros E%py_eq_iff. by rewrite !py_cmp_compare, (py_compare_norm_r x y y').
Qed.

Lemma py_le_of_eq x y b :
  py_eq x y = true → py_cmp OpLe x y = OK b → b = true.
Proof.
  intros E. rewrite py_cmp_compare.
  destruct (py_compare x y) as [ c | ] eqn:Ec; [ | done ].
  rewrite (py_eq_compare _ _ _ E Ec). by intros [= <-].
Qed.

Lemma py_gt_iff_not_le x y :
  py_cmp OpGt x y = OK true ↔ py_cmp OpLe x y = OK false.
Proof.
  rewrite !py_cmp_compare. by destruct (py_compare x y) as [ [] | ].
Qed.

(** ** [merge] on its recursive reading *)

Section merge_facts.
Variable param : string.

Local Ltac merge_cases l r :=
  rewrite merge_rec_cons;
  destruct (getitem l param) as [ ?x | ?e ] eqn:?Ex; [ | try done ];
  [ destruct (getitem r param) as [ ?y | ?e ] eqn:?Ey; [ | try done ];
    [ destruct (py_cmp OpLe x y) as [ [ | ] | ?e ] eqn:?Ec; [ | | try done ]
    | .. ]
  | .. ].

Lemma getitem_OK (d : document) x :
  getitem d param = OK x ↔ d !! param = Some x.
Proof. unfold getitem. destruct (d !! param); split; congruence. Qed.

Lemma getitem_Raise (d : document) e :
  getitem d param = Raise e ↔ d !! param = None ∧ e = KeyError.
Proof.
  unfold getitem. destruct (d !! param); split; try done.
  - by intros [].
  - by intros [= <-].
  - by intros [_ ->].
Qed.

Local Ltac solve_elem :=
  rewrite ?elem_of_app, ?elem_of_cons in *; tauto.

Lemma merge_rec_nil_l right : merge_rec param [] right = OK right.
Proof. by destruct right. Qed.

Lemma merge_rec_perm left right out :
  merge_rec param left right = OK out → out ≡ₚ left ++ right.
Proof.
  revert right out. induction left as [ | l left IHl ]; intros right out.
  { rewrite merge_rec_nil_l. by intros [= <-]. }
  induction right as [ | r right IHr ] in out |- *.
  { rewrite merge_rec_nil_r, app_nil_r. by intros [= <-]. }
  merge_cases l r.
  - destruct (merge_rec param left (r :: right)) as [ rest | ] eqn:E;
      [ | done ].
    intros [= <-]. simpl. f_equiv. by apply IHl.
  - destruct (merge_rec param (l :: left) right) as [ rest | ] eqn:E;
      [ | done ].
    intros [= <-]. rewrite (IHr rest) by done.
    by rewrite <- Permutation_middle.
Qed.

Lemma key_le_trans a b c :
  key_le param a b → key_le param b c → key_le param a c.
Proof.
  intros (x & y & Ha & Hb & Hxy) (y' & z & Hb' & Hc & Hyz).
  assert (y' = y) as -> by congruence.
  exists x, z. eauto using py_le_trans.
Qed.

Lemma merge_rec_sorted left right out :
  StronglySorted (key_le param) left →
  StronglySorted (key_le param) right →
  merge_rec param left right = OK out →
  StronglySorted (key_le param) out.
Proof.
  revert right out. induction left as [ | l left IHl ]; intros right out Hl Hr.
  { rewrite merge_rec_nil_l. by intros [= <-]. }
  induction right as [ | r right IHr ] in out, Hr |- *.
  { rewrite merge_rec_nil_r. by intros [= <-]. }
  apply StronglySorted_inv in Hl as [Hl Hll].
  pose proof Hr as Hr0. apply StronglySorted_inv in Hr as [Hr Hrr].
  merge_cases l r; apply getitem_OK in Ex, Ey.
  - destruct (merge_rec param left (r :: right)) as [ rest | ] eqn:E;
      [ | done ].
    intros [= <-].
    assert (key_le param l r) as Hlr by (by exists x, y).
    constructor; [ by apply (IHl (r :: right)) | ].
    rewrite (merge_rec_perm _ _ _ E). apply Forall_app. split; [ done | ].
    constructor; [ done | ].
    eapply Forall_impl; [ exact Hrr | ]. eauto using key_le_trans.
  - destruct (merge_rec param (l :: left) right) as [ rest | ] eqn:E;
      [ | done ].
    intros [= <-].
    assert (key_le param r l) as Hrl
      by (exists y, x; eauto using py_le_total).
    constructor; [ by apply IHr | ].
    rewrite (merge_rec_perm _ _ _ E). apply Forall_app. split; [ | done ].
    constructor; [ done | ].
    eapply Forall_impl; [ exact Hll | ]. eauto using key_le_trans.
Qed.

Lemma same_key_above l r x y v left :
  l !! param = Some x → r !! param = Some y →
  py_cmp OpLe x y = OK false →
  Forall (key_le param l) left →
  same_key param v r = true →
  List.filter (same_key param v) (l :: left) = [].
Proof.
  intros Hx Hy Hc Hl Hv.
  unfold same_key in Hv. rewrite Hy in Hv.
  assert (∀ d k, d !! param = Some k → py_cmp OpLe x k = OK true →
                 same_key param v d = false) as Hno.
  { intros d k Hk Hle. unfold same_key. rewrite Hk.
    destruct (py_eq k v) eqn:E; [ | done ].
    rewrite (py_le_eq_r x k y) in Hle; [ congruence | ].
    apply (py_eq_trans k v y); [ done | by rewrite py_eq_sym ]. }
  assert (same_key param v l = false) as Hvl.
  { unfold same_key. rewrite Hx. destruct (py_eq x v) eqn:E; [ | done ].
    assert (py_eq x y = true) as Exy
      by (apply (py_eq_trans x v y); [ done | by rewrite py_eq_sym ]).
    by pose proof (py_le_of_eq _ _ _ Exy Hc). }
  simpl. rewrite Hvl.
  induction Hl as [ | d left (x' & k & Hx' & Hk & Hle) _ IH ]; [ done | ].
  simpl. assert (x' = x) as -> by congruence.
  by rewrite (Hno d k).
Qed.

Lemma merge_rec_stable left right out v :
  StronglySorted (key_le param) left →
  merge_rec param left right = OK out →
  List.filter (same_key param v) out =
  List.filter (same_key param v) left ++ List.filter (same_key param v) right.
Proof.
  revert right out. induction left as [ | l left IHl ]; intros right out Hl.
  { rewrite merge_rec_nil_l. by intros [= <-]. }
  induction right as [ | r right IHr ] in out |- *.
  { rewrite merge_rec_nil_r, app_nil_r. by intros [= <-]. }
  pose proof Hl as Hl0. apply StronglySorted_inv in Hl as [Hl Hll].
  merge_cases l r; apply getitem_OK in Ex, Ey.
  - destruct (merge_rec param left (r :: right)) as [ rest | ] eqn:E;
      [ | done ].
    intros [= <-]. cbn [List.filter]. rewrite (IHl _ _ Hl E).
    by destruct (same_key param v l).
  - destruct (merge_rec param (l :: left) right) as [ rest | ] eqn:E;
      [ | done ].
    intros [= <-]. cbn [List.filter]. rewrite (IHr _ eq_refl).
    destruct (same_key param v r) eqn:Hv; [ | done ].
    change (if same_key param v l then _ else _)
      with (List.filter (same_key param v) (l :: left)).
    by rewrite (same_key_above l r x y v left).
Qed.

(** What can go wrong in the loop, and why. *)
Lemma merge_rec_raise left right e :
  merge_rec param left right = Raise e →
  (e = KeyError ∧ ∃ d, d ∈ left ++ right ∧ d !! param = None) ∨
  (e = TypeError ∧ ∃ a b x y, a ∈ left ++ right ∧ b ∈ left ++ right ∧
     a !! param = Some x ∧ b !! param = Some y ∧
     py_cmp OpLe x y = Raise TypeError).
Proof.
  revert right. induction left as [ | l left IHl ]; intros right.
  { by rewrite merge_rec_nil_l. }
  induction right as [ | r right IHr ].
  { by rewrite merge_rec_nil_r. }
  rewrite merge_rec_cons.
  destruct (getitem l param) as [ x | e' ] eqn:Ex.
  2:{ intros [= <-]. apply getitem_Raise in Ex as [Ex ->].
      left. split; [ done | ]. exists l. split; [ solve_elem | done ]. }
  destruct (getitem r param) as [ y | e' ] eqn:Ey.
  2:{ intros [= <-]. apply getitem_Raise in Ey as [Ey ->].
      left. split; [ done | ]. exists r. split; [ solve_elem | done ]. }
  apply getitem_OK in Ex, Ey.
  destruct (py_cmp OpLe x y) as [ [ | ] | e' ] eqn:Ec.
  - destruct (merge_rec param left (r :: right)) as [ rest | e' ] eqn:E;
      [ done | ].
    intros [= <-].
    destruct (IHl _ E)
      as [ (-> & d & Hd & Hk) | (-> & a & b & x' & y' & Ha & Hb & Hxy) ].
    + left. split; [ done | ]. exists d. split; [ solve_elem | done ].
    + right. split; [ done | ]. exists a, b, x', y'.
      split; [ solve_elem | ]. split; [ solve_elem | done ].
  - destruct (merge_rec param (l :: left) right) as [ rest | e' ] eqn:E;
      [ done | ].
    intros [= <-].
    destruct (IHr eq_refl)
      as [ (-> & d & Hd & Hk) | (-> & a & b & x' & y' & Ha & Hb & Hxy) ].
    + left. split; [ done | ]. exists d. split; [ solve_elem | done ].
    + right. split; [ done | ]. exists a, b, x', y'.
      split; [ solve_elem | ]. split; [ solve_elem | done ].
  - intros [= <-]. pose proof (py_cmp_raise _ _ _ _ Ec) as ->.
    right. split; [ done | ]. exists l, r, x, y.
    split; [ solve_elem | ]. split; [ solve_elem | done ].
Qed.

Lemma merge_rec_heads l left r right out :
  merge_rec param (l :: left) (r :: right) = OK out →
  is_Some (l !! param) ∧ is_Some (r !! param).
Proof.
  rewrite merge_rec_cons.
  destruct (getitem l param) as [ x | ] eqn:Ex; [ | done ].
  destruct (getitem r param) as [ y | ] eqn:Ey; [ | done ].
  apply getitem_OK in Ex, Ey. eauto.
Qed.
End merge_facts.

(** ** [merge_sort] *)

Lemma merge_sort_eq array param :
  merge_sort array param =
  if decide (length array < 2)%nat then OK array
  else
    let* left := merge_sort (take (length array / 2) array) param in
    let* right := merge_sort (drop (length array / 2) array) param in
    merge left right param.
Proof.
  rewrite merge_sort_equation_1. by destruct (decide (length array < 2)%nat).
Qed.

Lemma merge_sort_short array param :
  (length array < 2)%nat → merge_sort array param = OK array.
Proof. intros H. rewrite merge_sort_eq. by rewrite decide_True. Qed.

(** Both halves of an array of two or more are non-empty and shorter. *)
Lemma halves_shorter {A} (array : list A) :
  (2 ≤ length array)%nat →
  (0 < length (take (length array / 2) array) < length array)%nat ∧
  (0 < length (drop (length array / 2) array) < length array)%nat.
Proof.
  intros H. rewrite length_take, length_drop.
  pose proof (Nat.div_lt (length array) 2).
  pose proof (Nat.div_str_pos (length array) 2). lia.
Qed.

Lemma sort_error_OK {A} (r : exc A) a : sort_error r = OK a → r = OK a.
Proof. by destruct r as [ | [] ]. Qed.

Section merge_sort_facts.
Variable param : string.

(** Induction on the length of the array, as the recursion goes. *)
Lemma merge_sort_ind (P : list document → exc (list document) → Prop) :
  (∀ array, (length array < 2)%nat → P array (OK array)) →
  (∀ array, (2 ≤ length array)%nat →
     let left := take (length array / 2) array in
     let right := drop (length array / 2) array in
     P left (merge_sort left param) →
     P right (merge_sort right param) →
     P array (let* left := merge_sort left param in
              let* right := merge_sort right param in
              sort_error (merge_rec param left right))) →
  ∀ array, P array (merge_sort array param).
Proof.
  intros Hshort Hlong array.
  remember (length array) as n eqn:En. revert array En.
  induction n as [n IH] using lt_wf_ind. intros array ->.
  rewrite merge_sort_eq.
  destruct (decide (length array < 2)%nat) as [ H | H ]; [ by apply Hshort | ].
  destruct (halves_shorter array) as [H1 H2]; [ lia | ].
  set (left := take (length array / 2) array) in *.
  set (right := drop (length array / 2) array) in *.
  assert ((let* left := merge_sort left param in
           let* right := merge_sort right param in
           merge left right param) =
          (let* left := merge_sort left param in
           let* right := merge_sort right param in
           sort_error (merge_rec param left right))) as ->.
  { destruct (merge_sort left param); [ | done ].
    destruct (merge_sort right param); [ | done ]. apply merge_unfold. }
  apply Hlong; [ lia | | ].
  - apply (IH (length left)); [ lia | done ].
  - apply (IH (length right)); [ lia | done ].
Qed.

Lemma merge_sort_perm array out :
  merge_sort array param = OK out → out ≡ₚ array.
Proof.
  revert out. pattern array, (merge_sort array param).
  apply merge_sort_ind; clear array.
  - intros array _ out [= <-]. done.
  - intros array _ left right IHl IHr out.
    destruct (merge_sort left param) as [ l | ]; [ | done ].
    destruct (merge_sort right param) as [ r | ]; [ | done ].
    intros E%sort_error_OK%merge_rec_perm.
    rewrite E, (IHl l), (IHr r) by done. subst left right.
    by rewrite take_drop.
Qed.

Lemma merge_sort_sorted array out :
  merge_sort array param = OK out → StronglySorted (key_le param) out.
Proof.
  revert out. pattern array, (merge_sort array param).
  apply merge_sort_ind; clear array.
  - intros [ | d [ | d' array ] ] H out [= <-]; [ | | simpl in H; lia ];
      repeat constructor.
  - intros array _ left right IHl IHr out.
    destruct (merge_sort left param) as [ l | ]; [ | done ].
    destruct (merge_sort right param) as [ r | ]; [ | done ].
    intros E%sort_error_OK.
    eapply merge_rec_sorted; [ by apply IHl | by apply IHr | done ].
Qed.

Lemma filter_take_drop {A} (f : A → bool) n (l : list A) :
  List.filter f (take n l) ++ List.filter f (drop n l) = List.filter f l.
Proof. by rewrite <- List.filter_app, take_drop. Qed.

Lemma merge_sort_stable array out v :
  merge_sort array param = OK out →
  List.filter (same_key param v) out = List.filter (same_key param v) array.
Proof.
  revert out. pattern array, (merge_sort array param).
  apply merge_sort_ind; clear array.
  - by intros array _ out [= <-].
  - intros array _ left right IHl IHr out.
    destruct (merge_sort left param) as [ l | ] eqn:El; [ | done ].
    destruct (merge_sort right param) as [ r | ]; [ | done ].
    intros E%sort_error_OK.
    rewrite (merge_rec_stable param l r out v); [ | | done ].
    + rewrite (IHl l), (IHr r) by done. apply filter_take_drop.
    + by apply (merge_sort_sorted left).
Qed.

(** An exception of the sort is the [ValueError] about a document without
    the sort parameter, or the [TypeError] of a comparison. *)
Lemma merge_sort_raise array e :
  merge_sort array param = Raise e →
  (e = ValueError MissingSortKey ∧ ∃ d, d ∈ array ∧ d !! param = None) ∨
  (e = TypeError ∧ ∃ a b x y, a ∈ array ∧ b ∈ array ∧
     a !! param = Some x ∧ b !! param = Some y ∧
     py_cmp OpLe x y = Raise TypeError).
Proof.
  pattern array, (merge_sort array param).
  apply merge_sort_ind; clear array; [ done | ].
  intros array _ left right IHl IHr.
  assert (∀ d, d ∈ left → d ∈ array) as Hinl.
  { intros d ?. rewrite <- (take_drop (length array / 2) array), elem_of_app.
    by left. }
  assert (∀ d, d ∈ right → d ∈ array) as Hinr.
  { intros d ?. rewrite <- (take_drop (length array / 2) array), elem_of_app.
    by right. }
  destruct (merge_sort left param) as [ l | e' ] eqn:El.
  2:{ intros [= <-].
      destruct (IHl eq_refl)
        as [ (-> & d & ? & ?) | (-> & a & b & x & y & ? & ? & ? & ?) ];
        [ left | right ]; split; eauto 10. }
  destruct (merge_sort right param) as [ r | e' ] eqn:Er.
  2:{ intros [= <-].
      destruct (IHr eq_refl)
        as [ (-> & d & ? & ?) | (-> & a & b & x & y & ? & ? & ? & ?) ];
        [ left | right ]; split; eauto 10. }
  apply merge_sort_perm in El, Er.
  assert (∀ d, d ∈ l ++ r → d ∈ array) as Hin'.
  { intros d. rewrite elem_of_app, El, Er. intros []; eauto. }
  destruct (merge_rec param l r) as [ | e' ] eqn:E; [ done | ].
  apply merge_rec_raise in E
    as [ (-> & d & ? & ?) | (-> & a & b & x & y & ? & ? & ? & ?) ];
    intros [= <-]; [ left | right ]; split; eauto 10.
Qed.

(** A sort that returns has looked at the key of every document, as soon
    as there are two of them. *)
Lemma merge_sort_OK_keys array out :
  (2 ≤ length array)%nat →
  merge_sort array param = OK out →
  ∀ d, d ∈ array → is_Some (d !! param).
Proof.
  revert out. pattern array, (merge_sort array param).
  apply merge_sort_ind; clear array; [ intros; lia | ].
  intros array Hlen left right IHl IHr out _.
  destruct (halves_shorter array Hlen) as [Hl Hr].
  fold left in Hl. fold right in Hr.
  destruct (merge_sort left param) as [ l | ] eqn:El; [ | done ].
  destruct (merge_sort right param) as [ r | ] eqn:Er; [ | done ].
  intros E%sort_error_OK d.
  rewrite <- (take_drop (length array / 2) array), elem_of_app.
  fold left right.
  assert (length l = length left) as Hll
    by (by rewrite (merge_sort_perm _ _ El)).
  assert (length r = length right) as Hrr
    by (by rewrite (merge_sort_perm _ _ Er)).
  destruct l as [ | l0 l ]; [ simpl in Hll; lia | ].
  destruct r as [ | r0 r ]; [ simpl in Hrr; lia | ].
  apply merge_rec_heads in E as [E1 E2].
  intros [ Hd | Hd ].
  - destruct (decide (length left < 2)%nat) as [ Hs | Hs ].
    + rewrite merge_sort_short in El by done. injection El as El.
      rewrite El in Hd, Hs. destruct l; [ | simpl in Hs; lia ].
      by apply list_elem_of_singleton in Hd as ->.
    + eapply IHl; eauto. lia.
  - destruct (decide (length right < 2)%nat) as [ Hs | Hs ].
    + rewrite merge_sort_short in Er by done. injection Er as Er.
      rewrite Er in Hd, Hs. destruct r; [ | simpl in Hs; lia ].
      by apply list_elem_of_singleton in Hd as ->.
    + eapply IHr; eauto. lia.
Qed.
End merge_sort_facts.

Lemma has_keyb_spec param sequence :
  has_keyb param sequence = true →
  ∀ d, d ∈ sequence → is_Some (d !! param).
Proof.
  unfold has_keyb. rewrite forallb_forall.
  intros Hall d Hd%list_elem_of_In.
  by apply (bool_decide_eq_true_1 _), Hall.
Qed.

Lemma comparableb_spec param sequence :
  comparableb param sequence = true →
  ∀ a b x y, a ∈ sequence → b ∈ sequence →
    a !! param = Some x → b !! param = Some y →
    py_cmp OpLe x y ≠ Raise TypeError.
Proof.
  unfold comparableb. rewrite forallb_forall.
  intros Hall a b x y Ha%list_elem_of_In Hb%list_elem_of_In Hx Hy.
  specialize (Hall a Ha). rewrite forallb_forall in Hall.
  specialize (Hall b Hb). rewrite Hx, Hy in Hall.
  by destruct (py_cmp OpLe x y).
Qed.

(** ** The sorter: what [merge_sort] guarantees *)

(** C5, as stated, at a sequence whose two documents both have the key:
    [1 <= "a"] raises [TypeError], which [merge] does not catch. *)
Lemma merge_sort_mixed_keys :
  let sequence : list document :=
    [ {[ "k" := VInt 1 ]}; {[ "k" := VStr "a" ]} ] in
  (∀ d, d ∈ sequence → is_Some (d !! "k")) ∧
  merge_sort sequence "k" = Raise TypeError.
Proof.
  split; [ | by vm_compute ].
  intros d [ -> | [ -> | []%elem_of_nil ]%elem_of_cons ]%elem_of_cons;
    by apply (bool_decide_unpack _).
Qed.

(** C5 (amended): when every document has the field [key] and the key
    values can be compared with one another, [merge_sort] returns a
    permutation of the sequence, in ascending order of [document[key]], that
    keeps the original relative order of the documents whose key values are
    equal. *)
Theorem merge_sort_stable_sort (sequence : list document) (key : string) :
  (∀ d, d ∈ sequence → is_Some (d !! key)) →
  (∀ a b x y, a ∈ sequence → b ∈ sequence →
     a !! key = Some x → b !! key = Some y →
     py_cmp OpLe x y ≠ Raise TypeError) →
  ∃ out, merge_sort sequence key = OK out ∧
    out ≡ₚ sequence ∧
    StronglySorted (key_le key) out ∧
    ∀ v, List.filter (same_key key v) out =
         List.filter (same_key key v) sequence.
Proof.
  intros Hkeys Hcmp.
  destruct (merge_sort sequence key) as [ out | e ] eqn:E.
  - exists out. split; [ done | ].
    split; [ by apply (merge_sort_perm key) | ].
    split; [ by apply (merge_sort_sorted key sequence) | ].
    intros v. by apply merge_sort_stable.
  - apply merge_sort_raise in E
      as [ (_ & d & Hd & Hk) | (_ & a & b & x & y & Ha & Hb & Hx & Hy & Hc) ].
    + destruct (Hkeys d Hd) as [x Hx]. congruence.
    + by destruct (Hcmp a b x y).
Qed.

(** The sort on three documents, two of them with the same key. *)
Lemma merge_sort_stable_sort_witness :
  let sequence : list document :=
    [ {[ "k" := VInt 2; "id" := VStr "c" ]};
      {[ "k" := VInt 1; "id" := VStr "a" ]};
      {[ "k" := VInt 1; "id" := VStr "b" ]} ] in
  ∃ out, merge_sort sequence "k" = OK out ∧
    out ≡ₚ sequence ∧
    StronglySorted (key_le "k") out ∧
    ∀ v, List.filter (same_key "k" v) out =
         List.filter (same_key "k" v) sequence.
Proof.
  apply merge_sort_stable_sort.
  - apply has_keyb_spec. by vm_compute.
  - apply comparableb_spec. by vm_compute.
Defined.

(** C4, as stated, at a sequence of one document: [merge_sort] returns it
    without looking at the key.  And at a sequence of four where [1 <= "a"]
    is compared before the document without the key is reached: the
    exception is the [TypeError]. *)
Lemma merge_sort_single_no_key :
  (let sequence : list document := [ {[ "a" := VInt 1 ]} ] in
   (∃ d, d ∈ sequence ∧ d !! "k" = None) ∧
   merge_sort sequence "k" = OK sequence) ∧
  (let sequence : list document :=
     [ {[ "k" := VInt 1 ]}; {[ "k" := VStr "a" ]};
       {[ "x" := VInt 0 ]}; {[ "k" := VInt 2 ]} ] in
   (∃ d, d ∈ sequence ∧ d !! "k" = None) ∧
   merge_sort sequence "k" = Raise TypeError).
Proof.
  split; (split; [ | by vm_compute ]).
  - eexists. split; [ apply list_elem_of_here | by vm_compute ].
  - exists {[ "x" := VInt 0 ]}. split; [ | by vm_compute ].
    do 2 apply list_elem_of_further. apply list_elem_of_here.
Qed.

(** C4 (amended): when some document lacks the field [key], [merge_sort]
    fails as soon as the sequence has two documents: with the [ValueError]
    about the sort parameter, or with the [TypeError] of a comparison of two
    key values reached first; so with the [ValueError] whenever the key
    values present can be compared with one another.  A sequence of fewer
    than two documents is returned as it is. *)
Theorem merge_sort_missing_key (sequence : list document) (key : string) :
  (∃ d, d ∈ sequence ∧ d !! key = None) →
  ((length sequence < 2)%nat → merge_sort sequence key = OK sequence) ∧
  ((2 ≤ length sequence)%nat →
     (merge_sort sequence key = Raise (ValueError MissingSortKey) ∨
      merge_sort sequence key = Raise TypeError) ∧
     ((∀ a b x y, a ∈ sequence → b ∈ sequence →
         a !! key = Some x → b !! key = Some y →
         py_cmp OpLe x y ≠ Raise TypeError) →
      merge_sort sequence key = Raise (ValueError MissingSortKey))).
Proof.
  intros (d & Hd & Hk). split; [ apply merge_sort_short | ].
  intros Hlen. destruct (merge_sort sequence key) as [ out | e ] eqn:E.
  { destruct (merge_sort_OK_keys key sequence out Hlen E d Hd). congruence. }
  apply merge_sort_raise in E
    as [ (-> & _) | (-> & a & b & x & y & Ha & Hb & Hx & Hy & Hc) ].
  - split; [ by left | done ].
  - split; [ by right | ]. intros Hcmp. by destruct (Hcmp a b x y).
Qed.

(** The sort on two documents, the first without the key. *)
Lemma merge_sort_missing_key_witness :
  let sequence : list document :=
    [ {[ "a" := VInt 1 ]}; {[ "k" := VInt 1 ]} ] in
  merge_sort sequence "k" = Raise (ValueError MissingSortKey).
Proof.
  intros sequence.
  assert (∃ d, d ∈ sequence ∧ d !! "k" = None) as H.
  { eexists. split; [ apply list_elem_of_here | by vm_compute ]. }
  destruct (merge_sort_missing_key sequence "k" H) as [_ Hlong].
  destruct Hlong as [_ Hcmp]; [ simpl; lia | ].
  apply Hcmp, comparableb_spec. by vm_compute.
Defined.

(** ** The searcher *)

Lemma binary_search_while_eq arr key value l u :
  binary_search_while arr key value l u =
  if decide (l < u) then
    let mid := (l + u) / 2 in
    let* d := py_index arr mid in
    let* x := getitem d key in
    if py_eq x value then OK (Doc d)
    else
      let* lt := py_cmp OpLt x value in
      if lt : bool then binary_search_while arr key value (mid + 1) u
      else binary_search_while arr key value l mid
  else OK PyFalse.
Proof.
  rewrite binary_search_while_equation_1. by destruct (decide (l < u)).
Qed.

Lemma py_index_elem {A} (arr : list A) i a : py_index arr i = OK a → a ∈ arr.
Proof.
  unfold py_index. destruct (_ <? 0); [ done | ].
  destruct (arr !! _) eqn:E; [ | done ].
  intros [= <-]. by eapply list_elem_of_lookup_2.
Qed.

(** A document that [binary_search] returns is in the array and has the
    value looked for under [key]. *)
Lemma binary_search_while_Doc arr key value l u d :
  binary_search_while arr key value l u = OK (Doc d) →
  d ∈ arr ∧ ∃ x, d !! key = Some x ∧ py_eq x value = true.
Proof.
  remember (Z.to_nat (u - l)) as n eqn:En. revert l u En.
  induction n as [n IH] using lt_wf_ind. intros l u ->.
  rewrite binary_search_while_eq.
  destruct (decide (l < u)) as [ Hlu | ]; [ | done ].
  assert (l ≤ (l + u) / 2 < u) as Hmid
    by (split; [ apply Z.div_le_lower_bound | apply Z.div_lt_upper_bound ];
        lia).
  cbv zeta.
  destruct (py_index arr ((l + u) / 2)) as [ d' | ] eqn:Ed; [ | done ].
  destruct (getitem d' key) as [ x | ] eqn:Ex; [ | done ].
  destruct (py_eq x value) eqn:Eq.
  - intros [= <-]. apply py_index_elem in Ed. apply getitem_OK in Ex. eauto.
  - destruct (py_cmp OpLt x value) as [ [ | ] | ]; [ | | done ].
    + apply (IH (Z.to_nat (u - ((l + u) / 2 + 1)))); [ lia | done ].
    + apply (IH (Z.to_nat ((l + u) / 2 - l))); [ lia | done ].
Qed.

(** With a single document the loop body never runs. *)
Lemma binary_search_single d key value :
  binary_search [d] key value = OK PyFalse.
Proof. unfold binary_search. by rewrite binary_search_while_eq. Qed.

(** ** The query planner *)

Section query_facts.
Context `{!Runtime, !Codec}.

Lemma linear_search_Doc docs filters d :
  linear_search docs filters = OK (Doc d) →
  d ∈ docs ∧ match_filters d filters = OK true.
Proof.
  induction docs as [ | i docs IH ]; [ done | ]. simpl.
  destruct (match_filters i filters) as [ [ | ] | ] eqn:E; [ | | done ].
  - intros [= <-]. split; [ apply list_elem_of_here | done ].
  - intros [Hd Hm]%IH. split; [ by apply list_elem_of_further | done ].
Qed.

(** A document that [get_one] returns (no [sortby]) is one of those it
    looked at, and it passes the filters. *)
Lemma get_one_Doc filters self d :
  group.get_one filters None self = OK (Doc d) →
  ∃ docs, group.load_docs self = OK docs ∧ d ∈ docs ∧
          match_filters d filters = OK true.
Proof.
  unfold group.get_one.
  destruct (group.load_docs self) as [ docs | ] eqn:El; [ | done ].
  intros Hget. exists docs. split; [ done | ]. revert Hget.
  assert (linear_search docs filters = OK (Doc d) →
          d ∈ docs ∧ match_filters d filters = OK true) as Hscan
    by apply linear_search_Doc.
  destruct filters as [ | [key [ value | ops ]] [ | ] ]; try done.
  cbn [truthy].
  destruct (merge_sort docs key) as [ sorted | ] eqn:Es; [ | done ].
  intros (Hd & x & Hx & Hv)%binary_search_while_Doc.
  split; [ by rewrite <- (merge_sort_perm _ _ _ Es) | ].
  simpl. unfold getitem. by rewrite Hx, py_eq_sym, Hv.
Qed.

(** The fast path on a group of one document: the sort returns the array
    as it is and the search gives up at once, whatever the document. *)
Lemma get_one_single_document self d key p :
  group.load_docs self = OK [d] →
  group.get_one [(key, Lit p)] None self = OK PyFalse.
Proof.
  intros Hload. unfold group.get_one. rewrite Hload. cbn [truthy].
  rewrite merge_sort_short by (simpl; lia). apply binary_search_single.
Qed.

(** The fast path on a group of two or more documents, one of them without
    the filter field: the sort raises. *)
Lemma get_one_missing_field self docs key p :
  group.load_docs self = OK docs →
  (2 ≤ length docs)%nat →
  (∃ d, d ∈ docs ∧ d !! key = None) →
  ∃ e, group.get_one [(key, Lit p)] None self = Raise e.
Proof.
  intros Hload Hlen (d & Hd & Hk). unfold group.get_one. rewrite Hload.
  cbn [truthy].
  destruct (merge_sort docs key) as [ sorted | e ] eqn:E; [ | by exists e ].
  destruct (merge_sort_OK_keys key docs sorted Hlen E d Hd). congruence.
Qed.

(** The linear scan on a document without the filter field: not a match,
    and no exception. *)
Lemma match_filters_missing_field d j spec rest :
  d !! j = None → match_filters d ((j, spec) :: rest) = OK false.
Proof. intros Hj. simpl. unfold getitem. by rewrite Hj. Qed.
End query_facts.

(** ** Removing documents from a list *)

Lemma list_remove_scalar r docs :
  r = PyFalse ∨ r = PyNone →
  list_remove (found_val r) docs = Raise (ValueError NotInList).
Proof.
  intros Hr. induction docs as [ | item docs IH ]; [ done | ].
  simpl. by rewrite py_eq_dict_scalar, IH.
Qed.

Lemma list_remove_OK x docs out :
  list_remove x docs = OK out →
  ∃ pre d post, docs = pre ++ d :: post ∧ out = pre ++ post ∧
    py_eq (VDict d) x = true ∧
    Forall (λ i, py_eq (VDict i) x = false) pre.
Proof.
  revert out. induction docs as [ | item docs IH ]; intros out; [ done | ].
  simpl. destruct (py_eq (VDict item) x) eqn:E.
  - intros [= <-]. by exists [], item, docs.
  - destruct (list_remove x docs) as [ out' | ]; [ | done ].
    intros [= <-].
    destruct (IH out' eq_refl) as (pre & d & post & -> & -> & Hd & Hpre).
    exists (item :: pre), d, post. by repeat constructor.
Qed.

Lemma list_remove_each_skip a ms docs :
  Forall (λ j, py_eq (VDict a) (VDict j) = false) ms →
  list_remove_each ms (a :: docs) =
  let* rest := list_remove_each ms docs in OK (a :: rest).
Proof.
  intros Hms. revert docs.
  induction Hms as [ | j ms Hj _ IH ]; intros docs; [ done | ].
  simpl. rewrite Hj.
  destruct (list_remove (VDict j) docs) as [ docs' | ]; [ apply IH | done ].
Qed.

(** Removing, one after the other, the documents selected by [m] leaves the
    documents [m] rejects, provided [m] does not tell apart documents that
    are [==]: [remove] takes the first document equal to its argument. *)
Lemma list_remove_each_filter (m : document → bool) docs :
  (∀ d d', d ∈ docs → d' ∈ docs →
     py_eq (VDict d) (VDict d') = true → m d = m d') →
  list_remove_each (List.filter m docs) docs =
  OK (List.filter (λ d, negb (m d)) docs).
Proof.
  induction docs as [ | a docs IH ]; intros Hm; [ done | ].
  assert (list_remove_each (List.filter m docs) docs =
          OK (List.filter (λ d, negb (m d)) docs)) as IH'.
  { apply IH. intros d d' Hd Hd'. apply Hm; by apply list_elem_of_further. }
  simpl. destruct (m a) eqn:Ea; simpl.
  - by rewrite py_eq_refl.
  - rewrite list_remove_each_skip; [ by rewrite IH' | ].
    apply Forall_forall. intros j Hj%list_elem_of_In%List.filter_In.
    destruct Hj as [Hj Hmj].
    destruct (py_eq (VDict a) (VDict j)) eqn:E; [ | done ].
    rewrite (Hm a j) in Ea; [ congruence | apply list_elem_of_here | | done ].
    by apply list_elem_of_further, list_elem_of_In.
Qed.

(** ** The matcher on whole documents *)

Section filter_facts.
Context `{!Runtime}.

Lemma linear_collect_OK docs filters out :
  linear_collect docs filters = OK out →
  out = List.filter (passes filters) docs.
Proof.
  revert out. induction docs as [ | i docs IH ]; intros out.
  { by intros [= <-]. }
  simpl. unfold passes at 1.
  destruct (match_filters i filters) as [ b | ]; [ | done ].
  destruct (linear_collect docs filters) as [ output | ]; [ | done ].
  intros [= <-]. rewrite <- (IH output) by done. by destruct b.
Qed.

Lemma linear_collect_defined docs filters out :
  linear_collect docs filters = OK out →
  Forall (λ d, ∃ b, match_filters d filters = OK b) docs.
Proof.
  revert out. induction docs as [ | i docs IH ]; intros out; [ done | ].
  simpl. destruct (match_filters i filters) as [ b | ] eqn:E; [ | done ].
  destruct (linear_collect docs filters) as [ output | ]; [ | done ].
  intros _. constructor; [ by exists b | by eapply IH ].
Qed.

Lemma linear_collect_total docs filters :
  Forall (λ d, ∃ b, match_filters d filters = OK b) docs →
  linear_collect docs filters = OK (List.filter (passes filters) docs).
Proof.
  induction 1 as [ | i docs [b Hb] _ IH ]; [ done | ].
  simpl. unfold passes at 1. rewrite Hb, IH. by destruct b.
Qed.

(** The scan of two lists one after the other. *)
Lemma linear_collect_app docs docs' filters :
  linear_collect (docs ++ docs') filters =
  let* out := linear_collect docs filters in
  let* out' := linear_collect docs' filters in
  OK (out ++ out').
Proof.
  induction docs as [ | i docs IH ]; simpl.
  - by destruct (linear_collect docs' filters).
  - destruct (match_filters i filters) as [ matches | ]; [ | done ].
    rewrite IH. destruct (linear_collect docs filters); [ | done ]. simpl.
    destruct (linear_collect docs' filters); [ | done ]. simpl.
    by destruct matches.
Qed.

(** One document on which the filters raise makes the whole scan raise. *)
Lemma linear_collect_raises docs filters d e :
  d ∈ docs → match_filters d filters = Raise e →
  ∃ e', linear_collect docs filters = Raise e'.
Proof.
  intros Hd He.
  destruct (linear_collect docs filters) as [ out | e' ] eqn:E;
    [ | by exists e' ].
  apply linear_collect_defined in E. rewrite Forall_forall in E.
  destruct (E d Hd) as [b Hb]. congruence.
Qed.

(** Plain filters never raise, and give the same answer on documents
    that are [==]. *)
Lemma match_filters_plain filters d :
  plain_filters filters → ∃ b, match_filters d filters = OK b.
Proof.
  induction 1 as [ | [j spec] filters [p Hp] _ [b IH] ]; [ by exists true | ].
  simpl in Hp. subst spec. simpl. unfold getitem.
  destruct (d !! j) as [ x | ]; simpl; [ | by exists false ].
  destruct (py_eq (plain_val p) x); [ by exists b | by exists false ].
Qed.

Lemma match_filters_plain_eq filters d d' :
  plain_filters filters →
  py_eq (VDict d) (VDict d') = true →
  match_filters d filters = match_filters d' filters.
Proof.
  intros Hp Heq.
  induction Hp as [ | [j spec] filters [p Hp] _ IH ]; [ done | ].
  simpl in Hp. subst spec. simpl. unfold getitem.
  pose proof (py_eq_dict_lookup d d' j Heq) as Hj.
  destruct (d !! j) as [ x | ], (d' !! j) as [ x' | ]; try done.
  simpl in *. injection Hj as Hj. unfold py_eq. rewrite Hj.
  by rewrite IH.
Qed.

(** A document whose field [j] holds a value other than the literal a
    plain filter asks for does not pass. *)
Lemma match_filters_plain_miss filters d j p w :
  plain_filters filters →
  (j, Lit p) ∈ filters →
  d !! j = Some w → py_eq (plain_val p) w = false →
  passes filters d = false.
Proof.
  intros Hp Hin Hw Hne. unfold passes.
  induction Hp as [ | [j' spec] filters [p' Hp'] Hp IH ].
  { by apply elem_of_nil in Hin. }
  simpl in Hp'. subst spec. simpl. unfold getitem.
  apply elem_of_cons in Hin as [ [= <- <-] | Hin ].
  - by rewrite Hw, Hne.
  - destruct (d !! j') as [ x | ]; simpl; [ | done ].
    destruct (py_eq (plain_val p') x); [ by apply IH | done ].
Qed.
End filter_facts.

(** ** The methods of [group] *)

Section group_facts.
Context `{!Runtime, !Codec}.

Local Ltac unfold_M :=
  unfold group.load_docs, group.bind, group.ask, group.lift, group.ret,
    group.if_preLoad, group.data_append, group.data_extend,
    group.write_file, group.data_remove, group.read_file in *.

(** What [insert] does to the group. *)
Lemma insert_run D moreData self :
  group.insert D moreData self =
  let new := moreData ∪ D in
  let cache := if preLoad self then data self ++ [new] else data self in
  match decrypt_loads (file self) with
  | Some d =>
      (OK true, Group (preLoad self) cache (encrypt_dumps (d ++ [new])))
  | None => (Raise InvalidToken, Group (preLoad self) cache (file self))
  end.
Proof.
  unfold group.insert. unfold_M. destruct self as [ [ | ] dat fl ]; simpl;
    by destruct (decrypt_loads fl).
Qed.

Lemma match_single_plain d field p :
  match_filters d [(field, Lit p)] = OK true →
  ∃ x, d !! field = Some x ∧ py_eq (plain_val p) x = true.
Proof.
  simpl. unfold getitem. destruct (d !! field) as [ x | ]; [ | done ].
  simpl. destruct (py_eq (plain_val p) x) eqn:E; [ eauto | done ].
Qed.

Lemma data_remove_each_OK doc self docs :
  list_remove_each doc (data self) = OK docs →
  group.data_remove_each doc self =
  (OK (), Group (preLoad self) docs (file self)).
Proof.
  revert self. induction doc as [ | i doc IH ]; intros self.
  { destruct self. by intros [= <-]. }
  simpl. unfold_M.
  destruct (list_remove (VDict i) (data self)) as [ data' | ]; [ | done ].
  intros Hrest. by rewrite (IH (Group (preLoad self) data' (file self))).
Qed.

Lemma data_remove_each_inv doc self self' :
  group.data_remove_each doc self = (OK (), self') →
  list_remove_each doc (data self) = OK (data self') ∧
  preLoad self' = preLoad self ∧ file self' = file self.
Proof.
  revert self. induction doc as [ | i doc IH ]; intros self.
  { by intros [= <-]. }
  simpl. unfold_M.
  destruct (list_remove (VDict i) (data self)) as [ data' | ]; [ | done ].
  by intros ?%IH.
Qed.

(** C1 (amended): after [insert] has succeeded, a document that
    [get_one({field: D[field]})] returns, for a field of the inserted
    document [D] that holds a plain (non-dict) value, is one of the
    documents of the group, the inserted one included, and its [field]
    equals [D[field]]; it is [D] itself when no document that was there
    before has an equal value under [field].  Nothing is said of whether a
    document is returned. *)
Theorem insert_then_get_one self self' D moreData field p d :
  group.insert D moreData self = (OK true, self') →
  (moreData ∪ D) !! field = Some (plain_val p) →
  group.get_one [(field, Lit p)] None self' = OK (Doc d) →
  ∃ before, group.load_docs self = OK before ∧
    group.load_docs self' = OK (before ++ [moreData ∪ D]) ∧
    d ∈ before ++ [moreData ∪ D] ∧
    (∃ x, d !! field = Some x ∧ py_eq x (plain_val p) = true) ∧
    ((∀ d', d' ∈ before → same_key field (plain_val p) d' = false) →
     d = moreData ∪ D).
Proof.
  rewrite insert_run. cbv zeta.
  destruct (decrypt_loads (file self)) as [ old | ] eqn:Eold; [ | done ].
  intros [= <-] HD (docs & Hload & Hd & Hm)%get_one_Doc.
  apply match_single_plain in Hm as (x & Hx & Hv).
  rewrite py_eq_sym in Hv.
  exists (if preLoad self then data self else old).
  assert (group.load_docs self =
          OK (if preLoad self then data self else old)) as Hbefore.
  { unfold group.load_docs, group.read_file. rewrite Eold.
    by destruct (preLoad self). }
  assert (docs = (if preLoad self then data self else old)
                 ++ [moreData ∪ D]) as ->.
  { revert Hload. unfold group.load_docs, group.read_file. simpl.
    rewrite decrypt_encrypt. destruct (preLoad self); by intros [= <-]. }
  repeat split; try done; [ by exists x | ].
  intros Hother. apply elem_of_app in Hd as [ Hd | Hd ].
  - specialize (Hother d Hd). unfold same_key in Hother.
    rewrite Hx in Hother. congruence.
  - by apply list_elem_of_singleton in Hd.
Qed.

Lemma get_one_not_Doc filters self :
  (∀ docs d, group.load_docs self = OK docs → d ∈ docs →
     match_filters d filters ≠ OK true) →
  (∃ e, group.get_one filters None self = Raise e) ∨
  (∃ r, group.get_one filters None self = OK r ∧
        (r = PyFalse ∨ r = PyNone)).
Proof.
  intros Hno.
  destruct (group.get_one filters None self) as [ [ d | | ] | e ] eqn:E; eauto.
  apply get_one_Doc in E as (docs & Hload & Hd & Hm).
  by destruct (Hno docs d).
Qed.

(** C9: when no document of the group passes the filters, [update_one]
    and [remove_one] raise, and they do so before anything is written:
    the group, file and in-memory copy, is left as it was. *)
Theorem no_match_raises filters nValues self :
  (∀ docs d, group.load_docs self = OK docs → d ∈ docs →
     match_filters d filters ≠ OK true) →
  (∃ e, group.update_one filters nValues self = (Raise e, self)) ∧
  (∃ e, group.remove_one filters self = (Raise e, self)).
Proof.
  intros Hno. unfold group.update_one, group.remove_one. unfold_M.
  destruct (get_one_not_Doc filters self Hno) as [ [e ->] | (r & -> & Hr) ];
    [ eauto | ].
  split.
  - exists AttributeError. by destruct Hr as [ -> | -> ].
  - destruct (preLoad self).
    + rewrite list_remove_scalar by done. eauto.
    + destruct (decrypt_loads (file self)); [ | eauto ].
      rewrite list_remove_scalar by done. eauto.
Qed.
End group_facts.

Section mutation_facts.
Context `{!Runtime, !Codec}.

Local Ltac unfold_M :=
  unfold group.load_docs, group.bind, group.ask, group.lift, group.ret,
    group.if_preLoad, group.data_append, group.data_extend,
    group.write_file, group.data_remove, group.read_file in *.

Lemma in_sync_load self docs :
  in_sync self docs → group.load_docs self = OK docs.
Proof.
  intros [Hfile Hdata]. unfold_M. rewrite Hfile.
  destruct (preLoad self); [ by rewrite Hdata | done ].
Qed.

Lemma get_OK filters self docs matched :
  in_sync self docs →
  group.get filters None self = OK matched →
  matched = List.filter (passes filters) docs.
Proof.
  intros Hsync. unfold group.get. rewrite (in_sync_load _ _ Hsync).
  cbn [truthy].
  destruct (linear_collect docs filters) as [ out | ] eqn:E; [ | done ].
  intros [= <-]. by apply linear_collect_OK.
Qed.

(** What [update] does to a group whose file and in-memory copy agree,
    once [get] has found its documents. *)
Lemma update_run filters nValues self docs matched :
  in_sync self docs →
  group.get filters None self = OK matched →
  (∀ d d', d ∈ docs → d' ∈ docs → py_eq (VDict d) (VDict d') = true →
     passes filters d = passes filters d') →
  let kept := List.filter (λ d, negb (passes filters d)) docs in
  let copies := (λ i, nValues ∪ i) <$> matched in
  group.update filters nValues self =
  (OK (length matched),
   Group (preLoad self)
     (if preLoad self then kept ++ copies else data self)
     (encrypt_dumps (kept ++ copies))).
Proof.
  intros Hsync Hget Hsame kept copies.
  pose proof (get_OK _ _ _ _ Hsync Hget) as Hm.
  pose proof (list_remove_each_filter (passes filters) docs Hsame) as Hrm.
  rewrite <- Hm in Hrm. fold kept in Hrm.
  destruct Hsync as [Hfile Hdata].
  unfold group.update. unfold group.bind at 1. unfold group.ask at 1.
  rewrite Hget. unfold group.bind at 1. unfold group.if_preLoad.
  destruct self as [ [ | ] dat fl ]; simpl in *.
  - rewrite Hdata in * by done. unfold group.bind at 1.
    rewrite (data_remove_each_OK matched _ kept) by done.
    unfold_M. simpl. rewrite Hfile, Hrm. by rewrite length_fmap.
  - unfold_M. simpl. rewrite Hfile, Hrm. by rewrite length_fmap.
Qed.

Lemma passes_plain_eq filters d d' :
  plain_filters filters → py_eq (VDict d) (VDict d') = true →
  passes filters d = passes filters d'.
Proof.
  intros Hp Heq. unfold passes. by rewrite (match_filters_plain_eq _ d d').
Qed.

Lemma filter_none {A} (f : A → bool) (l : list A) :
  Forall (λ x, f x = false) l → List.filter f l = [].
Proof. induction 1 as [ | x l Hx _ IH ]; [ done | ]. simpl. by rewrite Hx. Qed.

(** [get] after an [update] that leaves no copy passing the filters. *)
Lemma get_after_update self docs filters nValues n self' :
  in_sync self docs →
  group.update filters nValues self = (OK n, self') →
  (∀ d d', d ∈ docs → d' ∈ docs → py_eq (VDict d) (VDict d') = true →
     passes filters d = passes filters d') →
  (∀ m, m ∈ docs → passes filters m = true →
     match_filters (nValues ∪ m) filters = OK false) →
  group.get filters None self' = OK [].
Proof.
  intros Hsync Hup Hsame Hcopies.
  destruct (group.get filters None self) as [ matched | e ] eqn:Hget.
  2:{ revert Hup. unfold group.update.
      unfold group.bind at 1. unfold group.ask at 1. by rewrite Hget. }
  rewrite (update_run _ _ _ docs matched) in Hup by done.
  injection Hup as _ <-.
  pose proof (get_OK _ _ _ _ Hsync Hget) as ->.
  assert (Forall (λ d, ∃ b, match_filters d filters = OK b) docs) as Hdef.
  { revert Hget. unfold group.get. rewrite (in_sync_load _ _ Hsync).
    cbn [truthy].
    destruct (linear_collect docs filters) as [ out | ] eqn:E; [ | done ].
    intros _. by apply (linear_collect_defined _ _ out). }
  set (kept := List.filter (λ d, negb (passes filters d)) docs).
  set (copies := (λ i, nValues ∪ i) <$> List.filter (passes filters) docs).
  assert (Forall (λ c, match_filters c filters = OK false) copies) as Hc.
  { apply Forall_forall. intros c (m & -> & Hm)%list_elem_of_fmap.
    apply list_elem_of_In, List.filter_In in Hm as [Hm Hp].
    apply Hcopies; [ by apply list_elem_of_In | done ]. }
  unfold group.get, group.load_docs, group.read_file. simpl.
  rewrite decrypt_encrypt.
  assert ((if preLoad self
           then OK (if preLoad self then kept ++ copies else data self)
           else OK (kept ++ copies)) = OK (kept ++ copies)) as ->
    by by destruct (preLoad self).
  cbn [truthy].
  rewrite linear_collect_total.
  - rewrite List.filter_app, !filter_none; [ done | | ].
    + eapply Forall_impl; [ exact Hc | ]. intros c Hf. unfold passes.
      by rewrite Hf.
    + apply Forall_forall. intros d Hd%list_elem_of_In%List.filter_In.
      destruct Hd as [_ Hd]. by destruct (passes filters d).
  - apply Forall_app. split.
    + apply Forall_forall. intros d Hd%list_elem_of_In%List.filter_In.
      destruct Hd as [Hd _]. apply list_elem_of_In in Hd.
      by apply (proj1 (Forall_forall _ _) Hdef).
    + eapply Forall_impl; [ exact Hc | ]. intros c Hf. by exists false.
Qed.

(** [get] after an [update]: the documents that were left do not pass the
    filters, so the answer is that of the scan of the updated copies. *)
Lemma get_after_update_scan self docs filters nValues n self' :
  in_sync self docs →
  group.update filters nValues self = (OK n, self') →
  (∀ d d', d ∈ docs → d' ∈ docs → py_eq (VDict d) (VDict d') = true →
     passes filters d = passes filters d') →
  group.get filters None self' =
  linear_collect ((λ i, nValues ∪ i) <$> List.filter (passes filters) docs)
    filters.
Proof.
  intros Hsync Hup Hsame.
  destruct (group.get filters None self) as [ matched | e ] eqn:Hget.
  2:{ revert Hup. unfold group.update.
      unfold group.bind at 1. unfold group.ask at 1. by rewrite Hget. }
  rewrite (update_run _ _ _ docs matched) in Hup by done.
  injection Hup as _ <-.
  pose proof (get_OK _ _ _ _ Hsync Hget) as ->.
  assert (Forall (λ d, ∃ b, match_filters d filters = OK b) docs) as Hdef.
  { revert Hget. unfold group.get. rewrite (in_sync_load _ _ Hsync).
    cbn [truthy].
    destruct (linear_collect docs filters) as [ out | ] eqn:E; [ | done ].
    intros _. by apply (linear_collect_defined _ _ out). }
  set (kept := List.filter (λ d, negb (passes filters d)) docs).
  set (copies := (λ i, nValues ∪ i) <$> List.filter (passes filters) docs).
  unfold group.get, group.load_docs, group.read_file. simpl.
  rewrite decrypt_encrypt.
  assert ((if preLoad self
           then OK (if preLoad self then kept ++ copies else data self)
           else OK (kept ++ copies)) = OK (kept ++ copies)) as ->
    by by destruct (preLoad self).
  cbn [truthy]. rewrite linear_collect_app.
  rewrite (linear_collect_total kept).
  - rewrite filter_none.
    + by destruct (linear_collect copies filters).
    + apply Forall_forall. intros d Hd%list_elem_of_In%List.filter_In.
      destruct Hd as [_ Hd]. by destruct (passes filters d).
  - apply Forall_forall. intros d Hd%list_elem_of_In%List.filter_In.
    destruct Hd as [Hd _]. apply list_elem_of_In in Hd.
    by apply (proj1 (Forall_forall _ _) Hdef).
Qed.

Lemma match_filters_plain_miss_OK filters d j p w :
  plain_filters filters →
  (j, Lit p) ∈ filters →
  d !! j = Some w → py_eq (plain_val p) w = false →
  match_filters d filters = OK false.
Proof.
  intros Hp Hin Hw Hne.
  pose proof (match_filters_plain_miss filters d j p w Hp Hin Hw Hne) as Hm.
  destruct (match_filters_plain filters d Hp) as [b Hb].
  unfold passes in Hm. rewrite Hb in *. by destruct b.
Qed.

(** C7 (amended): on a group whose in-memory copy, if any, agrees with
    its file, [update] returns the number of documents that pass the
    filters.  After it has succeeded, provided documents that are [==] pass
    the filters alike, the documents left in place do not pass, and [get]
    with the same filters answers as the scan of the updated copies alone:
    it returns the copies that still pass, so the empty list exactly when
    the filters come out [False] on every copy, and it raises when the
    filters raise on a copy.  With plain-equality filters [update] does
    succeed, and [get] then returns the empty list when [nValues]
    overwrites one of the filter fields with a value other than the one
    that filter asks for. *)
Theorem update_count_and_requery self docs filters nValues :
  in_sync self docs →
  (∀ n self', group.update filters nValues self = (OK n, self') →
     n = length (List.filter (passes filters) docs)) ∧
  (∀ n self', group.update filters nValues self = (OK n, self') →
     (∀ d d', d ∈ docs → d' ∈ docs → py_eq (VDict d) (VDict d') = true →
        passes filters d = passes filters d') →
     group.get filters None self' =
     linear_collect
       ((λ i, nValues ∪ i) <$> List.filter (passes filters) docs) filters ∧
     (group.get filters None self' = OK [] ↔
      ∀ m, m ∈ docs → passes filters m = true →
        match_filters (nValues ∪ m) filters = OK false) ∧
     (∀ m e, m ∈ docs → passes filters m = true →
        match_filters (nValues ∪ m) filters = Raise e →
        ∃ e', group.get filters None self' = Raise e')) ∧
  (plain_filters filters →
   ∃ self',
     group.update filters nValues self =
       (OK (length (List.filter (passes filters) docs)), self') ∧
     ((∃ j p w, (j, Lit p) ∈ filters ∧ nValues !! j = Some w ∧
                py_eq (plain_val p) w = false) →
      group.get filters None self' = OK [])).
Proof.
  intros Hsync. split_and!.
  - intros n self'. unfold group.update.
    unfold group.bind at 1. unfold group.ask at 1.
    destruct (group.get filters None self) as [ matched | ] eqn:Hget;
      [ | done ].
    apply (get_OK _ _ _ _ Hsync) in Hget as ->.
    unfold_M.
    repeat match goal with
           | |- context [match ?x with _ => _ end] => destruct x
           end; try done; intros [= <- _]; by rewrite length_fmap.
  - intros n self' Hup Hsame.
    pose proof (get_after_update_scan self docs filters nValues n self'
                  Hsync Hup Hsame) as Hscan.
    assert (∀ m, m ∈ docs → passes filters m = true →
              (nValues ∪ m) ∈
              (λ i, nValues ∪ i) <$> List.filter (passes filters) docs)
      as Hcopy.
    { intros m Hm Hp. apply list_elem_of_fmap. exists m. split; [ done | ].
      apply list_elem_of_In, List.filter_In.
      split; [ by apply list_elem_of_In | done ]. }
    split; [ done | ]. split.
    + split; [ | by apply (get_after_update self docs filters nValues n) ].
      rewrite Hscan. intros Hempty m Hm Hp.
      pose proof (linear_collect_defined _ _ _ Hempty) as Hdef.
      apply linear_collect_OK in Hempty.
      rewrite Forall_forall in Hdef.
      destruct (Hdef _ (Hcopy m Hm Hp)) as [b Hb]. rewrite Hb.
      destruct b; [ exfalso | done ].
      assert ((nValues ∪ m) ∈ List.filter (passes filters)
                ((λ i, nValues ∪ i) <$> List.filter (passes filters) docs))
        as Hin.
      { apply list_elem_of_In, List.filter_In.
        split; [ by apply list_elem_of_In, Hcopy | ].
        unfold passes. by rewrite Hb. }
      rewrite <- Hempty in Hin. by apply elem_of_nil in Hin.
    + intros m e Hm Hp He. rewrite Hscan.
      apply (linear_collect_raises _ _ (nValues ∪ m) e);
        [ by apply Hcopy | done ].
  - intros Hplain.
    assert (group.get filters None self =
            OK (List.filter (passes filters) docs)) as Hget.
    { unfold group.get. rewrite (in_sync_load _ _ Hsync). cbn [truthy].
      rewrite linear_collect_total; [ done | ].
      apply Forall_forall. intros d _. by apply match_filters_plain. }
    assert (∀ d d', d ∈ docs → d' ∈ docs →
              py_eq (VDict d) (VDict d') = true →
              passes filters d = passes filters d') as Hsame.
    { intros d d' _ _. by apply passes_plain_eq. }
    eexists. split; [ by apply (update_run _ _ _ docs) | ].
    intros (j & p & w & Hj & Hw & Hne).
    eapply get_after_update;
      [ done | by apply (update_run _ _ _ docs) | done | ].
    intros m _ _.
    apply (match_filters_plain_miss_OK filters _ j p w); try done.
    by apply lookup_union_Some_l.
Qed.

(** C10 (amended): on a group whose in-memory copy, if any, agrees with
    its file.  After a successful [update], the stored sequence is the
    documents that do not pass the filters, in their original order,
    followed by the updated copies, provided documents that are [==] pass
    the filters alike.  After a successful [update_one], it is the stored
    sequence without the first document that is [==] to the one found,
    followed by the updated copy of the one found. *)
Theorem update_moves_to_end self docs filters nValues :
  in_sync self docs →
  (∀ n self',
     (∀ d d', d ∈ docs → d' ∈ docs → py_eq (VDict d) (VDict d') = true →
        passes filters d = passes filters d') →
     group.update filters nValues self = (OK n, self') →
     in_sync self'
       (List.filter (λ d, negb (passes filters d)) docs ++
        ((λ i, nValues ∪ i) <$> List.filter (passes filters) docs))) ∧
  (∀ self',
     group.update_one filters nValues self = (OK (), self') →
     ∃ pre d post found,
       group.get_one filters None self = OK (Doc found) ∧
       docs = pre ++ d :: post ∧
       py_eq (VDict d) (VDict found) = true ∧
       Forall (λ i, py_eq (VDict i) (VDict found) = false) pre ∧
       in_sync self' (pre ++ post ++ [nValues ∪ found])).
Proof.
  intros Hsync. split.
  - intros n self' Hsame Hup.
    destruct (group.get filters None self) as [ matched | e ] eqn:Hget.
    2:{ revert Hup. unfold group.update.
        unfold group.bind at 1. unfold group.ask at 1. by rewrite Hget. }
    rewrite (update_run _ _ _ docs matched) in Hup by done.
    injection Hup as _ <-.
    rewrite <- (get_OK _ _ _ _ Hsync Hget).
    split; simpl; [ apply decrypt_encrypt | by intros -> ].
  - intros self'. unfold group.update_one.
    unfold group.bind at 1. unfold group.ask at 1.
    destruct (group.get_one filters None self) as [ [ found | | ] | ];
      try done.
    destruct Hsync as [Hfile Hdata]. unfold_M. cbn [copy found_val].
    destruct self as [ [ | ] dat fl ]; simpl in *.
    + rewrite Hdata in * by done.
      destruct (list_remove (VDict found) docs) as [ out | ] eqn:Hrm;
        [ | done ].
      simpl. rewrite Hfile, Hrm. intros [= <-].
      apply list_remove_OK in Hrm as (pre & d & post & -> & -> & Hd & Hpre).
      exists pre, d, post, found. rewrite <- app_assoc.
      repeat split; try done. apply decrypt_encrypt.
    + rewrite Hfile.
      destruct (list_remove (VDict found) docs) as [ out | ] eqn:Hrm;
        [ | done ].
      intros [= <-].
      apply list_remove_OK in Hrm as (pre & d & post & -> & -> & Hd & Hpre).
      exists pre, d, post, found. rewrite <- app_assoc.
      repeat split; try done. apply decrypt_encrypt.
Qed.

Lemma insert_mirror D moreData : keeps_mirror (group.insert D moreData).
Proof.
  intros [ pl dat fl ] r self'. simpl. intros -> Hfile.
  rewrite insert_run. simpl. rewrite Hfile.
  intros [= <- <-]. simpl. by rewrite decrypt_encrypt.
Qed.

Lemma insert_many_mirror ds : keeps_mirror (group.insert_many ds).
Proof.
  intros [ pl dat fl ] r self'. simpl. intros -> Hfile.
  unfold group.insert_many. unfold_M. simpl. rewrite Hfile.
  intros [= <- <-]. simpl. by rewrite decrypt_encrypt.
Qed.

Lemma update_one_mirror filters nValues :
  keeps_mirror (group.update_one filters nValues).
Proof.
  intros [ pl dat fl ] r self'. simpl. intros -> Hfile.
  unfold group.update_one.
  unfold group.bind at 1. unfold group.ask at 1.
  destruct (group.get_one _ _ _) as [ [ found | | ] | ]; try done.
  unfold_M. simpl.
  destruct (list_remove (VDict found) dat) eqn:Hrm; [ | done ].
  simpl. rewrite Hfile, Hrm.
  intros [= <- <-]. simpl. by rewrite decrypt_encrypt.
Qed.

Lemma remove_one_mirror filters : keeps_mirror (group.remove_one filters).
Proof.
  intros [ pl dat fl ] r self'. simpl. intros -> Hfile.
  unfold group.remove_one.
  unfold group.bind at 1. unfold group.ask at 1.
  destruct (group.get_one _ _ _) as [ found | ]; [ | done ].
  unfold_M. simpl.
  destruct (list_remove (found_val found) dat) eqn:Hrm; [ | done ].
  simpl. rewrite Hfile, Hrm.
  intros [= <- <-]. simpl. by rewrite decrypt_encrypt.
Qed.

Lemma update_mirror filters nValues :
  keeps_mirror (group.update filters nValues).
Proof.
  intros [ pl dat fl ] r self'. simpl. intros -> Hfile.
  unfold group.update.
  unfold group.bind at 1. unfold group.ask at 1.
  destruct (group.get _ _ _) as [ doc | ]; [ | done ].
  unfold group.bind at 1. unfold group.if_preLoad. simpl.
  unfold group.bind at 1.
  destruct (group.data_remove_each doc _) as [ [ [] | ] self1 ] eqn:Hrm;
    [ | done ].
  apply data_remove_each_inv in Hrm as (Hrm & Hpl & Hfl).
  destruct self1 as [ pl1 dat1 fl1 ]. simpl in *. subst pl1 fl1.
  unfold_M. simpl. rewrite Hfile, Hrm.
  intros [= <- <-]. simpl. by rewrite decrypt_encrypt.
Qed.

Lemma remove_mirror filters : keeps_mirror (group.remove filters).
Proof.
  intros [ pl dat fl ] r self'. simpl. intros -> Hfile.
  unfold group.remove.
  unfold group.bind at 1. unfold group.ask at 1.
  destruct (group.get _ _ _) as [ doc | ]; [ | done ].
  unfold group.bind at 1. unfold group.if_preLoad. simpl.
  destruct (group.data_remove_each doc _) as [ [ [] | ] self1 ] eqn:Hrm;
    [ | done ].
  apply data_remove_each_inv in Hrm as (Hrm & Hpl & Hfl).
  destruct self1 as [ pl1 dat1 fl1 ]. simpl in *. subst pl1 fl1.
  unfold_M. simpl. rewrite Hfile, Hrm.
  intros [= <- <-]. simpl. by rewrite decrypt_encrypt.
Qed.

Lemma discard_OK {A} (r : exc A * group) self' :
  discard r = (OK (), self') → ∃ a, r = (OK a, self').
Proof.
  destruct r as [ [ a | ] self1 ]; [ | done ].
  unfold discard. simpl. intros [= <-]. by exists a.
Qed.

(** C8: on a group with the in-memory copy enabled, every mutation that
    completes leaves the copy equal to what the file decodes to, if it was
    so before. *)
Theorem cache_mirror_invariant op self self' :
  preLoad self = true →
  decrypt_loads (file self) = Some (data self) →
  run op self = (OK (), self') →
  preLoad self' = true ∧
  decrypt_loads (file self') = Some (data self').
Proof.
  intros Hpl Hfile.
  destruct op as [ D more | ds | filters nValues | filters nValues
                 | filters | filters ]; simpl.
  - intros [r Hr]%discard_OK. by eapply insert_mirror.
  - intros [r Hr]%discard_OK. by eapply insert_many_mirror.
  - by eapply update_one_mirror.
  - intros [r Hr]%discard_OK. by eapply update_mirror.
  - by eapply remove_one_mirror.
  - intros [r Hr]%discard_OK. by eapply remove_mirror.
Qed.
End mutation_facts.

(** ** The filter matcher: the operator table *)

Section matcher_facts.
Context `{!Runtime}.

Lemma match_operator_unknown value tag o :
  tag ∉ operator_tags → match_operator value tag o = Raise InvalidFilterError.
Proof.
  intros Htag. unfold match_operator.
  repeat match goal with
         | |- context [String.eqb tag ?t] =>
             destruct (String.eqb_spec tag t) as [ -> | _ ];
             [ exfalso; apply Htag; unfold operator_tags;
               rewrite !elem_of_cons; tauto | ]
         end.
  done.
Qed.

(** The loop stops at the first operator that rejects the value. *)
Lemma match_operators_app value before after :
  match_operators value (before ++ after) =
  let* passed := match_operators value before in
  if passed : bool then match_operators value after else OK false.
Proof.
  induction before as [ | [i o] before IH ]; [ done | ]. simpl.
  destruct (match_operator value i o) as [ [ | ] | ]; [ apply IH | done .. ].
Qed.

(** C6 (amended): a plain spec matches exactly the values [==] to it;
    [{"__gt": v}] matches exactly the values [> v] (31 but not 30, for
    [v = 30]); [{"__re": p}] with a valid pattern matches exactly the
    values whose [str] the pattern matches (["Alice"] but not ["bob"], for
    a pattern that matches the one and not the other); and a dict fails
    with [InvalidFilterError] when the loop reaches an unknown tag, that
    is, when the operators before it accept the value. *)
Theorem matchDocs_operator_table (value : val) :
  (∀ p, matchDocs value (Lit p) = OK (py_eq value (plain_val p))) ∧
  (∀ v, matchDocs value (Ops [("__gt", OVal v)]) = OK true ↔
        py_cmp OpGt value v = OK true) ∧
  (matchDocs (VInt 31) (Ops [("__gt", OVal (VInt 30))]) = OK true ∧
   matchDocs (VInt 30) (Ops [("__gt", OVal (VInt 30))]) = OK false) ∧
  (∀ p, re_match p (py_str value) ≠ None →
     (matchDocs value (Ops [("__re", OVal (VStr p))]) = OK true ↔
      re_match p (py_str value) = Some true)) ∧
  (∀ p, re_match p "Alice" = Some true → re_match p "bob" = Some false →
     matchDocs (VStr "Alice") (Ops [("__re", OVal (VStr p))]) = OK true ∧
     matchDocs (VStr "bob") (Ops [("__re", OVal (VStr p))]) = OK false) ∧
  (∀ tag o before after,
     tag ∉ operator_tags →
     match_operators value before = OK true →
     matchDocs value (Ops (before ++ (tag, o) :: after)) =
     Raise InvalidFilterError).
Proof.
  split_and!.
  - intros p. simpl. by rewrite py_eq_sym.
  - intros v. simpl. unfold match_operator. simpl.
    rewrite py_gt_iff_not_le.
    destruct (py_cmp OpLe value v) as [ [] | ]; simpl; split; congruence.
  - done.
  - done.
  - intros p Hvalid. simpl. unfold match_operator. simpl.
    destruct (re_match p (py_str value)) as [ [] | ]; split; congruence.
  - intros p Ha Hb. simpl. unfold match_operator. simpl.
    by rewrite !py_str_VStr, Ha, Hb.
  - intros tag o before after Htag Hbefore. simpl.
    rewrite match_operators_app, Hbefore. simpl.
    by rewrite match_operator_unknown.
Qed.
End matcher_facts.

(** ** [merge] as an interleaving *)

Section merge_interleaving.
Variable param : string.

Lemma merge_rec_sublist left right out :
  merge_rec param left right = OK out →
  left `sublist_of` out ∧ right `sublist_of` out.
Proof.
  revert right out. induction left as [ | l left IHl ]; intros right out.
  - rewrite merge_rec_nil_l. intros [= <-].
    split; [ apply sublist_nil_l | done ].
  - induction right as [ | r right IHr ] in out |- *.
    + rewrite merge_rec_nil_r. intros [= <-].
      split; [ done | apply sublist_nil_l ].
    + rewrite merge_rec_cons.
      destruct (getitem l param) as [ x | ]; [ | done ].
      destruct (getitem r param) as [ y | ]; [ | done ].
      destruct (py_cmp OpLe x y) as [ [ | ] | ]; [ | | done ].
      * destruct (merge_rec param left (r :: right)) as [ rest | ] eqn:E;
          [ | done ].
        intros [= <-]. destruct (IHl _ _ E) as [H1 H2].
        split; [ by apply sublist_skip | by apply sublist_cons ].
      * destruct (merge_rec param (l :: left) right) as [ rest | ] eqn:E;
          [ | done ].
        intros [= <-]. destruct (IHr _ eq_refl) as [H1 H2].
        split; [ by apply sublist_cons | by apply sublist_skip ].
Qed.
Lemma merge_rec_raise_sides left right e :
  merge_rec param left right = Raise e →
  (e = KeyError ∧ ∃ d, d ∈ left ++ right ∧ d !! param = None) ∨
  (e = TypeError ∧ ∃ a b x y, a ∈ left ∧ b ∈ right ∧
     a !! param = Some x ∧ b !! param = Some y ∧
     py_cmp OpLe x y = Raise TypeError).
Proof.
  revert right. induction left as [ | l left IHl ]; intros right.
  { by rewrite merge_rec_nil_l. }
  induction right as [ | r right IHr ].
  { by rewrite merge_rec_nil_r. }
  rewrite merge_rec_cons.
  destruct (getitem l param) as [ x | e' ] eqn:Ex.
  2:{ apply getitem_Raise in Ex as [Ex ->]. intros [= <-]. left.
      split; [ done | ]. exists l. split; [ apply list_elem_of_here | done ]. }
  destruct (getitem r param) as [ y | e' ] eqn:Ey.
  2:{ apply getitem_Raise in Ey as [Ey ->]. intros [= <-]. left.
      split; [ done | ]. exists r. split; [ | done ].
      apply elem_of_app. right. apply list_elem_of_here. }
  apply getitem_OK in Ex, Ey.
  destruct (py_cmp OpLe x y) as [ [ | ] | e' ] eqn:Ec.
  - destruct (merge_rec param left (r :: right)) as [ rest | e' ] eqn:E;
      [ done | ].
    intros [= <-]. destruct (IHl _ E) as [ [-> (d & Hd & Hnone)] | [-> H] ].
    + left. split; [ done | ]. exists d. split; [ | done ].
      by apply list_elem_of_further.
    + right. split; [ done | ].
      destruct H as (a & b & x' & y' & Ha & Hb & H).
      exists a, b, x', y'. split; [ by apply list_elem_of_further | done ].
  - destruct (merge_rec param (l :: left) right) as [ rest | e' ] eqn:E;
      [ done | ].
    intros [= <-]. destruct (IHr eq_refl) as [ [-> (d & Hd & Hnone)] | [-> H] ].
    + left. split; [ done | ]. exists d. split; [ | done ].
      rewrite elem_of_app in *. destruct Hd as [ Hd | Hd ]; [ by left | ].
      right. by apply list_elem_of_further.
    + right. split; [ done | ].
      destruct H as (a & b & x' & y' & Ha & Hb & H).
      exists a, b, x', y'.
      split; [ done | split; [ by apply list_elem_of_further | done ] ].
  - intros [= <-]. pose proof (py_cmp_raise _ _ _ _ Ec) as ->.
    right. split; [ done | ]. exists l, r, x, y.
    split_and!; [ apply list_elem_of_here | apply list_elem_of_here | done .. ].
Qed.
End merge_interleaving.

(** X1: whenever [merge] returns, the result holds the documents of both
    lists, each list in its own order (an interleaving).  It raises only
    when both lists are non-empty: the [ValueError] about the sort
    parameter when a document it reads lacks the key, or the [TypeError] of
    comparing a key of [left] with a key of [right]. *)
Theorem merge_interleaves (left right : list document) (param : string) :
  (∀ out, merge left right param = OK out →
     out ≡ₚ left ++ right ∧
     left `sublist_of` out ∧ right `sublist_of` out) ∧
  (∀ e, merge left right param = Raise e →
     left ≠ [] ∧ right ≠ [] ∧
     ((e = ValueError MissingSortKey ∧
       ∃ d, d ∈ left ++ right ∧ d !! param = None) ∨
      (e = TypeError ∧ ∃ a b x y, a ∈ left ∧ b ∈ right ∧
         a !! param = Some x ∧ b !! param = Some y ∧
         py_cmp OpLe x y = Raise TypeError))).
Proof.
  split.
  - intros out. rewrite merge_unfold. intros E%sort_error_OK.
    split; [ by eapply merge_rec_perm | by eapply merge_rec_sublist ].
  - intros e. rewrite merge_unfold.
    destruct left as [ | l left' ]; [ by rewrite merge_rec_nil_l | ].
    destruct right as [ | r right' ]; [ by rewrite merge_rec_nil_r | ].
    destruct (merge_rec param (l :: left') (r :: right')) as [ | e' ] eqn:E;
      [ done | ].
    intros He. split; [ done | split; [ done | ] ].
    destruct (merge_rec_raise_sides _ _ _ _ E) as [ [-> H] | [-> H] ];
      simpl in He; injection He as <-; [ by left | by right ].
Qed.

(** ** Sorting what is sorted *)

Lemma merge_rec_sorted_app param left right :
  StronglySorted (key_le param) (left ++ right) →
  merge_rec param left right = OK (left ++ right).
Proof.
  induction left as [ | l left IH ]; intros Hs.
  - by rewrite merge_rec_nil_l.
  - destruct right as [ | r right ].
    + by rewrite merge_rec_nil_r, app_nil_r.
    + rewrite merge_rec_cons. simpl in Hs.
      apply StronglySorted_inv in Hs as [Hs Hall].
      rewrite Forall_app, Forall_cons in Hall.
      destruct Hall as (_ & (x & y & Hx & Hy & Hle) & _).
      rewrite (proj2 (getitem_OK param l x) Hx).
      rewrite (proj2 (getitem_OK param r y) Hy).
      rewrite Hle. by rewrite IH.
Qed.

Lemma StronglySorted_take_drop {A} (R : A → A → Prop) n (l : list A) :
  StronglySorted R l →
  StronglySorted R (take n l) ∧ StronglySorted R (drop n l).
Proof.
  intros Hs. rewrite <- (take_drop n l) in Hs.
  revert Hs. generalize (take n l) (drop n l). intros l1 l2.
  induction l1 as [ | a l1 IH ]; simpl; intros Hs.
  - split; [ constructor | done ].
  - apply StronglySorted_inv in Hs as [Hs Hall].
    apply Forall_app in Hall as [H1 _]. destruct (IH Hs) as [IH1 IH2].
    split; [ by constructor | done ].
Qed.

Lemma merge_sort_of_sorted array param :
  StronglySorted (key_le param) array → merge_sort array param = OK array.
Proof.
  pattern array, (merge_sort array param).
  apply merge_sort_ind; clear array.
  - done.
  - intros array _ left right IHl IHr Hs.
    destruct (StronglySorted_take_drop _ (length array / 2)%nat _ Hs)
      as [Hl Hr].
    rewrite IHl, IHr by done. subst left right.
    rewrite merge_rec_sorted_app; rewrite take_drop; done.
Qed.

(** X2: a sequence already in ascending order of the key comes back from
    [merge_sort] as it is; so sorting what [merge_sort] returned returns
    the same. *)
Theorem merge_sort_idempotent (array : list document) (param : string) :
  (StronglySorted (key_le param) array → merge_sort array param = OK array) ∧
  (∀ out, merge_sort array param = OK out → merge_sort out param = OK out).
Proof.
  split; [ apply merge_sort_of_sorted | ].
  intros out E. apply merge_sort_of_sorted. by eapply merge_sort_sorted.
Qed.

(** ** [binary_search] on a sorted array *)

Lemma StronglySorted_lookup {A} (R : A → A → Prop) (l : list A) i j a b :
  StronglySorted R l → (i < j)%nat →
  l !! i = Some a → l !! j = Some b → R a b.
Proof.
  intros Hs. revert i j. induction Hs as [ | c l Hs IH Hall ]; intros i j Hij.
  - done.
  - destruct j as [ | j ]; [ lia | ]. destruct i as [ | i ]; simpl.
    + intros [= <-] Hb. rewrite Forall_forall in Hall. apply Hall.
      by eapply list_elem_of_lookup_2.
    + apply IH. lia.
Qed.

Lemma sorted_has_keys param (arr : list document) d :
  StronglySorted (key_le param) arr → (2 ≤ length arr)%nat →
  d ∈ arr → is_Some (d !! param).
Proof.
  intros Hs Hlen [i Hi]%list_elem_of_lookup_1.
  destruct i as [ | i ].
  - destruct (lookup_lt_is_Some_2 arr 1) as [b Hb]; [ lia | ].
    destruct (StronglySorted_lookup _ _ 0 1 d b Hs) as (x & _ & Hx & _);
      [ lia | done .. | by exists x ].
  - destruct (lookup_lt_is_Some_2 arr 0) as [a Ha]; [ lia | ].
    destruct (StronglySorted_lookup _ _ 0 (S i) a d Hs) as (_ & y & _ & Hy & _);
      [ lia | done .. | by exists y ].
Qed.

(** [x <= y] and [y < v] leave [x != v]; so do [v < y] and [y <= x]. *)
Lemma py_le_lt_ne x y v :
  py_cmp OpLe x y = OK true → py_cmp OpLt y v = OK true →
  py_eq x v = false.
Proof.
  rewrite !py_cmp_compare.
  destruct (py_compare x y) as [ c1 | ] eqn:E1; [ | done ].
  destruct (py_compare y v) as [ c2 | ] eqn:E2; [ | done ].
  intros [= H1] [= H2]. destruct c2; try done.
  assert (py_compare x v = OK (comp_then c1 Lt)) as E
    by (apply (py_compare_then x y v); [ done | done | by destruct c1 | done ]).
  rewrite comp_then_Lt_r in E.
  destruct (py_eq x v) eqn:Eq; [ | done ].
  by pose proof (py_eq_compare _ _ _ Eq E).
Qed.

Lemma py_gt_le_ne x y v :
  py_eq y v = false → py_cmp OpLt y v = OK false →
  py_cmp OpLe y x = OK true →
  py_eq x v = false.
Proof.
  intros Hne. rewrite !py_cmp_compare.
  destruct (py_compare y v) as [ c1 | ] eqn:E1; [ | done ].
  destruct (py_compare y x) as [ c2 | ] eqn:E2; [ | done ].
  intros [= H1] [= H2].
  assert (c1 = Gt) as ->.
  { destruct c1; [ | done | done ].
    apply py_compare_Eq in E1. congruence. }
  pose proof (py_compare_antisym y v) as Ha. rewrite E1 in Ha. simpl in Ha.
  assert (py_compare v x = OK (comp_then Lt c2)) as E
    by (apply (py_compare_then v y x); [ done | done | done | by destruct c2 ]).
  simpl in E.
  destruct (py_eq x v) eqn:Eq; [ | done ].
  rewrite py_eq_sym in Eq. by pose proof (py_eq_compare _ _ _ Eq E).
Qed.

Lemma py_lt_ne y v : py_cmp OpLt y v = OK true → py_eq y v = false.
Proof.
  rewrite py_cmp_compare.
  destruct (py_compare y v) as [ c | ] eqn:E; [ | done ].
  intros [= H]. destruct (py_eq y v) eqn:Eq; [ | done ].
  rewrite (py_eq_compare _ _ _ Eq E) in H. done.
Qed.

Section sorted_search.
Variables (arr : list document) (key : string) (value : val).
Hypothesis Hsorted : StronglySorted (key_le key) arr.

(** Below a document whose key is less than [value] nothing matches. *)
Lemma no_match_below i j a b y :
  (i ≤ j)%nat → arr !! i = Some a → arr !! j = Some b →
  b !! key = Some y → py_cmp OpLt y value = OK true →
  same_key key value a = false.
Proof.
  intros Hij Ha Hb Hy Hlt. unfold same_key.
  destruct (decide (i = j)) as [ -> | Hne ].
  - assert (a = b) as -> by congruence. rewrite Hy. by apply py_lt_ne.
  - destruct (StronglySorted_lookup _ _ i j a b Hsorted)
      as (x & y' & Hx & Hy' & Hle); [ lia | done | done | ].
    rewrite Hx. assert (y' = y) as -> by congruence.
    by apply (py_le_lt_ne x y value).
Qed.

(** From a document whose key is greater than [value] on nothing matches. *)
Lemma no_match_above i j a b x :
  (i ≤ j)%nat → arr !! i = Some a → arr !! j = Some b →
  a !! key = Some x → py_eq x value = false →
  py_cmp OpLt x value = OK false →
  same_key key value b = false.
Proof.
  intros Hij Ha Hb Hx Hne Hlt. unfold same_key.
  destruct (decide (i = j)) as [ -> | Hne' ].
  - assert (a = b) as -> by congruence. by rewrite Hx.
  - destruct (StronglySorted_lookup _ _ i j a b Hsorted)
      as (x' & y & Hx' & Hy & Hle); [ lia | done | done | ].
    rewrite Hy. assert (x' = x) as -> by congruence.
    by apply (py_gt_le_ne y x value).
Qed.

(** The loop between [l] and [u].  A document it returns sits at an index
    from [l] up to, not including, [u].  When it returns [False], no index
    from [l] up to, not including, [u] holds a match.  The only exception
    is the [TypeError] of comparing a key value with [value]: every index
    looked at is within the array and every document has the key. *)
Lemma binary_search_while_sorted l u :
  0 ≤ l ≤ u → u < Z.of_nat (length arr) →
  match binary_search_while arr key value l u with
  | OK (Doc d) => ∃ i, (Z.to_nat l ≤ i < Z.to_nat u)%nat ∧
                       arr !! i = Some d ∧ same_key key value d = true
  | OK PyFalse => ∀ i d, (Z.to_nat l ≤ i < Z.to_nat u)%nat →
                    arr !! i = Some d → same_key key value d = false
  | OK PyNone => False
  | Raise e => e = TypeError ∧ ∃ d x, d ∈ arr ∧ d !! key = Some x ∧
                 py_cmp OpLt x value = Raise TypeError
  end.
Proof.
  remember (Z.to_nat (u - l)) as n eqn:En. revert l u En.
  induction n as [n IH] using lt_wf_ind. intros l u -> Hl Hu.
  rewrite binary_search_while_eq.
  destruct (decide (l < u)) as [ Hlu | Hlu ]; [ | intros i d Hi; lia ].
  assert (l ≤ (l + u) / 2 < u) as Hmid
    by (split; [ apply Z.div_le_lower_bound | apply Z.div_lt_upper_bound ];
        lia).
  cbv zeta. set (mid := (l + u) / 2) in *.
  destruct (lookup_lt_is_Some_2 arr (Z.to_nat mid)) as [d Hd]; [ lia | ].
  assert (py_index arr mid = OK d) as ->.
  { rewrite <- (Z2Nat.id mid) by lia. by rewrite py_index_nat, Hd. }
  assert (d ∈ arr) as Hin by by eapply list_elem_of_lookup_2.
  destruct (sorted_has_keys key arr d Hsorted) as [x Hx]; [ lia | done | ].
  rewrite (proj2 (getitem_OK key d x) Hx).
  destruct (py_eq x value) eqn:Eq.
  { exists (Z.to_nat mid). split; [ lia | ]. split; [ done | ].
    unfold same_key. by rewrite Hx. }
  destruct (py_cmp OpLt x value) as [ [ | ] | e ] eqn:Hb.
  - specialize (IH (Z.to_nat (u - (mid + 1)))) with (l := mid + 1) (u := u).
    destruct (binary_search_while arr key value (mid + 1) u)
      as [ [ d' | | ] | e ].
    + destruct IH as (i & Hi & H); [ lia | done | lia | lia | ].
      exists i. split; [ lia | done ].
    + intros i d' Hi Hd'.
      destruct (decide (i ≤ Z.to_nat mid)%nat) as [ Hle | Hgt ].
      * by apply (no_match_below i (Z.to_nat mid) d' d x).
      * apply (IH ltac:(lia) eq_refl ltac:(lia) ltac:(lia) i); [ lia | done ].
    + apply IH; [ lia | done | lia | lia ].
    + apply IH; [ lia | done | lia | lia ].
  - specialize (IH (Z.to_nat (mid - l))) with (l := l) (u := mid).
    destruct (binary_search_while arr key value l mid) as [ [ d' | | ] | e ].
    + destruct IH as (i & Hi & H); [ lia | done | lia | lia | ].
      exists i. split; [ lia | done ].
    + intros i d' Hi Hd'.
      destruct (decide (Z.to_nat mid ≤ i)%nat) as [ Hle | Hgt ].
      * by apply (no_match_above (Z.to_nat mid) i d d' x).
      * apply (IH ltac:(lia) eq_refl ltac:(lia) ltac:(lia) i); [ lia | done ].
    + apply IH; [ lia | done | lia | lia ].
    + apply IH; [ lia | done | lia | lia ].
  - pose proof (py_cmp_raise _ _ _ _ Hb) as ->. split; [ done | ].
    by exists d, x.
Qed.
End sorted_search.

(** The search from [0] to [len(arr) - 1] on an array sorted by [key]. *)
Lemma binary_search_on_sorted (arr : list document) (key : string)
    (value : val) :
  StronglySorted (key_le key) arr →
  (∀ r, binary_search arr key value = OK r →
     (r = PyFalse ∨ ∃ d, r = Doc d ∧ d ∈ arr ∧ same_key key value d = true) ∧
     (r = PyFalse ↔
      Forall (λ d, same_key key value d = false)
             (take (length arr - 1) arr))) ∧
  (∀ e, binary_search arr key value = Raise e →
     e = TypeError ∧ ∃ d x, d ∈ arr ∧ d !! key = Some x ∧
       py_cmp OpLt x value = Raise TypeError).
Proof.
  intros Hsorted. unfold binary_search.
  destruct (decide (arr = [])) as [ -> | Hne ].
  { rewrite binary_search_while_eq. simpl. split; [ | done ].
    intros r [= <-]. split; [ by left | ]. split; [ by constructor | done ]. }
  assert (0 < Z.of_nat (length arr)) as Hlen
    by (destruct arr; simpl; [ done | lia ]).
  pose proof (binary_search_while_sorted arr key value Hsorted
                0 (Z.of_nat (length arr) - 1)) as Hloop.
  replace (Z.to_nat (Z.of_nat (length arr) - 1)) with (length arr - 1)%nat
    in Hloop by lia.
  destruct (binary_search_while arr key value 0 (Z.of_nat (length arr) - 1))
    as [ r | e ].
  2:{ split; [ done | ]. intros e' [= <-]. apply Hloop; lia. }
  split; [ | done ]. intros r' [= <-].
  destruct r as [ d | | ].
  - destruct Hloop as (i & Hi & Hd & Hsame); [ lia | lia | ]. split.
    + right. exists d. split; [ done | ].
      split; [ by eapply list_elem_of_lookup_2 | done ].
    + split; [ done | ]. rewrite Forall_lookup. intros Hall. exfalso.
      specialize (Hall i d). rewrite lookup_take_lt in Hall by lia.
      specialize (Hall Hd). simpl in Hall. congruence.
  - split; [ by left | ]. split; [ | done ]. intros _.
    rewrite Forall_lookup. intros i d Hd.
    apply lookup_take_Some in Hd as [Hd Hi].
    apply (Hloop ltac:(lia) ltac:(lia) i); [ lia | done ].
  - destruct Hloop; lia.
Qed.

(** X3: on an array sorted by [key], [binary_search] raises nothing but
    the [TypeError] of a key value that cannot be compared with [value]: no
    index is out of range and no key is missing.  When it returns, the
    result is a document of the array with that key value, or [False]; and
    it is [False] exactly when no document other than the last one has the
    value: the last document is never looked at. *)
Theorem binary_search_sorted (arr : list document) (key : string)
    (value : val) :
  StronglySorted (key_le key) arr →
  (∀ r, binary_search arr key value = OK r →
     (r = PyFalse ∨ ∃ d, r = Doc d ∧ d ∈ arr ∧ same_key key value d = true) ∧
     (r = PyFalse ↔
      Forall (λ d, same_key key value d = false)
             (take (length arr - 1) arr))) ∧
  (∀ e, binary_search arr key value = Raise e →
     e = TypeError ∧ ∃ d x, d ∈ arr ∧ d !! key = Some x ∧
       py_cmp OpLt x value = Raise TypeError).
Proof. apply binary_search_on_sorted. Qed.

(** ** The fast path of [get_one] *)

Lemma StronglySorted_app_le {A} (R : A → A → Prop) (l1 l2 : list A) a b :
  StronglySorted R (l1 ++ l2) → a ∈ l1 → b ∈ l2 → R a b.
Proof.
  induction l1 as [ | c l1 IH ]; simpl; intros Hs Ha Hb.
  - by apply elem_of_nil in Ha.
  - apply StronglySorted_inv in Hs as [Hs Hall].
    apply elem_of_cons in Ha as [ -> | Ha ]; [ | by apply IH ].
    rewrite Forall_forall in Hall. apply Hall, elem_of_app. by right.
Qed.

Lemma py_le_eq_l x x' y :
  py_eq x x' = true → py_cmp OpLe x y = py_cmp OpLe x' y.
Proof.
  intros E%py_eq_iff. rewrite !py_cmp_compare.
  by rewrite (py_compare_norm_l x x' y E).
Qed.

(** [x == v] rules out [x > v]. *)
Lemma py_eq_not_gt x v : py_eq x v = true → py_cmp OpGt x v ≠ OK true.
Proof.
  intros Eq. rewrite py_cmp_compare.
  destruct (py_compare x v) as [ c | ] eqn:E; [ | done ].
  by rewrite (py_eq_compare _ _ _ Eq E).
Qed.

(** [v <= y] without [y > v] is [y == v]. *)
Lemma py_le_not_gt_eq v y :
  py_cmp OpLe v y = OK true → py_cmp OpGt y v ≠ OK true → py_eq y v = true.
Proof.
  rewrite !py_cmp_compare. pose proof (py_compare_antisym v y) as Ha.
  destruct (py_compare v y) as [ c | ] eqn:E; [ | done ].
  rewrite Ha. simpl. intros [= Hle] Hgt.
  destruct c; [ | done | done ].
  rewrite py_eq_sym. by apply py_compare_Eq.
Qed.

Lemma filter_nil_Forall {A} (f : A → bool) (l : list A) :
  List.filter f l = [] → Forall (λ x, f x = false) l.
Proof.
  induction l as [ | a l IH ]; simpl; [ by constructor | ].
  destruct (f a) eqn:E; [ done | ]. intros H.
  constructor; [ done | by apply IH ].
Qed.

(** What the last document of a sorted array being left out means for the
    documents of the array. *)
Lemma all_but_last_no_match key value (sorted : list document) :
  StronglySorted (key_le key) sorted →
  Forall (λ d, same_key key value d = false)
         (take (length sorted - 1) sorted) ↔
  (length (List.filter (same_key key value) sorted) ≤ 1)%nat ∧
  (List.filter (same_key key value) sorted ≠ [] →
   ∀ d x, d ∈ sorted → d !! key = Some x → py_cmp OpGt x value ≠ OK true).
Proof.
  intros Hs. destruct sorted as [ | d0 rest ] using rev_ind.
  { simpl. split; [ intros _; split; [ lia | done ] | by constructor ]. }
  clear IHrest. rename rest into init, d0 into last.
  rewrite length_app. simpl.
  replace (length init + 1 - 1)%nat with (length init) by lia.
  rewrite take_app_length. rewrite List.filter_app. simpl.
  split.
  - intros Hall. rewrite (filter_none _ _ Hall). simpl.
    destruct (same_key key value last) eqn:El; simpl;
      [ | split; [ lia | done ] ].
    split; [ lia | ]. intros _ d x [ Hd | Hd ]%elem_of_app Hx.
    + destruct (StronglySorted_app_le _ _ _ d last Hs Hd)
        as (x' & y & Hx' & Hy & Hle); [ apply list_elem_of_here | ].
      assert (x' = x) as -> by congruence.
      unfold same_key in El. rewrite Hy in El.
      rewrite (py_le_eq_r x y value El) in Hle.
      intros Hgt%py_gt_iff_not_le. congruence.
    + apply list_elem_of_singleton in Hd as ->.
      unfold same_key in El. rewrite Hx in El. by apply py_eq_not_gt.
  - intros [Hlen Hmax]. apply Forall_forall. intros d Hd.
    destruct (same_key key value d) eqn:Ed; [ exfalso | done ].
    assert (d ∈ List.filter (same_key key value) init) as Hdf
      by (apply list_elem_of_In, filter_In;
          split; [ by apply list_elem_of_In | done ]).
    destruct (List.filter (same_key key value) init) as [ | m ms ] eqn:Ef;
      [ by apply elem_of_nil in Hdf | ].
    destruct (same_key key value last) eqn:El;
      [ simpl in Hlen; rewrite length_app in Hlen; simpl in Hlen; lia | ].
    destruct (StronglySorted_app_le _ _ _ d last Hs Hd)
      as (x & y & Hx & Hy & Hle); [ apply list_elem_of_here | ].
    unfold same_key in Ed, El. rewrite Hx in Ed. rewrite Hy in El.
    rewrite (py_le_eq_l x value y Ed) in Hle.
    rewrite (py_le_not_gt_eq value y) in El; [ done | done | ].
    apply (Hmax ltac:(done) last y); [ | done ].
    apply elem_of_app. right. apply list_elem_of_here.
Qed.
Section fast_path.
Context `{!Runtime, !Codec}.

Lemma get_one_fast_eq self docs key p :
  group.load_docs self = OK docs →
  group.get_one [(key, Lit p)] None self =
  let* sorted := merge_sort docs key in
  binary_search sorted key (plain_val p).
Proof. intros Hload. unfold group.get_one. by rewrite Hload. Qed.

(** X4: the fast path of [get_one] (one plain filter, no [sortby]) on the
    documents [docs] of the group.  A document it returns is one of [docs]
    with the value looked for.  It returns [False] exactly when at most one
    document has the value and, if one has, no document has a greater key
    value: the one match is then the last of the sorted array, which
    [binary_search] does not look at.  It raises the [ValueError] of the
    sort when a document lacks the field, or the [TypeError] of a
    comparison. *)
Theorem get_one_fast_path self docs key p :
  group.load_docs self = OK docs →
  (∀ r, group.get_one [(key, Lit p)] None self = OK r →
     (r = PyFalse ∨
      ∃ d, r = Doc d ∧ d ∈ docs ∧ same_key key (plain_val p) d = true) ∧
     (r = PyFalse ↔
      (length (List.filter (same_key key (plain_val p)) docs) ≤ 1)%nat ∧
      (List.filter (same_key key (plain_val p)) docs ≠ [] →
       ∀ d x, d ∈ docs → d !! key = Some x →
         py_cmp OpGt x (plain_val p) ≠ OK true))) ∧
  (∀ e, group.get_one [(key, Lit p)] None self = Raise e →
     (e = ValueError MissingSortKey ∧ ∃ d, d ∈ docs ∧ d !! key = None) ∨
     (e = TypeError ∧ ∃ a x, a ∈ docs ∧ a !! key = Some x ∧
        ((∃ b y, b ∈ docs ∧ b !! key = Some y ∧
            py_cmp OpLe x y = Raise TypeError) ∨
         py_cmp OpLt x (plain_val p) = Raise TypeError))).
Proof.
  intros Hload. rewrite (get_one_fast_eq self docs key p Hload).
  destruct (merge_sort docs key) as [ sorted | e ] eqn:Es.
  2:{ split; [ done | ]. intros e' [= <-].
      apply merge_sort_raise in Es
        as [ [-> Hmiss] | (-> & a & b & x & y & Ha & Hb & Hx & Hy & Hc) ];
        [ by left | right ].
      split; [ done | ]. exists a, x. split_and!; [ done | done | ].
      left. by exists b, y. }
  pose proof (merge_sort_perm _ _ _ Es) as Hperm.
  pose proof (merge_sort_sorted _ _ _ Es) as Hsorted.
  pose proof (merge_sort_stable _ _ _ (plain_val p) Es) as Hstable.
  destruct (binary_search_on_sorted sorted key (plain_val p) Hsorted)
    as [Hret Hraise].
  split.
  - intros r Hr. destruct (Hret r Hr) as [Hcases Hfalse]. split.
    + destruct Hcases as [ -> | (d & -> & Hd & Hsame) ]; [ by left | right ].
      exists d. split; [ done | ]. by rewrite <- Hperm.
    + rewrite Hfalse, (all_but_last_no_match key _ sorted Hsorted), Hstable.
      split; intros [Hlen Hmax]; (split; [ done | ]); intros Hne d x Hd;
        apply (Hmax Hne d x); by rewrite ?Hperm in *.
  - intros e He. destruct (Hraise e He) as (-> & d & x & Hd & Hx & Hc).
    right. split; [ done | ]. exists d, x. rewrite Hperm in Hd.
    split_and!; [ done | done | by right ].
Qed.
End fast_path.

(** ** What a query can raise *)

Section query_errors.
Context `{!Runtime, !Codec}.

Lemma cmp_operand_raise op doc o e :
  cmp_operand op doc o = Raise e → e = TypeError.
Proof. destruct o; simpl; [ apply py_cmp_raise | by intros [= <-] ]. Qed.

Lemma match_operator_raise doc i o e :
  match_operator doc i o = Raise e → e ∈ matcher_errors.
Proof.
  unfold match_operator, matcher_errors.
  repeat (case_match; try done);
    repeat match goal with
    | H : cmp_operand _ _ _ = Raise _ |- _ => apply cmp_operand_raise in H as ->
    end;
    intros [= <-]; rewrite !elem_of_cons; tauto.
Qed.

Lemma match_operators_raise doc ops e :
  match_operators doc ops = Raise e → e ∈ matcher_errors.
Proof.
  induction ops as [ | [i o] ops IH ]; simpl; [ done | ].
  destruct (match_operator doc i o) as [ [ | ] | e' ] eqn:E; [ done | done | ].
  intros [= <-]. by eapply match_operator_raise.
Qed.

Lemma match_filters_raise d filters e :
  match_filters d filters = Raise e → e ∈ matcher_errors.
Proof.
  induction filters as [ | [j spec] filters IH ]; simpl; [ done | ].
  unfold getitem. destruct (d !! j) as [ v | ]; [ | done ].
  destruct (matchDocs v spec) as [ [ | ] | e' ] eqn:E; [ done | done | ].
  assert (e' ∈ matcher_errors) as He.
  { destruct spec; simpl in E; [ done | by eapply match_operators_raise ]. }
  destruct e'; try done; by intros [= <-].
Qed.

Lemma linear_search_raise docs filters e :
  linear_search docs filters = Raise e → e ∈ matcher_errors.
Proof.
  induction docs as [ | i docs IH ]; simpl; [ done | ].
  destruct (match_filters i filters) as [ [ | ] | e' ] eqn:E; [ done | done | ].
  intros [= <-]. by eapply match_filters_raise.
Qed.

Lemma linear_collect_raise docs filters e :
  linear_collect docs filters = Raise e → e ∈ matcher_errors.
Proof.
  induction docs as [ | i docs IH ]; simpl; [ done | ].
  destruct (match_filters i filters) as [ b | e' ] eqn:E.
  - destruct (linear_collect docs filters); [ done | ].
    intros [= <-]. by apply IH.
  - intros [= <-]. by eapply match_filters_raise.
Qed.

Lemma load_docs_raise self e :
  group.load_docs self = Raise e → e = InvalidToken ∧ preLoad self = false.
Proof.
  unfold group.load_docs, group.read_file.
  destruct (preLoad self); [ done | ].
  destruct (decrypt_loads (file self)); [ done | ]. by intros [= <-].
Qed.

Lemma merge_sort_raise_errors array param e :
  merge_sort array param = Raise e →
  e = ValueError MissingSortKey ∨ e = TypeError.
Proof. intros [ [-> _] | [-> _] ]%merge_sort_raise; tauto. Qed.

Lemma binary_search_after_sort docs key value sorted e :
  merge_sort docs key = OK sorted →
  binary_search sorted key value = Raise e → e = TypeError.
Proof.
  intros Es%merge_sort_sorted He.
  by destruct (binary_search_on_sorted sorted key value Es)
    as [_ [-> _]%(λ H, H e He)].
Qed.
End query_errors.

Section query_errors_thm.
Context `{!Runtime, !Codec}.

Lemma fast_path_true filters sortby :
  fast_path filters sortby = true →
  ∃ key p, filters = [(key, Lit p)] ∧ truthy sortby = false.
Proof.
  unfold fast_path.
  destruct filters as [ | [key [ p | ops ]] [ | ] ]; try done.
  destruct (truthy sortby); [ done | ]. by exists key, p.
Qed.

Lemma get_one_general_eq filters sortby self :
  fast_path filters sortby = false →
  group.get_one filters sortby self =
  let* docs := group.load_docs self in
  let* docs :=
    (if truthy sortby then merge_sort docs (default EmptyString sortby)
     else OK docs) in
  linear_search docs filters.
Proof.
  unfold fast_path, group.get_one. intros Hfast.
  destruct (group.load_docs self) as [ docs | ]; [ | done ].
  destruct filters as [ | [key [ p | ops ]] [ | ] ]; try done.
  by destruct (truthy sortby).
Qed.

Lemma get_one_fast_eq' key p sortby self :
  truthy sortby = false →
  group.get_one [(key, Lit p)] sortby self =
  let* docs := group.load_docs self in
  let* sorted := merge_sort docs key in
  binary_search sorted key (plain_val p).
Proof. intros Hs. unfold group.get_one. by rewrite Hs. Qed.

(** X5: a query raises nothing but: [InvalidToken] when the file does not
    decrypt (and only without the in-memory copy), the [ValueError] of the
    sort, a [TypeError] of a comparison, and the two exceptions of the
    filter matcher.  No [KeyError] of a missing field and no [IndexError]
    of the search leave [get_one] or [get]. *)
Theorem query_raises filters sortby self e :
  group.get_one filters sortby self = Raise e ∨
  group.get filters sortby self = Raise e →
  e ∈ query_errors ∧ (e = InvalidToken → preLoad self = false).
Proof.
  assert (∀ e, e ∈ matcher_errors →
            e ∈ query_errors ∧ (e = InvalidToken → preLoad self = false))
    as Hmatcher.
  { intros e'. unfold matcher_errors, query_errors.
    rewrite !elem_of_cons, !elem_of_nil. intros [ -> | [ -> | [ -> | [] ] ] ];
      (split; [ tauto | done ]). }
  assert (∀ e, e = ValueError MissingSortKey ∨ e = TypeError →
            e ∈ query_errors ∧ (e = InvalidToken → preLoad self = false))
    as Hsort.
  { intros e'. unfold query_errors. rewrite !elem_of_cons.
    intros [ -> | -> ]; (split; [ tauto | done ]). }
  assert (∀ e, group.load_docs self = Raise e →
            e ∈ query_errors ∧ (e = InvalidToken → preLoad self = false))
    as Hload.
  { intros e' [-> Hp]%load_docs_raise.
    split; [ apply list_elem_of_here | done ]. }
  intros [ He | He ].
  - destruct (fast_path filters sortby) eqn:Hfast.
    + apply fast_path_true in Hfast as (key & p & -> & Hs).
      rewrite (get_one_fast_eq' key p sortby self Hs) in He.
      destruct (group.load_docs self) as [ docs | e' ] eqn:El;
        [ | injection He as <-; by apply Hload ].
      destruct (merge_sort docs key) as [ sorted | e' ] eqn:Es.
      * apply Hsort. right. by eapply binary_search_after_sort.
      * injection He as <-. by eapply Hsort, merge_sort_raise_errors.
    + rewrite (get_one_general_eq filters sortby self Hfast) in He.
      destruct (group.load_docs self) as [ docs | e' ] eqn:El;
        [ | injection He as <-; by apply Hload ].
      destruct (truthy sortby).
      * destruct (merge_sort docs (default EmptyString sortby))
          as [ sorted | e' ] eqn:Es.
        -- by eapply Hmatcher, linear_search_raise.
        -- injection He as <-. by eapply Hsort, merge_sort_raise_errors.
      * by eapply Hmatcher, linear_search_raise.
  - unfold group.get in He.
    destruct (group.load_docs self) as [ docs | e' ] eqn:El;
      [ | injection He as <-; by apply Hload ].
    destruct (linear_collect docs filters) as [ output | e' ] eqn:Ec.
    + destruct (truthy sortby); [ | done ].
      by eapply Hsort, merge_sort_raise_errors.
    + injection He as <-. by eapply Hmatcher, linear_collect_raise.
Qed.
End query_errors_thm.

(** ** One stable sorted arrangement *)

Lemma py_compare_self x y c : py_compare x y = OK c → py_compare x x = OK Eq.
Proof.
  destruct x as [ | b | z | s | l | d ]; try done; intros _; simpl.
  - by rewrite Z.compare_refl.
  - by rewrite Z.compare_refl.
  - by rewrite string_compare_refl.
  - induction l as [ | u l IH ]; [ done | ]. by rewrite py_eq_refl.
Qed.

Lemma py_le_antisym x y :
  py_cmp OpLe x y = OK true → py_cmp OpLe y x = OK true → py_eq x y = true.
Proof.
  rewrite !py_cmp_compare. pose proof (py_compare_antisym x y) as Ha.
  destruct (py_compare x y) as [ c | ] eqn:E; [ | done ].
  rewrite Ha. simpl. intros [= H1] [= H2].
  destruct c; [ | done | done ]. by apply py_compare_Eq.
Qed.

Lemma filter_comm {A} (f g : A → bool) (l : list A) :
  List.filter f (List.filter g l) = List.filter g (List.filter f l).
Proof.
  induction l as [ | a l IH ]; [ done | ]. simpl.
  destruct (g a) eqn:Eg, (f a) eqn:Ef; simpl; rewrite ?Eg, ?Ef, IH; done.
Qed.

Lemma filter_perm {A} (f : A → bool) (l k : list A) :
  l ≡ₚ k → List.filter f l ≡ₚ List.filter f k.
Proof.
  induction 1 as [ | a l k _ IH | a b l | l k m _ IH1 _ IH2 ]; simpl.
  - done.
  - destruct (f a); by rewrite IH.
  - destruct (f a), (f b); by try apply perm_swap.
  - by rewrite IH1.
Qed.

Lemma filter_elem_of {A} (f : A → bool) (l : list A) a :
  a ∈ List.filter f l ↔ a ∈ l ∧ f a = true.
Proof. by rewrite !list_elem_of_In, filter_In. Qed.

Lemma StronglySorted_filter {A} (R : A → A → Prop) (f : A → bool) l :
  StronglySorted R l → StronglySorted R (List.filter f l).
Proof.
  induction 1 as [ | a l Hs IH Hall ]; simpl; [ constructor | ].
  destruct (f a); [ | done ]. constructor; [ done | ].
  rewrite Forall_forall in *. intros b [Hb _]%filter_elem_of. by apply Hall.
Qed.

Section stable_unique.
Variable param : string.

(** Two sorted arrangements of the same documents that both keep the
    relative order of the documents with equal keys are the same list. *)
Lemma sorted_stable_unique (r1 r2 : list document) :
  r1 ≡ₚ r2 →
  StronglySorted (key_le param) r1 → StronglySorted (key_le param) r2 →
  (∀ v, List.filter (same_key param v) r1 = List.filter (same_key param v) r2) →
  r1 = r2.
Proof.
  revert r2. induction r1 as [ | a r1 IH ]; intros r2 Hperm Hs1 Hs2 Hstable.
  { by apply Permutation_nil in Hperm. }
  destruct r2 as [ | b r2 ];
    [ by apply Permutation_sym, Permutation_nil in Hperm | ].
  destruct (decide (a = b)) as [ <- | Hab ].
  - f_equal. apply StronglySorted_inv in Hs1 as [Hs1 _].
    apply StronglySorted_inv in Hs2 as [Hs2 _].
    apply IH; [ by eapply Permutation_cons_inv | done | done | ].
    intros v. specialize (Hstable v). simpl in Hstable.
    destruct (same_key param v a); [ by injection Hstable | done ].
  - exfalso.
    assert (a ∈ r2) as Ha2.
    { assert (a ∈ b :: r2) as H by (rewrite <- Hperm; apply list_elem_of_here).
      apply elem_of_cons in H as [ H | H ]; [ done | done ]. }
    assert (b ∈ r1) as Hb1.
    { assert (b ∈ a :: r1) as H by (rewrite Hperm; apply list_elem_of_here).
      apply elem_of_cons in H as [ H | H ]; [ done | done ]. }
    apply StronglySorted_inv in Hs1 as [_ Hall1].
    apply StronglySorted_inv in Hs2 as [_ Hall2].
    rewrite Forall_forall in Hall1, Hall2.
    destruct (Hall1 b Hb1) as (x & y & Hx & Hy & Hxy).
    destruct (Hall2 a Ha2) as (y' & x' & Hy' & Hx' & Hyx).
    assert (x' = x) as -> by congruence. assert (y' = y) as -> by congruence.
    pose proof (py_le_antisym x y Hxy Hyx) as Heq.
    assert (same_key param x a = true) as Ea
      by (unfold same_key; by rewrite Hx, py_eq_refl).
    assert (same_key param x b = true) as Eb
      by (unfold same_key; by rewrite Hy, py_eq_sym).
    specialize (Hstable x). simpl in Hstable.
    rewrite Ea, Eb in Hstable. by injection Hstable.
Qed.

(** The documents of a sorted list of two or more have keys that compare
    with one another. *)
Lemma sorted_comparable (l : list document) a b x y :
  StronglySorted (key_le param) l → (2 ≤ length l)%nat →
  a ∈ l → b ∈ l → a !! param = Some x → b !! param = Some y →
  py_cmp OpLe x y ≠ Raise TypeError.
Proof.
  intros Hs Hlen [i Hi]%list_elem_of_lookup_1 [j Hj]%list_elem_of_lookup_1
    Hx Hy.
  assert (∀ i j a b x y, (i < j)%nat → l !! i = Some a → l !! j = Some b →
            a !! param = Some x → b !! param = Some y →
            py_cmp OpLe x y = OK true) as Hlt.
  { clear -Hs. intros i j a b x y Hij Ha Hb Hx Hy.
    destruct (StronglySorted_lookup _ _ i j a b Hs Hij Ha Hb)
      as (x' & y' & Hx' & Hy' & Hle). congruence. }
  assert (∀ x y, py_cmp OpLe x y = OK true →
            py_cmp OpLe y x ≠ Raise TypeError ∧
            py_cmp OpLe x x ≠ Raise TypeError ∧
            py_cmp OpLe y y ≠ Raise TypeError) as Hflip.
  { clear. intros x y. rewrite !py_cmp_compare.
    pose proof (py_compare_antisym x y) as Ha.
    pose proof (py_compare_antisym y x) as Hb.
    destruct (py_compare x y) as [ c | ] eqn:E; [ | done ].
    rewrite Ha. rewrite Ha in Hb. simpl in Hb.
    rewrite (py_compare_self _ _ _ E), (py_compare_self _ _ _ Ha). done. }
  destruct (Nat.lt_trichotomy i j) as [ Hij | [ -> | Hji ] ].
  - by rewrite (Hlt i j a b x y).
  - assert (a = b) as <- by congruence. assert (x = y) as <- by congruence.
    destruct j as [ | j ].
    + destruct (lookup_lt_is_Some_2 l 1) as [c Hc]; [ lia | ].
      destruct (StronglySorted_lookup _ _ 0 1 a c Hs)
        as (x' & z & Hx' & Hz & Hle); [ lia | done | done | ].
      assert (x' = x) as -> by congruence. by apply (Hflip x z).
    + destruct (lookup_lt_is_Some_2 l 0) as [c Hc]; [ lia | ].
      destruct (StronglySorted_lookup _ _ 0 (S j) c a Hs)
        as (z & x' & Hz & Hx' & Hle); [ lia | done | done | ].
      assert (x' = x) as -> by congruence. by apply (Hflip z x).
  - by apply (Hflip y x), (Hlt j i b a).
Qed.
End stable_unique.

(** The sort of the documents that [f] selects. *)
Lemma merge_sort_selection (f : document → bool) (array out : list document)
    (param : string) :
  merge_sort array param = OK out →
  merge_sort (List.filter f array) param = OK (List.filter f out).
Proof.
  intros Es.
  pose proof (merge_sort_perm _ _ _ Es) as Hperm.
  pose proof (merge_sort_sorted _ _ _ Es) as Hsorted.
  destruct (decide (length array < 2)%nat) as [ Hshort | Hlong ].
  { rewrite merge_sort_short in Es by done. injection Es as <-.
    apply merge_sort_short.
    pose proof (List.filter_length_le f array). lia. }
  assert (2 ≤ length out)%nat as Hlen by (rewrite Hperm; lia).
  destruct (merge_sort (List.filter f array) param) as [ out' | e ] eqn:Ef.
  - f_equal. apply (sorted_stable_unique param).
    + rewrite (merge_sort_perm _ _ _ Ef). by apply filter_perm.
    + by eapply merge_sort_sorted.
    + by apply StronglySorted_filter.
    + intros v. rewrite (merge_sort_stable _ _ _ v Ef).
      rewrite !(filter_comm (same_key param v) f).
      by rewrite (merge_sort_stable _ _ _ v Es).
  - exfalso. apply merge_sort_raise in Ef
      as [ (_ & d & [Hd _]%filter_elem_of & Hnone)
         | (_ & a & b & x & y & [Ha _]%filter_elem_of & [Hb _]%filter_elem_of
              & Hx & Hy & Hc) ].
    + destruct (merge_sort_OK_keys param array out) with (d := d) as [x Hx];
        [ lia | done | done | congruence ].
    + rewrite <- Hperm in Ha, Hb.
      by apply (sorted_comparable param out a b x y).
Qed.

(** X6: sorting a selection of the documents gives the selection of the
    sorted documents: [merge_sort] on [filter f array] returns [filter f]
    of what it returns on [array]. *)
Theorem merge_sort_filter (f : document → bool) (array out : list document)
    (param : string) :
  merge_sort array param = OK out →
  merge_sort (List.filter f array) param = OK (List.filter f out).
Proof. apply merge_sort_selection. Qed.

(** ** [get_one] and [get] on the same query *)

Section first_of_get.
Context `{!Runtime, !Codec}.

Lemma linear_search_collect docs filters out :
  linear_collect docs filters = OK out →
  linear_search docs filters =
  OK (match out with [] => PyNone | d :: _ => Doc d end).
Proof.
  revert out. induction docs as [ | i docs IH ]; simpl; intros out.
  { by intros [= <-]. }
  destruct (match_filters i filters) as [ matches | ]; [ | done ].
  destruct (linear_collect docs filters) as [ output | ]; [ | done ].
  intros [= <-]. destruct matches; [ done | ]. by apply IH.
Qed.

Lemma linear_collect_perm docs docs' filters out :
  docs' ≡ₚ docs →
  linear_collect docs filters = OK out →
  linear_collect docs' filters = OK (List.filter (passes filters) docs').
Proof.
  intros Hperm Hc%linear_collect_defined.
  apply linear_collect_total. by rewrite Hperm.
Qed.

(** X7: off the fast path, whenever [get_one] and [get] both return on
    the same filters and [sortby], [get_one] returns the first document of
    what [get] returns, and [None] when that is empty.  Without a [sortby],
    [get_one] returns whenever [get] does. *)
Theorem get_one_first_of_get filters sortby self out :
  fast_path filters sortby = false →
  group.get filters sortby self = OK out →
  (∀ r, group.get_one filters sortby self = OK r →
     r = match out with [] => PyNone | d :: _ => Doc d end) ∧
  (truthy sortby = false →
   group.get_one filters sortby self =
   OK (match out with [] => PyNone | d :: _ => Doc d end)).
Proof.
  intros Hfast. rewrite (get_one_general_eq filters sortby self Hfast).
  unfold group.get.
  destruct (group.load_docs self) as [ docs | ]; [ | done ].
  destruct (linear_collect docs filters) as [ output | ] eqn:Ec; [ | done ].
  destruct (truthy sortby).
  - intros Eo. split; [ | done ]. intros r.
    destruct (merge_sort docs (default EmptyString sortby))
      as [ sorted | ] eqn:Es; [ | done ].
    pose proof (linear_collect_perm docs sorted filters output
                  (merge_sort_perm _ _ _ Es) Ec) as Ec'.
    rewrite (linear_search_collect _ _ _ Ec'). intros [= <-].
    apply linear_collect_OK in Ec as ->.
    rewrite (merge_sort_selection (passes filters) docs sorted _ Es) in Eo.
    by injection Eo as <-.
  - intros [= <-]. rewrite (linear_search_collect _ _ _ Ec).
    split; [ by intros r [= <-] | done ].
Qed.
End first_of_get.

(** ** Removing by equality: counting *)

Lemma py_eq_congr_l a b c : py_eq a b = true → py_eq a c = py_eq b c.
Proof. intros E%py_eq_iff. unfold py_eq. by rewrite E. Qed.

Lemma list_remove_length x docs out :
  list_remove x docs = OK out → length docs = S (length out).
Proof.
  intros (pre & d & post & -> & -> & _)%list_remove_OK.
  rewrite !length_app. simpl. lia.
Qed.

Lemma list_remove_count x docs out y :
  list_remove (VDict x) docs = OK out →
  length (List.filter (λ i, py_eq (VDict i) (VDict y)) docs) =
  (length (List.filter (λ i, py_eq (VDict i) (VDict y)) out) +
   (if py_eq (VDict x) (VDict y) then 1 else 0))%nat.
Proof.
  intros (pre & d & post & -> & -> & Hd & _)%list_remove_OK.
  rewrite !List.filter_app, !length_app. simpl.
  rewrite (py_eq_congr_l _ _ (VDict y) Hd).
  destruct (py_eq (VDict x) (VDict y)); simpl; lia.
Qed.

Lemma list_remove_present x docs :
  List.filter (λ i, py_eq (VDict i) x) docs ≠ [] →
  ∃ out, list_remove x docs = OK out.
Proof.
  induction docs as [ | d docs IH ]; simpl; [ done | ].
  destruct (py_eq (VDict d) x); [ by eexists | ].
  intros [out ->]%IH. by eexists.
Qed.

(** Removing, one after the other, documents that are in the list often
    enough succeeds, and removes one document for each. *)
Lemma list_remove_each_total ms docs :
  (∀ y, length (List.filter (λ i, py_eq (VDict i) (VDict y)) ms) ≤
        length (List.filter (λ i, py_eq (VDict i) (VDict y)) docs))%nat →
  ∃ out, list_remove_each ms docs = OK out ∧
         (length out + length ms = length docs)%nat.
Proof.
  revert docs. induction ms as [ | m ms IH ]; intros docs Hcount.
  { exists docs. simpl. split; [ done | lia ]. }
  destruct (list_remove_present (VDict m) docs) as [out1 H1].
  { specialize (Hcount m). simpl in Hcount. rewrite py_eq_refl in Hcount.
    simpl in Hcount. intros E. rewrite E in Hcount. simpl in Hcount. lia. }
  destruct (IH out1) as (out & Hout & Hlen).
  { intros y. specialize (Hcount y).
    rewrite (list_remove_count m docs out1 y H1) in Hcount.
    simpl in Hcount. destruct (py_eq (VDict m) (VDict y)); simpl in *; lia. }
  exists out. simpl. rewrite H1. split; [ done | ].
  apply list_remove_length in H1. simpl. lia.
Qed.

Lemma list_remove_each_selection (f : document → bool) docs :
  ∃ out, list_remove_each (List.filter f docs) docs = OK out ∧
         (length out + length (List.filter f docs) = length docs)%nat.
Proof.
  apply list_remove_each_total. intros y.
  rewrite filter_comm. apply List.filter_length_le.
Qed.

(** ** Every mutation as one step on the stored sequence *)

Section run_facts.
Context `{!Runtime, !Codec}.

Local Ltac unfold_M :=
  unfold group.load_docs, group.bind, group.ask, group.lift, group.ret,
    group.if_preLoad, group.data_append, group.data_extend,
    group.write_file, group.data_remove, group.read_file in *.

(** On a group whose file and in-memory copy agree, a mutation either
    completes, and then the file and the copy both hold [stored_after], or
    raises, and then nothing has changed. *)
Lemma run_in_sync op self docs :
  in_sync self docs →
  run op self =
  match stored_after op self docs with
  | OK docs' =>
      (OK (), Group (preLoad self)
                (if preLoad self then docs' else data self)
                (encrypt_dumps docs'))
  | Raise e => (Raise e, self)
  end.
Proof.
  intros Hsync.
  destruct op as [ D more | ds | filters nValues | filters nValues
                 | filters | filters ]; simpl.
  - destruct Hsync as [Hfile Hdata]. rewrite insert_run. unfold discard.
    destruct self as [ [ | ] dat fl ]; simpl in *; rewrite Hfile; simpl;
      [ by rewrite Hdata | done ].
  - destruct Hsync as [Hfile Hdata]. unfold group.insert_many. unfold_M.
    unfold discard.
    destruct self as [ [ | ] dat fl ]; simpl in *; rewrite Hfile; simpl;
      [ by rewrite Hdata | done ].
  - unfold group.update_one. unfold group.bind at 1. unfold group.ask at 1.
    destruct (group.get_one filters None self) as [ [ found | | ] | e ];
      try done.
    destruct Hsync as [Hfile Hdata]. unfold_M.
    destruct self as [ [ | ] dat fl ]; simpl in *.
    + rewrite Hdata by done.
      destruct (list_remove (VDict found) docs) as [ out | e ] eqn:Hrm;
        [ | done ].
      simpl. by rewrite Hfile, Hrm.
    + rewrite Hfile.
      by destruct (list_remove (VDict found) docs) as [ out | e ].
  - pose proof (get_OK filters self docs) as Hget.
    unfold group.update. unfold group.bind at 1. unfold group.ask at 1.
    destruct (group.get filters None self) as [ matched | e ]; [ | done ].
    specialize (Hget matched Hsync eq_refl) as ->.
    destruct (list_remove_each_selection (passes filters) docs)
      as (out & Hout & _).
    rewrite Hout. destruct Hsync as [Hfile Hdata].
    unfold group.bind at 1. unfold group.if_preLoad.
    destruct self as [ [ | ] dat fl ]; simpl in *.
    + rewrite Hdata in * by done. unfold group.bind at 1.
      rewrite (data_remove_each_OK _ _ out) by done.
      unfold_M. simpl. by rewrite Hfile, Hout.
    + unfold_M. simpl. by rewrite Hfile, Hout.
  - unfold group.remove_one. unfold group.bind at 1. unfold group.ask at 1.
    destruct (group.get_one filters None self) as [ found | e ]; [ | done ].
    destruct Hsync as [Hfile Hdata]. unfold_M.
    destruct self as [ [ | ] dat fl ]; simpl in *.
    + rewrite Hdata by done.
      destruct (list_remove (found_val found) docs) as [ out | e ] eqn:Hrm;
        [ | done ].
      simpl. by rewrite Hfile, Hrm.
    + rewrite Hfile.
      by destruct (list_remove (found_val found) docs) as [ out | e ].
  - pose proof (get_OK filters self docs) as Hget.
    unfold group.remove. unfold group.bind at 1. unfold group.ask at 1.
    destruct (group.get filters None self) as [ matched | e ]; [ | done ].
    specialize (Hget matched Hsync eq_refl) as ->.
    destruct (list_remove_each_selection (passes filters) docs)
      as (out & Hout & _).
    rewrite Hout. destruct Hsync as [Hfile Hdata].
    unfold group.bind at 1. unfold group.if_preLoad.
    destruct self as [ [ | ] dat fl ]; simpl in *.
    + rewrite Hdata in * by done.
      rewrite (data_remove_each_OK _ _ out) by done.
      unfold_M. simpl. by rewrite Hfile, Hout.
    + unfold_M. simpl. by rewrite Hfile, Hout.
Qed.
End run_facts.

(** ** What a mutation leaves behind *)

Section run_theorems.
Context `{!Runtime, !Codec}.

Lemma in_sync_after self docs docs' :
  in_sync self docs →
  in_sync (Group (preLoad self)
             (if preLoad self then docs' else data self)
             (encrypt_dumps docs')) docs'.
Proof.
  intros _. split; simpl; [ apply decrypt_encrypt | ].
  by intros ->.
Qed.

Lemma list_remove_member d docs :
  d ∈ docs → ∃ out, list_remove (VDict d) docs = OK out.
Proof.
  intros Hd. apply list_remove_present. intros Hnil.
  assert (d ∈ List.filter (λ i, py_eq (VDict i) (VDict d)) docs) as Hin.
  { apply list_elem_of_In, List.filter_In.
    split; [ by apply list_elem_of_In | apply py_eq_refl ]. }
  rewrite Hnil in Hin. by apply elem_of_nil in Hin.
Qed.

Lemma get_one_member filters self docs found :
  in_sync self docs →
  group.get_one filters None self = OK (Doc found) → found ∈ docs.
Proof.
  intros Hsync (docs0 & Hload & Hin & _)%get_one_Doc.
  rewrite (in_sync_load _ _ Hsync) in Hload. by injection Hload as <-.
Qed.

(** X8: on a group whose file and in-memory copy agree, a mutation that
    starts with a query raises only in its first steps, and has then
    changed neither the file nor the copy.  [update_one] raises exactly
    what its [get_one] raises, and [AttributeError] when [get_one] returned
    [False] or [None]; [remove_one] likewise, with the [ValueError] of
    [list.remove]; [update] and [remove] raise exactly what their [get]
    raises.  The write of the file is one step that succeeds here
    ([write_file]): a failure inside it is not covered. *)
Theorem mutation_raises_unchanged self docs filters nValues e self' :
  in_sync self docs →
  (group.update_one filters nValues self = (Raise e, self') ↔
   self' = self ∧
   (group.get_one filters None self = Raise e ∨
    (e = AttributeError ∧
     (group.get_one filters None self = OK PyFalse ∨
      group.get_one filters None self = OK PyNone)))) ∧
  (group.update filters nValues self = (Raise e, self') ↔
   self' = self ∧ group.get filters None self = Raise e) ∧
  (group.remove_one filters self = (Raise e, self') ↔
   self' = self ∧
   (group.get_one filters None self = Raise e ∨
    (e = ValueError NotInList ∧
     (group.get_one filters None self = OK PyFalse ∨
      group.get_one filters None self = OK PyNone)))) ∧
  (group.remove filters self = (Raise e, self') ↔
   self' = self ∧ group.get filters None self = Raise e).
Proof.
  intros Hsync. split_and!.
  - pose proof (run_in_sync (UpdateOne filters nValues) self docs Hsync)
      as Hrun.
    simpl in Hrun. rewrite Hrun. clear Hrun.
    destruct (group.get_one filters None self) as [ [ found | | ] | e' ]
      eqn:Eg; simpl.
    + destruct (list_remove_member found docs) as [out ->];
        [ by eapply get_one_member | ].
      split; [ done | ]. by intros [_ [ ? | [_ [ ? | ? ] ] ] ].
    + split.
      * intros Heq.
        assert (e = AttributeError ∧ self' = self) as [-> ->]
          by (split; congruence).
        split; [ done | ]. right. split; [ done | by left ].
      * by intros [-> [ ? | [-> _] ] ].
    + split.
      * intros Heq.
        assert (e = AttributeError ∧ self' = self) as [-> ->]
          by (split; congruence).
        split; [ done | ]. right. split; [ done | by right ].
      * by intros [-> [ ? | [-> _] ] ].
    + split.
      * intros Heq.
        assert (e = e' ∧ self' = self) as [-> ->] by (split; congruence).
        split; [ done | by left ].
      * by intros [-> [ [= ->] | [_ [ ? | ? ] ] ] ].
  - pose proof (run_in_sync (Update filters nValues) self docs Hsync) as Hrun.
    simpl in Hrun. split.
    + intros Hup. rewrite Hup in Hrun. unfold discard in Hrun.
      simpl in Hrun. revert Hrun.
      pose proof (get_OK filters self docs) as Hget.
      destruct (group.get filters None self) as [ matched | e' ]; simpl.
      * specialize (Hget matched Hsync eq_refl) as ->.
        by destruct (list_remove_each_selection (passes filters) docs)
          as (out & -> & _).
      * intros Heq. split; congruence.
    + intros [-> Hget]. unfold group.update.
      unfold group.bind at 1. unfold group.ask at 1. by rewrite Hget.
  - pose proof (run_in_sync (RemoveOne filters) self docs Hsync) as Hrun.
    simpl in Hrun. rewrite Hrun. clear Hrun.
    destruct (group.get_one filters None self) as [ [ found | | ] | e' ]
      eqn:Eg; cbv beta iota.
    + simpl. destruct (list_remove_member found docs) as [out ->];
        [ by eapply get_one_member | ].
      split; [ done | ]. by intros [_ [ ? | [_ [ ? | ? ] ] ] ].
    + rewrite (list_remove_scalar PyFalse) by (by left). split.
      * intros Heq.
        assert (e = ValueError NotInList ∧ self' = self) as [-> ->]
          by (split; congruence).
        split; [ done | ]. right. split; [ done | by left ].
      * by intros [-> [ ? | [-> _] ] ].
    + rewrite (list_remove_scalar PyNone) by (by right). split.
      * intros Heq.
        assert (e = ValueError NotInList ∧ self' = self) as [-> ->]
          by (split; congruence).
        split; [ done | ]. right. split; [ done | by right ].
      * by intros [-> [ ? | [-> _] ] ].
    + split.
      * intros Heq.
        assert (e = e' ∧ self' = self) as [-> ->] by (split; congruence).
        split; [ done | by left ].
      * by intros [-> [ [= ->] | [_ [ ? | ? ] ] ] ].
  - pose proof (run_in_sync (Remove filters) self docs Hsync) as Hrun.
    simpl in Hrun. split.
    + intros Hup. rewrite Hup in Hrun. unfold discard in Hrun.
      simpl in Hrun. revert Hrun.
      pose proof (get_OK filters self docs) as Hget.
      destruct (group.get filters None self) as [ matched | e' ]; simpl.
      * specialize (Hget matched Hsync eq_refl) as ->.
        by destruct (list_remove_each_selection (passes filters) docs)
          as (out & -> & _).
      * intros Heq. split; congruence.
    + intros [-> Hget]. unfold group.remove.
      unfold group.bind at 1. unfold group.ask at 1. by rewrite Hget.
Qed.

(** X9: a group opened with [preLoad] ([fetch_data] has run) answers every
    query and carries out every mutation as the same group opened without
    it does: same result or exception, same documents in the file
    afterwards. *)
Theorem preLoad_transparent self hot :
  preLoad self = true →
  group.fetch_data self = (OK (), hot) →
  let cold := Group false (data self) (file self) in
  (∀ filters sortby,
     group.get_one filters sortby hot = group.get_one filters sortby cold ∧
     group.get filters sortby hot = group.get filters sortby cold) ∧
  (∀ op, (run op hot).1 = (run op cold).1 ∧
         decrypt_loads (file (run op hot).2) =
         decrypt_loads (file (run op cold).2)).
Proof.
  intros Hpl. unfold group.fetch_data, group.read_file.
  destruct (decrypt_loads (file self)) as [ docs | ] eqn:Hfile; [ | done ].
  cbv beta iota zeta. intros [= <-].
  set (cold := Group false (data self) (file self)). rewrite Hpl.
  set (hot := Group true docs (file self)).
  assert (in_sync hot docs) as Hhot by done.
  assert (in_sync cold docs) as Hcold by done.
  assert (∀ filters sortby,
            group.get_one filters sortby hot =
            group.get_one filters sortby cold ∧
            group.get filters sortby hot = group.get filters sortby cold)
    as Hquery.
  { intros filters sortby. unfold group.get_one, group.get.
    by rewrite (in_sync_load hot docs Hhot), (in_sync_load cold docs Hcold). }
  split; [ done | ]. intros op.
  rewrite (run_in_sync op hot docs Hhot), (run_in_sync op cold docs Hcold).
  assert (stored_after op hot docs = stored_after op cold docs) as ->.
  { destruct op as [ D more | ds | filters nValues | filters nValues
                   | filters | filters ]; simpl; try done;
      destruct (Hquery filters None) as [Hone Hall]; by rewrite ?Hone, ?Hall. }
  by destruct (stored_after op cold docs).
Qed.

(** X10: how many documents a group whose file and in-memory copy agree
    holds after a mutation that completes: one more after [insert], as many
    more as were given after [insert_many], as many as before after
    [update_one] and [update], one less after [remove_one], and less by
    the number of documents passing the filters after [remove]. *)
Theorem mutation_document_count op self docs self' :
  in_sync self docs →
  run op self = (OK (), self') →
  ∃ docs', in_sync self' docs' ∧
    length docs' =
    match op with
    | Insert _ _ => S (length docs)
    | InsertMany data => (length docs + length data)%nat
    | UpdateOne _ _ | Update _ _ => length docs
    | RemoveOne _ => (length docs - 1)%nat
    | Remove filters =>
        (length docs - length (List.filter (passes filters) docs))%nat
    end.
Proof.
  intros Hsync. rewrite (run_in_sync op self docs Hsync).
  destruct (stored_after op self docs) as [ docs' | ] eqn:Hafter; [ | done ].
  intros [= <-]. exists docs'. split; [ by eapply in_sync_after | ].
  destruct op as [ D more | ds | filters nValues | filters nValues
                 | filters | filters ]; simpl in Hafter.
  - injection Hafter as <-. rewrite length_app. simpl. lia.
  - injection Hafter as <-. by rewrite length_app.
  - destruct (group.get_one filters None self) as [ r | ]; [ | done ].
    destruct (copy r); [ | done ]. simpl in Hafter.
    destruct (list_remove (found_val r) docs) as [ out | ] eqn:Hrm; [ | done ].
    injection Hafter as <-. apply list_remove_length in Hrm.
    rewrite length_app. simpl. lia.
  - pose proof (get_OK filters self docs) as Hget.
    destruct (group.get filters None self) as [ matched | ]; [ | done ].
    specialize (Hget matched Hsync eq_refl) as ->.
    destruct (list_remove_each_selection (passes filters) docs)
      as (out & Hout & Hlen).
    rewrite Hout in Hafter. injection Hafter as <-.
    rewrite length_app, length_fmap. lia.
  - destruct (group.get_one filters None self) as [ r | ]; [ | done ].
    apply list_remove_length in Hafter. lia.
  - pose proof (get_OK filters self docs) as Hget.
    destruct (group.get filters None self) as [ matched | ]; [ | done ].
    specialize (Hget matched Hsync eq_refl) as ->.
    destruct (list_remove_each_selection (passes filters) docs)
      as (out & Hout & Hlen).
    rewrite Hout in Hafter. injection Hafter as <-. lia.
Qed.
End run_theorems.

(** ** [remove] and [remove_one] *)

Section remove_theorems.
Context `{!Runtime, !Codec}.

Local Ltac unfold_M :=
  unfold group.load_docs, group.bind, group.ask, group.lift, group.ret,
    group.if_preLoad, group.data_append, group.data_extend,
    group.write_file, group.data_remove, group.read_file in *.

Lemma remove_run filters self docs :
  in_sync self docs →
  group.remove filters self =
  match stored_after (Remove filters) self docs with
  | OK docs' =>
      (OK (length (List.filter (passes filters) docs)),
       Group (preLoad self) (if preLoad self then docs' else data self)
         (encrypt_dumps docs'))
  | Raise e => (Raise e, self)
  end.
Proof.
  intros Hsync. simpl.
  pose proof (get_OK filters self docs) as Hget.
  unfold group.remove. unfold group.bind at 1. unfold group.ask at 1.
  destruct (group.get filters None self) as [ matched | e ]; [ | done ].
  specialize (Hget matched Hsync eq_refl) as ->.
  destruct (list_remove_each_selection (passes filters) docs)
    as (out & Hout & _).
  rewrite Hout. destruct Hsync as [Hfile Hdata].
  unfold group.bind at 1. unfold group.if_preLoad.
  destruct self as [ [ | ] dat fl ]; simpl in *.
  - rewrite Hdata in * by done.
    rewrite (data_remove_each_OK _ _ out) by done.
    unfold_M. simpl. by rewrite Hfile, Hout.
  - unfold_M. simpl. by rewrite Hfile, Hout.
Qed.

Lemma get_plain_defined filters self docs :
  in_sync self docs → plain_filters filters →
  group.get filters None self = OK (List.filter (passes filters) docs).
Proof.
  intros Hsync Hplain. unfold group.get.
  rewrite (in_sync_load _ _ Hsync). cbn [truthy].
  rewrite linear_collect_total; [ done | ].
  apply Forall_forall. intros d _. by apply match_filters_plain.
Qed.

Lemma filter_filter_negb {A} (f : A → bool) (l : list A) :
  List.filter f (List.filter (λ x, negb (f x)) l) = [].
Proof.
  apply filter_none, Forall_forall. intros x [_ Hx]%filter_elem_of.
  by destruct (f x).
Qed.

(** X11: [remove] on a group whose file and in-memory copy agree.  The
    number it returns is the number of documents that pass the filters.
    When stored documents that are [==] pass the filters alike, what is
    left is the documents that do not pass, in their order, and a [get] or
    a second [remove] on the same filters finds nothing.  With plain
    filters [remove] does not raise. *)
Theorem remove_removes_matches self docs filters :
  in_sync self docs →
  (∀ n self', group.remove filters self = (OK n, self') →
     n = length (List.filter (passes filters) docs) ∧
     ((∀ d d', d ∈ docs → d' ∈ docs → py_eq (VDict d) (VDict d') = true →
         passes filters d = passes filters d') →
      in_sync self' (List.filter (λ d, negb (passes filters d)) docs) ∧
      group.get filters None self' = OK [] ∧
      ∃ self'', group.remove filters self' = (OK 0%nat, self'') ∧
        in_sync self'' (List.filter (λ d, negb (passes filters d)) docs))) ∧
  (plain_filters filters →
   ∃ n self', group.remove filters self = (OK n, self')).
Proof.
  intros Hsync. rewrite (remove_run filters self docs Hsync). split.
  - intros n self'.
    destruct (stored_after (Remove filters) self docs) as [ docs' | ] eqn:Ha;
      [ | done ].
    intros [= <- <-]. split; [ done | ]. intros Hsame.
    simpl in Ha. pose proof (get_OK filters self docs) as Hget.
    destruct (group.get filters None self) as [ matched | ] eqn:Eg; [ | done ].
    specialize (Hget matched Hsync eq_refl) as ->.
    rewrite (list_remove_each_filter (passes filters) docs Hsame) in Ha.
    injection Ha as <-.
    set (kept := List.filter (λ d, negb (passes filters d)) docs).
    set (self' := Group _ _ _).
    assert (in_sync self' kept) as Hsync' by by eapply in_sync_after.
    assert (group.get filters None self' = OK []) as Hget'.
    { unfold group.get. rewrite (in_sync_load _ _ Hsync'). cbn [truthy].
      rewrite linear_collect_total.
      - unfold kept. by rewrite filter_filter_negb.
      - unfold group.get in Eg. rewrite (in_sync_load _ _ Hsync) in Eg.
        cbn [truthy] in Eg.
        destruct (linear_collect docs filters) eqn:Ec; [ | done ].
        apply linear_collect_defined in Ec. rewrite Forall_forall in *.
        intros d [Hd _]%filter_elem_of. by apply Ec. }
    split; [ done | ]. split; [ done | ].
    rewrite (remove_run filters self' kept Hsync'). simpl. rewrite Hget'.
    simpl. unfold kept at 1 2. rewrite filter_filter_negb. simpl.
    eexists. split; [ done | ].
    split; simpl; [ apply decrypt_encrypt | by intros -> ].
  - intros Hplain. simpl.
    rewrite (get_plain_defined filters self docs Hsync Hplain).
    destruct (list_remove_each_selection (passes filters) docs)
      as (out & -> & _).
    by eexists _, _.
Qed.

Lemma linear_search_first docs filters found :
  linear_search docs filters = OK (Doc found) →
  ∃ pre post, docs = pre ++ found :: post ∧
    Forall (λ i, match_filters i filters = OK false) pre ∧
    match_filters found filters = OK true.
Proof.
  induction docs as [ | i docs IH ]; simpl; [ done | ].
  destruct (match_filters i filters) as [ [ | ] | ] eqn:E; [ | | done ].
  - intros [= <-]. by exists [], docs.
  - intros (pre & post & -> & Hpre & Hfound)%IH.
    exists (i :: pre), post. split; [ done | ].
    split; [ by constructor | done ].
Qed.

(** X12: [remove_one] on a group whose file and in-memory copy agree, when
    stored documents that are [==] pass the filters alike: it takes
    exactly one document out, and that document passes the filters; off
    the fast path it is the first stored document that passes. *)
Theorem remove_one_removes_match self docs filters self' :
  in_sync self docs →
  (∀ d d', d ∈ docs → d' ∈ docs → py_eq (VDict d) (VDict d') = true →
     passes filters d = passes filters d') →
  group.remove_one filters self = (OK (), self') →
  ∃ pre d post, docs = pre ++ d :: post ∧
    passes filters d = true ∧
    in_sync self' (pre ++ post) ∧
    (fast_path filters None = false →
     Forall (λ i, passes filters i = false) pre).
Proof.
  intros Hsync Hsame.
  pose proof (run_in_sync (RemoveOne filters) self docs Hsync) as Hrun.
  simpl in Hrun. rewrite Hrun. clear Hrun.
  destruct (group.get_one filters None self) as [ r | ] eqn:Eg; [ | done ].
  simpl. destruct (list_remove (found_val r) docs) as [ out | ] eqn:Hrm;
    [ | done ].
  intros [= <-].
  destruct r as [ found | | ];
    [ | by rewrite list_remove_scalar in Hrm; [ | left ]
      | by rewrite list_remove_scalar in Hrm; [ | right ] ].
  simpl in Hrm.
  destruct (get_one_Doc _ _ _ Eg) as (docs0 & Hload & Hin & Hpass).
  rewrite (in_sync_load _ _ Hsync) in Hload. injection Hload as <-.
  apply list_remove_OK in Hrm as (pre & d & post & -> & -> & Hd & Hpre).
  assert (passes filters found = true) as Hfound
    by (unfold passes; by rewrite Hpass).
  assert (passes filters d = true) as Hpd.
  { rewrite <- Hfound. apply Hsame; [ | done | done ].
    apply elem_of_app. right. apply list_elem_of_here. }
  exists pre, d, post. split; [ done | ]. split; [ done | ].
  split; [ by eapply in_sync_after | ].
  intros Hfast. rewrite (get_one_general_eq _ _ _ Hfast) in Eg.
  rewrite (in_sync_load _ _ Hsync) in Eg. cbn [truthy] in Eg.
  apply linear_search_first in Eg as (pre' & post' & Heq & Hpre' & _).
  assert (Forall (λ i, passes filters i = false) pre') as Hnp.
  { eapply Forall_impl; [ exact Hpre' | ]. intros i Hi. unfold passes.
    by rewrite Hi. }
  apply app_eq_inv in Heq as [ (k & -> & Hk) | (k & -> & Hk) ].
  - destruct k as [ | k0 k ]; [ by rewrite app_nil_r | ].
    injection Hk as <- _. apply Forall_app in Hpre as [_ Hpre].
    apply Forall_cons in Hpre as [Hpre _]. by rewrite py_eq_refl in Hpre.
  - destruct k as [ | k0 k ]; [ by rewrite app_nil_r in Hnp | ].
    injection Hk as <- _. apply Forall_app in Hnp as [_ Hnp].
    apply Forall_cons in Hnp as [Hnp _]. congruence.
Qed.
End remove_theorems.

(** ** [insert] and [insert_many] *)

Section insert_theorems.
Context `{!Runtime, !Codec}.

Local Ltac unfold_M :=
  unfold group.load_docs, group.bind, group.ask, group.lift, group.ret,
    group.if_preLoad, group.data_append, group.data_extend,
    group.write_file, group.data_remove, group.read_file in *.

Lemma insert_in_sync D moreData self docs :
  in_sync self docs →
  ∃ self', group.insert D moreData self = (OK true, self') ∧
    in_sync self' (docs ++ [moreData ∪ D]).
Proof.
  intros [Hfile Hdata]. rewrite insert_run. simpl. rewrite Hfile.
  eexists. split; [ done | ].
  split; simpl; [ apply decrypt_encrypt | ]. intros Hpl. rewrite Hpl.
  by rewrite Hdata.
Qed.

Lemma insert_many_in_sync ds self docs :
  in_sync self docs →
  group.insert_many ds self =
  (OK true, Group (preLoad self)
              (if preLoad self then docs ++ ds else data self)
              (encrypt_dumps (docs ++ ds))).
Proof.
  intros [Hfile Hdata]. unfold group.insert_many. unfold_M.
  destruct self as [ [ | ] dat fl ]; simpl in *; rewrite Hfile;
    [ by rewrite Hdata | done ].
Qed.

(** X13: [insert] and then [get], on a group whose file and in-memory
    copy agree.  [insert] completes and stores the new document last.  A
    [get] afterwards goes through the earlier documents and then the new
    one: it raises what the [get] before the [insert] raised; otherwise it
    raises what the filters raise on the new document; otherwise it
    returns what the [get] before returned, followed by the new document
    if it passes the filters.  In particular a [get] on one field of the
    new document, with the plain value it holds there, returns the new
    document, after the documents that had the value before. *)
Theorem get_after_insert self docs D moreData :
  in_sync self docs →
  ∃ self', group.insert D moreData self = (OK true, self') ∧
    in_sync self' (docs ++ [moreData ∪ D]) ∧
    (∀ filters,
       group.get filters None self' =
       let* out := group.get filters None self in
       let* b := match_filters (moreData ∪ D) filters in
       OK (out ++ if b : bool then [moreData ∪ D] else [])) ∧
    (∀ field p,
       (moreData ∪ D) !! field = Some (plain_val p) →
       group.get [(field, Lit p)] None self' =
       OK (List.filter (passes [(field, Lit p)]) docs ++ [moreData ∪ D])).
Proof.
  intros Hsync.
  destruct (insert_in_sync D moreData self docs Hsync)
    as (self' & Hins & Hsync').
  exists self'. split; [ done | ]. split; [ done | ].
  assert (∀ filters,
            group.get filters None self' =
            let* out := group.get filters None self in
            let* b := match_filters (moreData ∪ D) filters in
            OK (out ++ if b : bool then [moreData ∪ D] else [])) as Hget.
  { intros filters. unfold group.get.
    rewrite (in_sync_load _ _ Hsync), (in_sync_load _ _ Hsync').
    cbn [truthy]. rewrite linear_collect_app. simpl.
    destruct (linear_collect docs filters) as [ out0 | ]; [ | done ].
    destruct (match_filters (moreData ∪ D) filters) as [ [ | ] | ]; done. }
  split; [ done | ]. intros field p Hfield.
  assert (plain_filters [(field, Lit p)]) as Hplain
    by (repeat constructor; by exists p).
  rewrite Hget, (get_plain_defined _ _ _ Hsync Hplain).
  simpl. unfold getitem. by rewrite Hfield, py_eq_refl.
Qed.

Lemma insert_each_in_sync ds self docs :
  in_sync self docs →
  ∃ self', insert_each ds self = (OK true, self') ∧
    in_sync self' (docs ++ ds) ∧
    preLoad self' = preLoad self ∧
    data self' = (if preLoad self then docs ++ ds else data self).
Proof.
  revert self docs. induction ds as [ | d ds IH ]; intros self docs Hsync.
  { exists self. rewrite app_nil_r. split_and!; try done.
    destruct Hsync as [_ Hdata].
    destruct (preLoad self); [ by apply Hdata | done ]. }
  simpl. unfold group.bind.
  pose proof Hsync as [Hfile Hdata].
  rewrite insert_run. simpl. rewrite Hfile. rewrite (left_id_L ∅ (∪) d).
  set (self1 := Group _ _ _).
  assert (in_sync self1 (docs ++ [d])) as Hsync1.
  { split; simpl; [ apply decrypt_encrypt | ]. intros Hpl. rewrite Hpl.
    by rewrite Hdata. }
  destruct (IH self1 (docs ++ [d]) Hsync1)
    as (self' & Hrun & Hsync' & Hpl' & Hdata').
  exists self'. rewrite <- app_assoc in *. simpl in *.
  split_and!; try done. rewrite Hdata'. by destruct (preLoad self).
Qed.

(** X14: [insert_many] on a group whose file and in-memory copy agree
    stores the documents after those already there, in the order given, as
    inserting them one at a time with [insert] does: the file decodes to
    the same documents and the in-memory copy is the same. *)
Theorem insert_many_as_inserts self docs ds :
  in_sync self docs →
  ∃ many each,
    group.insert_many ds self = (OK true, many) ∧
    insert_each ds self = (OK true, each) ∧
    in_sync many (docs ++ ds) ∧ in_sync each (docs ++ ds) ∧
    preLoad many = preLoad each ∧ data many = data each.
Proof.
  intros Hsync.
  destruct (insert_each_in_sync ds self docs Hsync)
    as (each & Heach & Hsync' & Hpl & Hdata).
  rewrite (insert_many_in_sync ds self docs Hsync).
  eexists _, each. split; [ done | ]. split; [ done | ].
  split; [ by eapply in_sync_after | ]. split; [ done | ].
  simpl. by rewrite Hpl, Hdata.
Qed.
End insert_theorems.

(** ** The comparison operators of the matcher *)

Lemma py_cmp_negb op op' x y :
  (∀ c, negb (holds op c) = holds op' c) →
  (let* c := py_cmp op x y in OK (negb c)) = py_cmp op' x y.
Proof.
  intros Hop. rewrite !py_cmp_compare.
  destruct (py_compare x y); [ | done ]. simpl. by rewrite Hop.
Qed.

Section operator_facts.
Context `{!Runtime}.

(** X15: the matcher tests each ordering operator through the negation of
    the opposite comparison; the outcome is that of the comparison itself,
    the [TypeError] of values that cannot be ordered included.  ["__ne"]
    does not raise. *)
Theorem matchDocs_comparisons (value v : val) :
  matchDocs value (Ops [("__ne", OVal v)]) = OK (negb (py_eq value v)) ∧
  matchDocs value (Ops [("__gt", OVal v)]) = py_cmp OpGt value v ∧
  matchDocs value (Ops [("__lt", OVal v)]) = py_cmp OpLt value v ∧
  matchDocs value (Ops [("__lte", OVal v)]) = py_cmp OpLe value v ∧
  matchDocs value (Ops [("__gte", OVal v)]) = py_cmp OpGe value v.
Proof.
  assert (∀ r : exc bool,
            (let* passed := r in if passed : bool then OK true else OK false)
            = r) as Hid by (by intros [ [ | ] | ]).
  split_and!; simpl; unfold match_operator; simpl.
  - by destruct (py_eq value v).
  - rewrite (py_cmp_negb OpLe OpGt) by (by intros []). apply Hid.
  - rewrite (py_cmp_negb OpGe OpLt) by (by intros []). apply Hid.
  - rewrite (py_cmp_negb OpGt OpLe) by (by intros []). apply Hid.
  - rewrite (py_cmp_negb OpLt OpGe) by (by intros []). apply Hid.
Qed.

(** ** The order of the operators and of the fields *)

Lemma match_operators_all value ops :
  Forall (λ io, ∃ b, match_operator value io.1 io.2 = OK b) ops →
  match_operators value ops =
  OK (forallb (λ io, accepted (match_operator value io.1 io.2)) ops).
Proof.
  induction 1 as [ | [i o] ops [b Hb] _ IH ]; [ done | ]. simpl in *.
  rewrite Hb. destruct b; simpl; [ by rewrite IH | done ].
Qed.

Lemma forallb_perm {A} (f : A → bool) (l k : list A) :
  l ≡ₚ k → forallb f l = forallb f k.
Proof.
  induction 1 as [ | a l k _ IH | a b l | l k m _ IH1 _ IH2 ]; simpl.
  - done.
  - by rewrite IH.
  - by destruct (f a), (f b).
  - by rewrite IH1.
Qed.

Lemma match_filters_all d filters :
  Forall (λ js, ∀ v, d !! js.1 = Some v → ∃ b, matchDocs v js.2 = OK b)
         filters →
  match_filters d filters =
  OK (forallb (λ js, accepted (match_filters d [js])) filters).
Proof.
  induction 1 as [ | [j spec] filters Hj _ IH ]; [ done | ]. simpl in *.
  unfold getitem. destruct (d !! j) as [ v | ] eqn:Ev; [ | done ].
  destruct (Hj v eq_refl) as [b Hb]. rewrite Hb.
  destruct b; simpl; [ by rewrite IH | done ].
Qed.

(** X16: when no operator of a filter dict raises on the value, the dict
    accepts the value exactly when each operator does, in whatever order
    the dict lists them; and so for the fields of the filters of a query
    on a document. *)
Theorem matcher_order_irrelevant :
  (∀ value ops ops',
     Forall (λ io, ∃ b, match_operator value io.1 io.2 = OK b) ops →
     ops ≡ₚ ops' →
     matchDocs value (Ops ops) = matchDocs value (Ops ops') ∧
     (matchDocs value (Ops ops) = OK true ↔
      Forall (λ io, matchDocs value (Ops [io]) = OK true) ops)) ∧
  (∀ d filters filters',
     Forall (λ js, ∀ v, d !! js.1 = Some v → ∃ b, matchDocs v js.2 = OK b)
            filters →
     filters ≡ₚ filters' →
     match_filters d filters = match_filters d filters' ∧
     (match_filters d filters = OK true ↔
      Forall (λ js, match_filters d [js] = OK true) filters)).
Proof.
  split.
  - intros value ops ops' Hdef Hperm. simpl.
    rewrite (match_operators_all value ops Hdef).
    rewrite (match_operators_all value ops') by by rewrite <- Hperm.
    split; [ by rewrite (forallb_perm _ _ _ Hperm) | ].
    rewrite Forall_forall. split.
    + intros [= Hall] [i o] Hio. rewrite forallb_forall in Hall.
      specialize (Hall (i, o) (proj1 (list_elem_of_In _ _) Hio)).
      simpl in *. by destruct (match_operator value i o) as [ [ | ] | ].
    + intros Hall. f_equal. apply forallb_forall. intros [i o] Hio.
      specialize (Hall (i, o) (proj2 (list_elem_of_In _ _) Hio)).
      simpl in *. by destruct (match_operator value i o) as [ [ | ] | ].
  - intros d filters filters' Hdef Hperm.
    rewrite (match_filters_all d filters Hdef).
    rewrite (match_filters_all d filters') by by rewrite <- Hperm.
    split; [ by rewrite (forallb_perm _ _ _ Hperm) | ].
    rewrite Forall_forall. split.
    + intros [= Hall] js Hjs. rewrite forallb_forall in Hall.
      specialize (Hall js (proj1 (list_elem_of_In _ _) Hjs)).
      change (accepted (match_filters d [js]) = true) in Hall.
      by destruct (match_filters d [js]) as [ [ | ] | ].
    + intros Hall. f_equal. apply forallb_forall. intros js Hjs.
      by rewrite (Hall js (proj2 (list_elem_of_In _ _) Hjs)).
Qed.
End operator_facts.

(** ** Queries with a [sortby] *)

Lemma merge_sort_total (sequence : list document) (key : string) :
  (∀ d, d ∈ sequence → is_Some (d !! key)) →
  (∀ a b x y, a ∈ sequence → b ∈ sequence →
     a !! key = Some x → b !! key = Some y →
     py_cmp OpLe x y ≠ Raise TypeError) →
  ∃ out, merge_sort sequence key = OK out.
Proof.
  intros Hkeys Hcmp.
  destruct (merge_sort sequence key) as [ out | e ] eqn:E; [ by exists out | ].
  apply merge_sort_raise in E
    as [ (_ & d & Hd & Hk) | (_ & a & b & x & y & Ha & Hb & Hx & Hy & Hc) ].
  - destruct (Hkeys d Hd) as [x Hx]. congruence.
  - by destruct (Hcmp a b x y).
Qed.

Section sortby_facts.
Context `{!Runtime, !Codec}.

(** X17: [sortby] in [get] and in [get_one], on the documents [docs] of
    the group.  An empty [sortby] is no [sortby].  [get] sorts what passed
    the filters: it needs the key on those documents only, and returns them
    in ascending order of the key, documents with equal keys in their
    stored order.  [get_one] sorts before it filters: with two documents or
    more it raises as soon as one of them, passing or not, lacks the key;
    the document it returns passes the filters and no other passing
    document has a smaller key. *)
Theorem sortby_queries filters self docs s :
  group.load_docs self = OK docs →
  (group.get filters (Some EmptyString) self = group.get filters None self ∧
   group.get_one filters (Some EmptyString) self =
   group.get_one filters None self) ∧
  (s ≠ EmptyString →
   (∀ matched,
      group.get filters None self = OK matched →
      (∀ d, d ∈ matched → is_Some (d !! s)) →
      (∀ a b x y, a ∈ matched → b ∈ matched →
         a !! s = Some x → b !! s = Some y →
         py_cmp OpLe x y ≠ Raise TypeError) →
      ∃ out, group.get filters (Some s) self = OK out ∧
        out ≡ₚ matched ∧ StronglySorted (key_le s) out ∧
        ∀ v, List.filter (same_key s v) out =
             List.filter (same_key s v) matched) ∧
   ((2 ≤ length docs)%nat → (∃ d, d ∈ docs ∧ d !! s = None) →
    group.get_one filters (Some s) self = Raise (ValueError MissingSortKey) ∨
    group.get_one filters (Some s) self = Raise TypeError) ∧
   (∀ d, group.get_one filters (Some s) self = OK (Doc d) →
      d ∈ docs ∧ match_filters d filters = OK true ∧
      ∀ d', d' ∈ docs → passes filters d' = true → d' ≠ d →
        key_le s d d')).
Proof.
  intros Hload. split; [ done | ]. intros Hs.
  assert (truthy (Some s) = true) as Htruthy.
  { simpl. destruct (String.eqb_spec s EmptyString); done. }
  assert (fast_path filters (Some s) = false) as Hfast.
  { unfold fast_path. rewrite Htruthy.
    by destruct filters as [ | [key [ p | ops ]] [ | ] ]. }
  rewrite (get_one_general_eq filters (Some s) self Hfast).
  unfold group.get. rewrite Hload, Htruthy.
  change (default EmptyString (Some s)) with s. cbv beta iota.
  split_and!.
  - intros matched.
    destruct (linear_collect docs filters) as [ output | ]; [ | done ].
    intros [= <-] Hkeys Hcmp.
    destruct (merge_sort_total output s Hkeys Hcmp) as [out Hout].
    exists out. split; [ done | ].
    split; [ by eapply merge_sort_perm | ].
    split; [ by eapply merge_sort_sorted | ].
    intros v. by apply merge_sort_stable.
  - intros Hlen (d & Hd & Hnone).
    destruct (merge_sort docs s) as [ sorted | e ] eqn:Es.
    + destruct (merge_sort_OK_keys s docs sorted Hlen Es d Hd). congruence.
    + apply merge_sort_raise_errors in Es as [ -> | -> ];
        [ by left | by right ].
  - intros d.
    destruct (merge_sort docs s) as [ sorted | e ] eqn:Es; [ | done ].
    pose proof (merge_sort_perm _ _ _ Es) as Hperm.
    pose proof (merge_sort_sorted _ _ _ Es) as Hsorted.
    intros (pre & post & -> & Hpre & Hd)%linear_search_first.
    split; [ rewrite <- Hperm, elem_of_app; right; apply list_elem_of_here | ].
    split; [ done | ]. intros d' Hd' Hpass Hne.
    rewrite <- Hperm in Hd'.
    apply elem_of_app in Hd' as [ Hd' | Hd' ].
    { rewrite Forall_forall in Hpre. specialize (Hpre d' Hd').
      unfold passes in Hpass. by rewrite Hpre in Hpass. }
    apply elem_of_cons in Hd' as [ -> | Hd' ]; [ done | ].
    apply (StronglySorted_app_le _ (pre ++ [d]) post);
      [ by rewrite <- app_assoc | | done ].
    apply elem_of_app. right. apply list_elem_of_here.
Qed.
End sortby_facts.

(** ** [update_one] on the document it finds *)

Section update_one_facts.
Context `{!Runtime, !Codec}.

(** X18: [update_one] on a group whose file and in-memory copy agree, when
    stored documents that are [==] pass the filters alike: one document
    that passes the filters leaves its place, and its copy, with the new
    values written over its own, is stored last; off the fast path the
    document is the first stored one that passes. *)
Theorem update_one_updates_match self docs filters nValues self' :
  in_sync self docs →
  (∀ d d', d ∈ docs → d' ∈ docs → py_eq (VDict d) (VDict d') = true →
     passes filters d = passes filters d') →
  group.update_one filters nValues self = (OK (), self') →
  ∃ pre d post found, docs = pre ++ d :: post ∧
    passes filters d = true ∧
    py_eq (VDict d) (VDict found) = true ∧
    in_sync self' (pre ++ post ++ [nValues ∪ found]) ∧
    (∀ k, (nValues ∪ found) !! k =
          match nValues !! k with Some v => Some v | None => found !! k end) ∧
    (fast_path filters None = false →
     found = d ∧ Forall (λ i, passes filters i = false) pre).
Proof.
  intros Hsync Hsame.
  pose proof (run_in_sync (UpdateOne filters nValues) self docs Hsync) as Hrun.
  simpl in Hrun. rewrite Hrun. clear Hrun.
  destruct (group.get_one filters None self) as [ r | ] eqn:Eg; [ | done ].
  simpl. destruct r as [ found | | ]; [ | done | done ]. simpl.
  destruct (list_remove (VDict found) docs) as [ out | ] eqn:Hrm; [ | done ].
  intros [= <-].
  destruct (get_one_Doc _ _ _ Eg) as (docs0 & Hload & Hin & Hpass).
  rewrite (in_sync_load _ _ Hsync) in Hload. injection Hload as <-.
  apply list_remove_OK in Hrm as (pre & d & post & -> & -> & Hd & Hpre).
  assert (passes filters found = true) as Hfound
    by (unfold passes; by rewrite Hpass).
  assert (passes filters d = true) as Hpd.
  { rewrite <- Hfound. apply Hsame; [ | done | done ].
    apply elem_of_app. right. apply list_elem_of_here. }
  exists pre, d, post, found. split; [ done | ]. split; [ done | ].
  split; [ done | ].
  split; [ rewrite app_assoc; by eapply in_sync_after | ].
  split.
  { intros k. rewrite lookup_union. by destruct (nValues !! k), (found !! k). }
  intros Hfast. rewrite (get_one_general_eq _ _ _ Hfast) in Eg.
  rewrite (in_sync_load _ _ Hsync) in Eg. cbn [truthy] in Eg.
  apply linear_search_first in Eg as (pre' & post' & Heq & Hpre' & _).
  assert (Forall (λ i, passes filters i = false) pre') as Hnp.
  { eapply Forall_impl; [ exact Hpre' | ]. intros i Hi. unfold passes.
    by rewrite Hi. }
  apply app_eq_inv in Heq as [ (k & -> & Hk) | (k & -> & Hk) ].
  - destruct k as [ | k0 k ].
    + injection Hk as ->. by rewrite app_nil_r.
    + injection Hk as <- _. apply Forall_app in Hpre as [_ Hpre].
      apply Forall_cons in Hpre as [Hpre _]. by rewrite py_eq_refl in Hpre.
  - destruct k as [ | k0 k ].
    + injection Hk as ->. by rewrite app_nil_r in Hnp.
    + injection Hk as <- _. apply Forall_app in Hnp as [_ Hnp].
      apply Forall_cons in Hnp as [Hnp _]. congruence.
Qed.
End update_one_facts.

(** ** [get] on the whole group *)

Section get_facts.
Context `{!Runtime, !Codec}.

Lemma passes_plain filters d :
  plain_filters filters →
  passes filters d = true ↔
  ∀ j p, (j, Lit p) ∈ filters → same_key j (plain_val p) d = true.
Proof.
  unfold passes. induction 1 as [ | [j spec] filters [p Hp] _ IH ].
  { simpl. split; [ intros _ j p Hin; by apply elem_of_nil in Hin | done ]. }
  simpl in Hp. subst spec. simpl. unfold getitem, same_key in *.
  split.
  - intros Hall j' p' [ [= -> ->] | Hin ]%elem_of_cons.
    + destruct (d !! j) as [ v | ]; [ | done ]. rewrite py_eq_sym.
      by destruct (py_eq (plain_val p) v).
    + apply IH; [ | done ].
      destruct (d !! j) as [ v | ]; [ | done ].
      by destruct (py_eq (plain_val p) v).
  - intros Hall. pose proof (Hall j p (list_elem_of_here _ _)) as Hj.
    destruct (d !! j) as [ v | ]; [ | done ].
    rewrite py_eq_sym, Hj. apply IH. intros j' p' Hin. apply Hall.
    by apply list_elem_of_further.
Qed.

Lemma filter_sublist {A} (f : A → bool) (l : list A) :
  List.filter f l `sublist_of` l.
Proof.
  induction l as [ | a l IH ]; simpl; [ done | ].
  destruct (f a); [ by apply sublist_skip | by apply sublist_cons ].
Qed.

(** X19: [get] without a [sortby] looks at every stored document.  It
    returns exactly when the filters evaluate on each of them without an
    exception other than the [KeyError] of a missing field; one document
    on which a filter raises makes the query raise.  What it returns is
    the documents that pass, in their stored order.  With plain filters it
    always returns, and a document passes exactly when it has every field
    of the filters with a value [==] to the one given. *)
Theorem get_scans_every_document filters self docs :
  group.load_docs self = OK docs →
  ((∃ out, group.get filters None self = OK out) ↔
   Forall (λ d, ∃ b, match_filters d filters = OK b) docs) ∧
  (∀ out, group.get filters None self = OK out →
     out `sublist_of` docs ∧
     ∀ d, d ∈ out ↔ d ∈ docs ∧ match_filters d filters = OK true) ∧
  (plain_filters filters →
   ∃ out, group.get filters None self = OK out ∧
     ∀ d, d ∈ out ↔
       d ∈ docs ∧
       ∀ j p, (j, Lit p) ∈ filters → same_key j (plain_val p) d = true).
Proof.
  intros Hload. unfold group.get. rewrite Hload. cbn [truthy].
  assert (∀ out, linear_collect docs filters = OK out →
            out `sublist_of` docs ∧
            ∀ d, d ∈ out ↔ d ∈ docs ∧ match_filters d filters = OK true)
    as Hout.
  { intros out ->%linear_collect_OK. split; [ apply filter_sublist | ].
    intros d. rewrite filter_elem_of. unfold passes.
    destruct (match_filters d filters) as [ [ | ] | ];
      split; intros [? ?]; by split. }
  split_and!.
  - split.
    + intros [out Hc]. destruct (linear_collect docs filters) eqn:E; [ | done ].
      by eapply linear_collect_defined.
    + intros Hall. rewrite (linear_collect_total _ _ Hall). by eexists.
  - intros out. destruct (linear_collect docs filters) eqn:E; [ | done ].
    intros [= <-]. by apply Hout.
  - intros Hplain. rewrite linear_collect_total.
    2:{ apply Forall_forall. intros d _. by apply match_filters_plain. }
    eexists. split; [ done | ]. intros d.
    by rewrite filter_elem_of, passes_plain.
Qed.
End get_facts.

(** ** The code on concrete groups

    The examples run on [clear_codec] and [prefix_runtime]. *)

Section examples.
Local Existing Instance clear_codec.
Local Existing Instance prefix_runtime.

(** C6, as stated, at a dict whose unknown tag comes after an operator
    that already rejects the value: [matchDocs] returns [False]. *)
Lemma matchDocs_unknown_tag_not_reached :
  ("bogus" ∉ operator_tags) ∧
  matchDocs (VInt 5) (Ops [("__gt", OVal (VInt 30)); ("bogus", OVal VNull)])
  = OK false.
Proof.
  split; [ | done ].
  unfold operator_tags. rewrite !elem_of_cons, elem_of_nil.
  intros Hin. repeat destruct Hin as [ [=] | Hin ]. done.
Qed.

(** The table on [prefix_runtime]: the pattern ["^A"], and an unknown tag
    after an operator that accepts the value. *)
Lemma matchDocs_operator_table_witness :
  (matchDocs (VStr "Alice") (Ops [("__re", OVal (VStr "^A"))]) = OK true ∧
   matchDocs (VStr "bob") (Ops [("__re", OVal (VStr "^A"))]) = OK false) ∧
  matchDocs (VInt 31)
    (Ops [("__lte", OVal (VInt 40)); ("between", OVal VNull)])
  = Raise InvalidFilterError.
Proof.
  split.
  - destruct (matchDocs_operator_table (VStr "Alice"))
      as (_ & _ & _ & _ & Hre & _).
    apply (Hre "^A"); reflexivity.
  - destruct (matchDocs_operator_table (VInt 31))
      as (_ & _ & _ & _ & _ & Hunknown).
    apply (Hunknown "between" (OVal VNull) [("__lte", OVal (VInt 40))] []);
      [ | reflexivity ].
    unfold operator_tags. rewrite !elem_of_cons, elem_of_nil.
    intros Hin. repeat destruct Hin as [ [=] | Hin ]. done.
Defined.

(** C2: a group holding the single document [{"k": 1}].  The linear scan
    finds it; the fast path sorts, and [binary_search] returns [False]
    without looking at it ([l = u = 0]).  Likewise for the last of three
    documents: the bracket closes on it and it is never compared. *)
Theorem fast_path_misses_document :
  let doc : document := {[ "k" := VInt 1 ]} in
  let self := Group false [] [doc] in
  let filters := [("k", Lit (PInt 1))] in
  let docs3 : list document :=
    [ {[ "k" := VInt 1 ]}; {[ "k" := VInt 2 ]}; {[ "k" := VInt 3 ]} ] in
  let self3 := Group false [] docs3 in
  let filters3 := [("k", Lit (PInt 3))] in
  (group.get_one filters None self = OK PyFalse ∧
   linear_search [doc] filters = OK (Doc doc) ∧
   group.get filters None self = OK [doc]) ∧
  (group.get_one filters3 None self3 = OK PyFalse ∧
   linear_search docs3 filters3 = OK (Doc {[ "k" := VInt 3 ]}) ∧
   group.get filters3 None self3 = OK [ {[ "k" := VInt 3 ]} ]).
Proof. by vm_compute. Qed.

(** C3: a group holding [{"a": 1}] and [{"k": 1}], queried on ["k"].  The
    linear scan of [get] skips the document without ["k"]; the fast path of
    [get_one] sorts by ["k"] and raises. *)
Theorem fast_path_raises_on_missing_field :
  let docs : list document := [ {[ "a" := VInt 1 ]}; {[ "k" := VInt 1 ]} ] in
  let self := Group false [] docs in
  let filters := [("k", Lit (PInt 1))] in
  group.get_one filters None self = Raise (ValueError MissingSortKey) ∧
  linear_search docs filters = OK (Doc {[ "k" := VInt 1 ]}) ∧
  group.get filters None self = OK [ {[ "k" := VInt 1 ]} ].
Proof. by vm_compute. Qed.

(** C1, as stated, at a group that already holds a document with the
    same value under the field: [get_one] returns that one.  And at a
    document whose field holds a dict: as a filter the dict is read as
    operators, and ["x"] is not one. *)
Lemma insert_then_get_one_other_document :
  (let old : document := {[ "a" := VInt 1; "b" := VInt 2 ]} in
   let D : document := {[ "a" := VInt 1; "b" := VInt 3 ]} in
   let self := Group false [] [old] in
   D !! "a" = Some (VInt 1) ∧
   py_eq (VDict old) (VDict D) = false ∧
   ∃ self', group.insert D ∅ self = (OK true, self') ∧
     group.get_one [("a", Lit (PInt 1))] None self' = OK (Doc old)) ∧
  (let D : document := {[ "a" := VDict {[ "x" := VInt 1 ]} ]} in
   let self := Group false [] [] in
   D !! "a" = Some (VDict {[ "x" := VInt 1 ]}) ∧
   ∃ self', group.insert D ∅ self = (OK true, self') ∧
     group.get_one [("a", Ops [("x", OVal (VInt 1))])] None self'
     = Raise InvalidFilterError).
Proof.
  split.
  - intros old D self. split_and!; [ by vm_compute .. | ].
    exists (group.insert D ∅ self).2. split; by vm_compute.
  - intros D self. split; [ by vm_compute | ].
    exists (group.insert D ∅ self).2. split; by vm_compute.
Qed.

(** A group where [get_one] does return the inserted document. *)
Lemma insert_then_get_one_witness :
  let old : document := {[ "a" := VInt 5 ]} in
  let D : document := {[ "a" := VInt 1 ]} in
  let self := Group false [] [old] in
  let self' := Group false [] [old; D] in
  ∃ before, group.load_docs self = OK before ∧
    group.load_docs self' = OK (before ++ [∅ ∪ D]) ∧
    D ∈ before ++ [∅ ∪ D] ∧
    (∃ x, D !! "a" = Some x ∧ py_eq x (VInt 1) = true) ∧
    ((∀ d', d' ∈ before → same_key "a" (VInt 1) d' = false) → D = ∅ ∪ D).
Proof.
  intros old D self self'.
  apply (insert_then_get_one self self' D ∅ "a" (PInt 1) D); by vm_compute.
Defined.

(** A group of one document and a filter that it does not pass. *)
Lemma no_match_raises_witness :
  let self := Group false [] [ {[ "a" := VInt 1 ]} ] in
  let filters := [("a", Lit (PInt 2))] in
  (∃ e, group.update_one filters {[ "a" := VInt 3 ]} self = (Raise e, self)) ∧
  (∃ e, group.remove_one filters self = (Raise e, self)).
Proof.
  intros self filters. apply no_match_raises.
  intros docs d [= <-] ->%list_elem_of_singleton. by vm_compute.
Defined.

(** An [update] on a group with the in-memory copy enabled. *)
Lemma cache_mirror_invariant_witness :
  let docs : list document :=
    [ {[ "status" := VStr "open" ]}; {[ "status" := VStr "closed" ]} ] in
  let self := Group true docs docs in
  let op := Update [("status", Lit (PStr "open"))]
                   {[ "status" := VStr "closed" ]} in
  preLoad (run op self).2 = true ∧
  decrypt_loads (file (run op self).2) = Some (data (run op self).2).
Proof.
  intros docs self op.
  apply (cache_mirror_invariant op self); by vm_compute.
Defined.

(** C7, as stated, at an update that overwrites the filter field with a
    value the filter still accepts: the updated document is found again. *)
Lemma update_still_matching :
  let self := Group false [] [ {[ "age" := VInt 40 ]} ] in
  let filters := [("age", Ops [("__gt", OVal (VInt 30))])] in
  let nValues : document := {[ "age" := VInt 50 ]} in
  is_Some (nValues !! "age") ∧
  ∃ self', group.update filters nValues self = (OK 1%nat, self') ∧
    group.get filters None self' = OK [ {[ "age" := VInt 50 ]} ].
Proof.
  intros self filters nValues.
  split; [ by apply (bool_decide_unpack _) | ].
  exists (group.update filters nValues self).2. split; by vm_compute.
Qed.

(** Three documents with [status] ["open"] and two without: [update] returns
    3, and [get] on [status] ["open"] then returns nothing.  And an
    [update] that writes a string under a field the filter compares with a
    number: the [get] afterwards raises. *)
Lemma update_count_and_requery_witness :
  (let docs : list document :=
     [ {[ "status" := VStr "open"; "id" := VInt 1 ]};
       {[ "status" := VStr "closed"; "id" := VInt 2 ]};
       {[ "status" := VStr "open"; "id" := VInt 3 ]};
       {[ "id" := VInt 4 ]};
       {[ "status" := VStr "open"; "id" := VInt 5 ]} ] in
   let self := Group false [] docs in
   let filters := [("status", Lit (PStr "open"))] in
   let nValues : document := {[ "status" := VStr "closed" ]} in
   ∃ self', group.update filters nValues self = (OK 3%nat, self') ∧
     group.get filters None self' = OK []) ∧
  (let docs : list document := [ {[ "age" := VInt 40 ]} ] in
   let self := Group false [] docs in
   let filters := [("age", Ops [("__gt", OVal (VInt 30))])] in
   let nValues : document := {[ "age" := VStr "old" ]} in
   let self' := (group.update filters nValues self).2 in
   ∃ e, group.get filters None self' = Raise e).
Proof.
  split.
  - intros docs self filters nValues.
    destruct (update_count_and_requery self docs filters nValues)
      as (_ & _ & Hplain); [ by split | ].
    destruct Hplain as (self' & Hupdate & Hget).
    { repeat constructor. by exists (PStr "open"). }
    exists self'. split; [ exact Hupdate | ].
    apply Hget. exists "status", (PStr "open"), (VStr "closed").
    split_and!; [ apply list_elem_of_here | by vm_compute .. ].
  - intros docs self filters nValues self'.
    destruct (update_count_and_requery self docs filters nValues)
      as (_ & Hrequery & _); [ by split | ].
    destruct (Hrequery 1%nat self') as (_ & _ & Hraise);
      [ by vm_compute | | ].
    { by intros d d' ->%list_elem_of_singleton ->%list_elem_of_singleton _. }
    apply (Hraise {[ "age" := VInt 40 ]} TypeError);
      [ apply list_elem_of_here | by vm_compute .. ].
Defined.

(** C10, as stated.  For [update]: [{"a": 1} == {"a": True}], the custom
    filter accepts only the second, and [remove] drops the first; the
    document that did not match is gone and the one that matched stays
    where it was.  For [update_one]: both documents pass the filter, one
    is updated, the other stays in the stored sequence. *)
Lemma update_not_at_end :
  (let docs : list document :=
     [ {[ "a" := VInt 1 ]}; {[ "a" := VBool true ]} ] in
   let self := Group false [] docs in
   let is_True := OFun (λ v, Some (bool_decide (v = VBool true))) in
   let filters := [("a", Ops [("__cf", is_True)])] in
   List.filter (passes filters) docs = [ {[ "a" := VBool true ]} ] ∧
   ∃ self',
     group.update filters {[ "b" := VInt 2 ]} self = (OK 1%nat, self') ∧
     decrypt_loads (file self') =
     Some [ {[ "a" := VBool true ]};
            {[ "a" := VBool true; "b" := VInt 2 ]} ]) ∧
  (let docs : list document :=
     [ {[ "a" := VInt 1; "b" := VInt 1 ]};
       {[ "a" := VInt 1; "b" := VInt 2 ]} ] in
   let self := Group false [] docs in
   let filters := [("a", Lit (PInt 1))] in
   List.filter (passes filters) docs = docs ∧
   ∃ self',
     group.update_one filters {[ "c" := VInt 3 ]} self = (OK (), self') ∧
     decrypt_loads (file self') =
     Some [ {[ "a" := VInt 1; "b" := VInt 2 ]};
            {[ "a" := VInt 1; "b" := VInt 1; "c" := VInt 3 ]} ]).
Proof.
  split; intros docs self.
  - intros is_True filters. split; [ by vm_compute | ].
    exists (group.update filters {[ "b" := VInt 2 ]} self).2.
    split; by vm_compute.
  - intros filters. split; [ by vm_compute | ].
    exists (group.update_one filters {[ "c" := VInt 3 ]} self).2.
    split; by vm_compute.
Qed.

(** Both methods on a group of three documents, two of which pass the filter. *)
Lemma update_moves_to_end_witness :
  let docs : list document :=
    [ {[ "status" := VStr "open"; "id" := VInt 1 ]};
      {[ "status" := VStr "closed"; "id" := VInt 2 ]};
      {[ "status" := VStr "open"; "id" := VInt 3 ]} ] in
  let self := Group true docs docs in
  let filters := [("status", Lit (PStr "open"))] in
  let nValues : document := {[ "status" := VStr "closed" ]} in
  in_sync (group.update filters nValues self).2
    (List.filter (λ d, negb (passes filters d)) docs ++
     ((λ i, nValues ∪ i) <$> List.filter (passes filters) docs)) ∧
  ∃ pre d post found,
    group.get_one filters None self = OK (Doc found) ∧
    docs = pre ++ d :: post ∧
    py_eq (VDict d) (VDict found) = true ∧
    Forall (λ i, py_eq (VDict i) (VDict found) = false) pre ∧
    in_sync (group.update_one filters nValues self).2
      (pre ++ post ++ [nValues ∪ found]).
Proof.
  intros docs self filters nValues.
  destruct (update_moves_to_end self docs filters nValues)
    as [Hupdate Hone]; [ by split | ].
  split.
  - apply (Hupdate 2%nat (group.update filters nValues self).2);
      [ | by vm_compute ].
    intros d d' _ _. apply passes_plain_eq.
    repeat constructor. by exists (PStr "open").
  - apply Hone. by vm_compute.
Defined.
(** [merge] on [[1; 3]] and [[2]] by ["k"], and on a right list whose
    document has no ["k"]. *)
Lemma merge_interleaves_witness :
  let left : list document := [ {[ "k" := VInt 1 ]}; {[ "k" := VInt 3 ]} ] in
  let right : list document := [ {[ "k" := VInt 2 ]} ] in
  let out : list document :=
    [ {[ "k" := VInt 1 ]}; {[ "k" := VInt 2 ]}; {[ "k" := VInt 3 ]} ] in
  let other : list document := [ {[ "a" := VInt 2 ]} ] in
  (out ≡ₚ left ++ right ∧ left `sublist_of` out ∧ right `sublist_of` out) ∧
  (left ≠ [] ∧ other ≠ [] ∧
   ((ValueError MissingSortKey = ValueError MissingSortKey ∧
     ∃ d, d ∈ left ++ other ∧ d !! "k" = None) ∨
    (ValueError MissingSortKey = TypeError ∧
     ∃ a b x y, a ∈ left ∧ b ∈ other ∧
       a !! "k" = Some x ∧ b !! "k" = Some y ∧
       py_cmp OpLe x y = Raise TypeError))).
Proof.
  intros left right out other. split.
  - apply (proj1 (merge_interleaves left right "k") out). by vm_compute.
  - apply (proj2 (merge_interleaves left other "k")
             (ValueError MissingSortKey)).
    by vm_compute.
Defined.

(** Sorting [[2; 1]] by ["k"], and sorting the result again. *)
Lemma merge_sort_idempotent_witness :
  let array : list document := [ {[ "k" := VInt 2 ]}; {[ "k" := VInt 1 ]} ] in
  let out : list document := [ {[ "k" := VInt 1 ]}; {[ "k" := VInt 2 ]} ] in
  merge_sort out "k" = OK out.
Proof.
  intros array out.
  apply (proj2 (merge_sort_idempotent array "k") out). by vm_compute.
Defined.

(** A search for 2, which sits in the middle, and for 3, which sits last. *)
Lemma binary_search_sorted_witness :
  let arr : list document :=
    [ {[ "k" := VInt 1 ]}; {[ "k" := VInt 2 ]}; {[ "k" := VInt 3 ]} ] in
  ((Doc {[ "k" := VInt 2 ]} = PyFalse ∨
    ∃ d, Doc {[ "k" := VInt 2 ]} = Doc d ∧ d ∈ arr ∧
         same_key "k" (VInt 2) d = true) ∧
   (Doc {[ "k" := VInt 2 ]} = PyFalse ↔
    Forall (λ d, same_key "k" (VInt 2) d = false)
           (take (length arr - 1) arr))) ∧
  ((PyFalse = PyFalse ∨
    ∃ d, PyFalse = Doc d ∧ d ∈ arr ∧ same_key "k" (VInt 3) d = true) ∧
   (PyFalse = PyFalse ↔
    Forall (λ d, same_key "k" (VInt 3) d = false)
           (take (length arr - 1) arr))).
Proof.
  intros arr.
  assert (StronglySorted (key_le "k") arr) as Hsorted
    by (apply (merge_sort_sorted "k" arr arr); by vm_compute).
  split.
  - apply (proj1 (binary_search_sorted arr "k" (VInt 2) Hsorted)).
    by vm_compute.
  - apply (proj1 (binary_search_sorted arr "k" (VInt 3) Hsorted)).
    by vm_compute.
Defined.

(** The fast path looking for 3 among 1, 2, 3: the one match has the
    greatest key, and the result is [False]. *)
Lemma get_one_fast_path_witness :
  let docs : list document :=
    [ {[ "k" := VInt 3 ]}; {[ "k" := VInt 1 ]}; {[ "k" := VInt 2 ]} ] in
  let self := Group false [] docs in
  (PyFalse = PyFalse ∨
   ∃ d, PyFalse = Doc d ∧ d ∈ docs ∧ same_key "k" (VInt 3) d = true) ∧
  (PyFalse = PyFalse ↔
   (length (List.filter (same_key "k" (VInt 3)) docs) ≤ 1)%nat ∧
   (List.filter (same_key "k" (VInt 3)) docs ≠ [] →
    ∀ d x, d ∈ docs → d !! "k" = Some x →
      py_cmp OpGt x (VInt 3) ≠ OK true)).
Proof.
  intros docs self.
  apply (proj1 (get_one_fast_path self docs "k" (PInt 3) eq_refl) PyFalse).
  by vm_compute.
Defined.

(** The fast path on a group where one document lacks the field. *)
Lemma query_raises_witness :
  let docs : list document := [ {[ "a" := VInt 1 ]}; {[ "k" := VInt 1 ]} ] in
  let self := Group false [] docs in
  ValueError MissingSortKey ∈ query_errors ∧
  (ValueError MissingSortKey = InvalidToken → preLoad self = false).
Proof.
  intros docs self.
  apply (query_raises [("k", Lit (PInt 1))] None self). left. by vm_compute.
Defined.

(** Sorting by ["k"] the documents whose ["a"] is 1. *)
Lemma merge_sort_filter_witness :
  let array : list document :=
    [ {[ "k" := VInt 3; "a" := VInt 1 ]}; {[ "k" := VInt 2; "a" := VInt 0 ]};
      {[ "k" := VInt 1; "a" := VInt 1 ]} ] in
  let out : list document :=
    [ {[ "k" := VInt 1; "a" := VInt 1 ]}; {[ "k" := VInt 2; "a" := VInt 0 ]};
      {[ "k" := VInt 3; "a" := VInt 1 ]} ] in
  let f := same_key "a" (VInt 1) in
  merge_sort (List.filter f array) "k" = OK (List.filter f out).
Proof.
  intros array out f. apply (merge_sort_filter f array out "k").
  by vm_compute.
Defined.

(** [get_one] and [get] with an operator filter and a [sortby]. *)
Lemma get_one_first_of_get_witness :
  let docs : list document :=
    [ {[ "k" := VInt 3; "a" := VInt 5 ]}; {[ "k" := VInt 1; "a" := VInt 0 ]};
      {[ "k" := VInt 2; "a" := VInt 7 ]} ] in
  let self := Group false [] docs in
  let filters := [("a", Ops [("__gt", OVal (VInt 1))])] in
  let out : list document :=
    [ {[ "k" := VInt 2; "a" := VInt 7 ]};
      {[ "k" := VInt 3; "a" := VInt 5 ]} ] in
  (∀ r, group.get_one filters (Some "k") self = OK r →
     r = Doc {[ "k" := VInt 2; "a" := VInt 7 ]}) ∧
  (truthy (Some "k") = false →
   group.get_one filters (Some "k") self =
   OK (Doc {[ "k" := VInt 2; "a" := VInt 7 ]})).
Proof.
  intros docs self filters out.
  apply (get_one_first_of_get filters (Some "k") self out); by vm_compute.
Defined.

(** An [update_one] whose filter no document passes, and an [update]
    whose filter cannot be evaluated on the stored document: both raise,
    and the group is as before. *)
Lemma mutation_raises_unchanged_witness :
  (let docs : list document := [ {[ "a" := VInt 1 ]}; {[ "a" := VInt 2 ]} ] in
   let self := Group true docs docs in
   let filters := [("a", Lit (PInt 5))] in
   let nValues : document := {[ "b" := VInt 0 ]} in
   (group.update_one filters nValues self).2 = self ∧
   (group.get_one filters None self = Raise AttributeError ∨
    (AttributeError = AttributeError ∧
     (group.get_one filters None self = OK PyFalse ∨
      group.get_one filters None self = OK PyNone)))) ∧
  (let docs : list document := [ {[ "a" := VStr "x" ]} ] in
   let self := Group true docs docs in
   let filters := [("a", Ops [("__gt", OVal (VInt 1))])] in
   let nValues : document := {[ "b" := VInt 0 ]} in
   (group.update filters nValues self).2 = self ∧
   group.get filters None self = Raise TypeError).
Proof.
  split; intros docs self filters nValues.
  - apply (proj1 (proj1 (mutation_raises_unchanged self docs filters nValues
                           AttributeError
                           (group.update_one filters nValues self).2
                           ltac:(by split)))).
    by vm_compute.
  - apply (proj1 (proj1 (proj2 (mutation_raises_unchanged self docs filters
                                  nValues TypeError
                                  (group.update filters nValues self).2
                                  ltac:(by split))))).
    by vm_compute.
Defined.

(** A group of two documents opened with and without [preLoad]. *)
Lemma preLoad_transparent_witness :
  let docs : list document := [ {[ "a" := VInt 1 ]}; {[ "a" := VInt 2 ]} ] in
  let self := Group true [] docs in
  let hot := Group true docs docs in
  let cold := Group false [] docs in
  (∀ filters sortby,
     group.get_one filters sortby hot = group.get_one filters sortby cold ∧
     group.get filters sortby hot = group.get filters sortby cold) ∧
  (∀ op, (run op hot).1 = (run op cold).1 ∧
         decrypt_loads (file (run op hot).2) =
         decrypt_loads (file (run op cold).2)).
Proof.
  intros docs self hot cold.
  apply (preLoad_transparent self hot); by vm_compute.
Defined.

(** A [remove] that takes two of three documents out. *)
Lemma mutation_document_count_witness :
  let docs : list document :=
    [ {[ "a" := VInt 1 ]}; {[ "a" := VInt 2 ]}; {[ "a" := VInt 1 ]} ] in
  let self := Group true docs docs in
  let filters := [("a", Lit (PInt 1))] in
  ∃ docs', in_sync (run (Remove filters) self).2 docs' ∧
    length docs' =
    (length docs - length (List.filter (passes filters) docs))%nat.
Proof.
  intros docs self filters.
  apply (mutation_document_count (Remove filters) self docs);
    [ by split | by vm_compute ].
Defined.

(** The same [remove], and what a [get] finds afterwards. *)
Lemma remove_removes_matches_witness :
  let docs : list document :=
    [ {[ "a" := VInt 1 ]}; {[ "a" := VInt 2 ]}; {[ "a" := VInt 1 ]} ] in
  let self := Group true docs docs in
  let filters := [("a", Lit (PInt 1))] in
  let self' := (group.remove filters self).2 in
  2%nat = length (List.filter (passes filters) docs) ∧
  in_sync self' (List.filter (λ d, negb (passes filters d)) docs) ∧
  group.get filters None self' = OK [] ∧
  ∃ self'', group.remove filters self' = (OK 0%nat, self'') ∧
    in_sync self'' (List.filter (λ d, negb (passes filters d)) docs).
Proof.
  intros docs self filters self'.
  destruct (proj1 (remove_removes_matches self docs filters ltac:(by split))
              2%nat self' ltac:(by vm_compute)) as [Hcount Hafter].
  split; [ exact Hcount | ]. apply Hafter.
  intros d d' _ _. apply passes_plain_eq.
  repeat constructor. by exists (PInt 1).
Defined.

(** A [remove_one] on two fields: the first document that passes goes. *)
Lemma remove_one_removes_match_witness :
  let docs : list document :=
    [ {[ "a" := VInt 1; "b" := VInt 0 ]}; {[ "a" := VInt 1; "b" := VInt 2 ]};
      {[ "a" := VInt 1; "b" := VInt 2; "c" := VInt 3 ]} ] in
  let self := Group true docs docs in
  let filters := [("a", Lit (PInt 1)); ("b", Lit (PInt 2))] in
  let self' := (group.remove_one filters self).2 in
  ∃ pre d post, docs = pre ++ d :: post ∧
    passes filters d = true ∧
    in_sync self' (pre ++ post) ∧
    (fast_path filters None = false →
     Forall (λ i, passes filters i = false) pre).
Proof.
  intros docs self filters self'.
  apply (remove_one_removes_match self docs filters self');
    [ by split | | by vm_compute ].
  intros d d' _ _. apply passes_plain_eq.
  repeat constructor; [ by exists (PInt 1) | by exists (PInt 2) ].
Defined.

(** An [insert] into a group of two documents. *)
Lemma get_after_insert_witness :
  let docs : list document :=
    [ {[ "a" := VInt 1; "b" := VInt 0 ]}; {[ "a" := VInt 2 ]} ] in
  let self := Group true docs docs in
  let D : document := {[ "a" := VInt 1 ]} in
  ∃ self', group.insert D ∅ self = (OK true, self') ∧
    in_sync self' (docs ++ [∅ ∪ D]) ∧
    (∀ filters,
       group.get filters None self' =
       let* out := group.get filters None self in
       let* b := match_filters (∅ ∪ D) filters in
       OK (out ++ if b : bool then [∅ ∪ D] else [])) ∧
    (∀ field p,
       (∅ ∪ D) !! field = Some (plain_val p) →
       group.get [(field, Lit p)] None self' =
       OK (List.filter (passes [(field, Lit p)]) docs ++ [∅ ∪ D])).
Proof.
  intros docs self D. apply (get_after_insert self docs D ∅). by split.
Defined.

(** Two documents given to [insert_many], and to [insert] one by one. *)
Lemma insert_many_as_inserts_witness :
  let docs : list document := [ {[ "a" := VInt 1 ]} ] in
  let self := Group true docs docs in
  let ds : list document := [ {[ "a" := VInt 2 ]}; {[ "a" := VInt 3 ]} ] in
  ∃ many each,
    group.insert_many ds self = (OK true, many) ∧
    insert_each ds self = (OK true, each) ∧
    in_sync many (docs ++ ds) ∧ in_sync each (docs ++ ds) ∧
    preLoad many = preLoad each ∧ data many = data each.
Proof.
  intros docs self ds. apply (insert_many_as_inserts self docs ds). by split.
Defined.

(** A range filter written in both orders. *)
Lemma matcher_order_irrelevant_witness :
  let ops := [("__gte", OVal (VInt 1)); ("__lte", OVal (VInt 9))] in
  let ops' := [("__lte", OVal (VInt 9)); ("__gte", OVal (VInt 1))] in
  matchDocs (VInt 5) (Ops ops) = matchDocs (VInt 5) (Ops ops') ∧
  (matchDocs (VInt 5) (Ops ops) = OK true ↔
   Forall (λ io, matchDocs (VInt 5) (Ops [io]) = OK true) ops).
Proof.
  intros ops ops'.
  apply (proj1 matcher_order_irrelevant (VInt 5) ops ops').
  - repeat constructor; by eexists.
  - apply perm_swap.
Defined.

(** A [get] sorted by a key that the document that does not pass lacks,
    and the [get_one] on the same group. *)
Lemma sortby_queries_witness :
  let docs : list document :=
    [ {[ "k" := VInt 3; "a" := VInt 1 ]}; {[ "a" := VInt 0 ]};
      {[ "k" := VInt 2; "a" := VInt 1 ]} ] in
  let self := Group false [] docs in
  let filters := [("a", Lit (PInt 1)); ("k", Ops [])] in
  let matched : list document :=
    [ {[ "k" := VInt 3; "a" := VInt 1 ]};
      {[ "k" := VInt 2; "a" := VInt 1 ]} ] in
  (∃ out, group.get filters (Some "k") self = OK out ∧
     out ≡ₚ matched ∧ StronglySorted (key_le "k") out ∧
     ∀ v, List.filter (same_key "k" v) out =
          List.filter (same_key "k" v) matched) ∧
  (group.get_one filters (Some "k") self = Raise (ValueError MissingSortKey) ∨
   group.get_one filters (Some "k") self = Raise TypeError).
Proof.
  intros docs self filters matched.
  destruct (sortby_queries filters self docs "k" eq_refl) as [_ Hsort].
  destruct Hsort as (Hget & Hone & _); [ done | ]. split.
  - apply (Hget matched); [ by vm_compute | | ].
    + apply has_keyb_spec. by vm_compute.
    + apply comparableb_spec. by vm_compute.
  - apply Hone; [ simpl; lia | ].
    exists {[ "a" := VInt 0 ]}. split; [ | by vm_compute ].
    apply list_elem_of_further, list_elem_of_here.
Defined.

(** An [update_one] on two fields: the first document that passes is
    taken out and its updated copy is stored last. *)
Lemma update_one_updates_match_witness :
  let docs : list document :=
    [ {[ "a" := VInt 1; "b" := VInt 0 ]}; {[ "a" := VInt 1; "b" := VInt 2 ]};
      {[ "a" := VInt 1; "b" := VInt 2; "c" := VInt 3 ]} ] in
  let self := Group true docs docs in
  let filters := [("a", Lit (PInt 1)); ("b", Lit (PInt 2))] in
  let nValues : document := {[ "b" := VInt 9 ]} in
  let self' := (group.update_one filters nValues self).2 in
  ∃ pre d post found, docs = pre ++ d :: post ∧
    passes filters d = true ∧
    py_eq (VDict d) (VDict found) = true ∧
    in_sync self' (pre ++ post ++ [nValues ∪ found]) ∧
    (∀ k, (nValues ∪ found) !! k =
          match nValues !! k with Some v => Some v | None => found !! k end) ∧
    (fast_path filters None = false →
     found = d ∧ Forall (λ i, passes filters i = false) pre).
Proof.
  intros docs self filters nValues self'.
  apply (update_one_updates_match self docs filters nValues self');
    [ by split | | by vm_compute ].
  intros d d' _ _. apply passes_plain_eq.
  repeat constructor; [ by exists (PInt 1) | by exists (PInt 2) ].
Defined.

(** A [get] on a plain value, over documents of which one lacks the
    field. *)
Lemma get_scans_every_document_witness :
  let docs : list document :=
    [ {[ "a" := VInt 1 ]}; {[ "b" := VInt 1 ]}; {[ "a" := VBool true ]} ] in
  let self := Group false [] docs in
  let filters := [("a", Lit (PInt 1))] in
  ∃ out, group.get filters None self = OK out ∧
    ∀ d, d ∈ out ↔
      d ∈ docs ∧
      ∀ j p, (j, Lit p) ∈ filters → same_key j (plain_val p) d = true.
Proof.
  intros docs self filters.
  apply (get_scans_every_document filters self docs eq_refl).
  repeat constructor. by exists (PInt 1).
Defined.
End examples.
